(** * pypop: the optimizer lifecycle, the rank-one evolution strategy (R1ES),
      fast evolutionary programming (FEP) and the direct-search base (DS)

    A shallow embedding of

      - [pypop7/optimizers/es/r1es.py]  (module [R1ES]),
      - [pypop7/optimizers/ep/fep.py]   (module [FEP]),
      - [pypop7/optimizers/ds/ds.py]    (module [DS]),

    over the services of the optimizer core (module [Core]) and of the
    evolution-strategy base class (module [ES]).

    Conventions.
      - A Python object [self] is a record; a method takes the record and
        returns the updated record next to its Python result.
      - numpy's float64 arithmetic, its array routines and its random
        generators are libraries of the program: they are the operations of
        the classes [Numeric] and [RandomSource]; every theorem holds for
        all their implementations.
      - A 1-d array is a list and a 2-d array a list of rows; an operation
        on arrays whose shapes do not agree raises as numpy does.
      - An exception ([IndexError], [TypeError], [ValueError]) is the result
        [None].
      - The only unbounded loop, [while True] of [R1ES.optimize], runs on
        fuel. *)

From Stdlib Require Import QArith Qround.
From stdpp Require Import base option list gmap strings.

#[local] Open Scope nat_scope.

(** ** numpy: float64 scalars and the array routines the sources call *)

Class Numeric (F : Type) := {
  fadd : F → F → F;                 (* a + b *)
  fsub : F → F → F;                 (* a - b *)
  fmul : F → F → F;                 (* a * b *)
  fdiv : F → F → F;                 (* a / b *)
  fsqrt : F → F;                    (* np.sqrt *)
  fexp : F → F;                     (* np.exp *)
  fltb : F → F → bool;              (* a < b *)
  fleb : F → F → bool;              (* a <= b *)
  fconst : Q → F;                   (* a literal, or an int used as a float *)
  np_dot : list F → list F → F;     (* np.dot on two 1-d arrays *)
  np_argsort : list F → list nat;   (* np.argsort, ascending *)
  np_sort : list F → list F;        (* ndarray.sort, ascending *)
  np_empty : nat → nat → list (list F);  (* np.empty((rows, columns)) *)
}.

(** numpy.random.Generator: every draw returns the sample and the generator's
    next state. *)
Class RandomSource (F G : Type) := {
  standard_normal : G → F * G;                 (* standard_normal() *)
  standard_normal_n : nat → G → list F * G;    (* standard_normal((n,)) *)
  standard_cauchy : G → F * G;                 (* standard_cauchy() *)
  uniform : list F → list F → G → list F * G;  (* uniform(low, high) *)
  choice : nat → nat → G → list nat * G;       (* choice(a, size) *)
}.

(** Control flow of a loop body that may [return] from the enclosing
    function. *)
Inductive flow (S : Type) : Type :=
  | Next (s : S)      (* fall through to the next iteration *)
  | Return (s : S).   (* return from the function *)
Arguments Next {S} s.
Arguments Return {S} s.

Definition flow_state {S : Type} (r : flow S) : S :=
  match r with Next s | Return s => s end.

(** [for k in ks: body], where the body may raise or return. *)
Fixpoint for_each {S : Type} (body : nat → S → option (flow S))
    (ks : list nat) (s : S) : option (flow S) :=
  match ks with
  | [] => Some (Next s)
  | k :: ks' =>
      match body k s with
      | Some (Next s') => for_each body ks' s'
      | r => r
      end
  end.

(** [a[k] = v] on an array: [IndexError] out of range. *)
Definition set_item {A : Type} (a : list A) (k : nat) (v : A) : option (list A) :=
  if decide (k < length a) then Some (<[k := v]> a) else None.

(** numpy broadcasts the two operands of a binary operation on 1-d arrays:
    their shapes agree when the lengths are equal or one of them is 1, and
    the operand of length 1 is stretched to the length of the other. *)
Definition broadcastable {A B : Type} (u : list A) (v : list B) : Prop :=
  length u = length v ∨ length u = 1 ∨ length v = 1.

Definition broadcast {A B C : Type} (f : A → B → C) (u : list A) (v : list B)
    : list C :=
  if decide (length u = length v) then zip_with f u v
  else match u, v with
       | [a], _ => map (f a) v
       | _, [b] => map (λ a, f a b) u
       | _, _ => []
       end.

Section Vectors.
Context {F : Type} `{Numeric F}.

Definition of_nat (n : nat) : F := fconst (inject_Z (Z.of_nat n)).
Definition of_Z (z : Z) : F := fconst (inject_Z z).

(** numpy's [u + v] and [u - v] on two 1-d arrays, elementwise after
    broadcasting; on shapes that do not agree, where numpy raises, see
    [np_add] and [np_sub]. *)
Definition vadd (u v : list F) : list F := broadcast fadd u v.
Definition vsub (u v : list F) : list F := broadcast fsub u v.
(** [u + v] and [u - v]: a [ValueError] when the shapes do not agree. *)
Definition np_add (u v : list F) : option (list F) :=
  if decide (broadcastable u v) then Some (vadd u v) else None.
Definition np_sub (u v : list F) : option (list F) :=
  if decide (broadcastable u v) then Some (vsub u v) else None.
(** [u += v]: in place, so that [u] keeps its shape and only [v] is
    stretched. *)
Definition np_iadd (u v : list F) : option (list F) :=
  if decide (length v = length u ∨ length v = 1) then Some (vadd u v)
  else None.
(** The row that [a[k] = v] stores in a row [row] of a 2-d array: [v]
    when it has the length of the row, its one entry in every column when
    it has length 1, a [ValueError] otherwise. *)
Definition np_assign (row v : list F) : option (list F) :=
  if decide (length v = length row) then Some v
  else match v with
       | [b] => Some (replicate (length row) b)
       | _ => None
       end.
(** [np.dot(u, v)] on two 1-d arrays: a [ValueError] unless they have one
    length. *)
Definition dot (u v : list F) : option F :=
  if decide (length u = length v) then Some (np_dot u v) else None.
(** [a*v] for a scalar [a]. *)
Definition vscale (a : F) (v : list F) : list F := map (fmul a) v.
(** [v/a] for a scalar [a]. *)
Definition vdivs (v : list F) (a : F) : list F := map (λ x, fdiv x a) v.
(** [np.zeros((n,))]. *)
Definition np_zeros (n : nat) : list F := replicate n (fconst 0.0).
(** [a[mask]] for a boolean mask. *)
Fixpoint mask_select {A : Type} (a : list A) (mask : list bool) : list A :=
  match a, mask with
  | v :: a', b :: mask' =>
      if b then v :: mask_select a' mask' else mask_select a' mask'
  | _, _ => []
  end.
End Vectors.

(** ** The optimizer core *)

Module Core.
Section Core.
Context {F G : Type} `{Numeric F} `{RandomSource F G}.

(** What a run does to the outside, in order: a call of the fitness
    function, or a poll of the termination check with its answer. The
    program does not read this log. *)
Inductive event : Type :=
  | Evaluated (x : list F)
  | Polled (b : bool).

Record Optimizer : Type := {
  fitness_function : list F → F;
  ndim_problem : nat;
  initial_lower_boundary : list F;
  initial_upper_boundary : list F;
  max_function_evaluations : option nat;   (* None: np.Inf *)
  max_runtime : option nat;                (* None: np.Inf *)
  rng_initialization : G;
  rng_optimization : G;
  n_function_evaluations : nat;
  best_so_far_x : list F;
  best_so_far_y : F;
  ticks : nat;                             (* readings of the clock so far *)
  trace : list event;
}.

Definition set_rng_initialization (g : G) (o : Optimizer) : Optimizer :=
  {| fitness_function := fitness_function o; ndim_problem := ndim_problem o;
     initial_lower_boundary := initial_lower_boundary o;
     initial_upper_boundary := initial_upper_boundary o;
     max_function_evaluations := max_function_evaluations o;
     max_runtime := max_runtime o;
     rng_initialization := g; rng_optimization := rng_optimization o;
     n_function_evaluations := n_function_evaluations o;
     best_so_far_x := best_so_far_x o; best_so_far_y := best_so_far_y o;
     ticks := ticks o; trace := trace o |}.

Definition set_rng_optimization (g : G) (o : Optimizer) : Optimizer :=
  {| fitness_function := fitness_function o; ndim_problem := ndim_problem o;
     initial_lower_boundary := initial_lower_boundary o;
     initial_upper_boundary := initial_upper_boundary o;
     max_function_evaluations := max_function_evaluations o;
     max_runtime := max_runtime o;
     rng_initialization := rng_initialization o; rng_optimization := g;
     n_function_evaluations := n_function_evaluations o;
     best_so_far_x := best_so_far_x o; best_so_far_y := best_so_far_y o;
     ticks := ticks o; trace := trace o |}.

Definition set_fitness_function (f : list F → F) (o : Optimizer) : Optimizer :=
  {| fitness_function := f; ndim_problem := ndim_problem o;
     initial_lower_boundary := initial_lower_boundary o;
     initial_upper_boundary := initial_upper_boundary o;
     max_function_evaluations := max_function_evaluations o;
     max_runtime := max_runtime o;
     rng_initialization := rng_initialization o;
     rng_optimization := rng_optimization o;
     n_function_evaluations := n_function_evaluations o;
     best_so_far_x := best_so_far_x o; best_so_far_y := best_so_far_y o;
     ticks := ticks o; trace := trace o |}.

(** The wall clock: its [i]-th reading of the run, as elapsed time. *)
Variable clock : nat → nat.

(** [a >= limit], where the limit [None] is infinite. *)
Definition reached (a : nat) (limit : option nat) : bool :=
  match limit with
  | Some m => bool_decide (m ≤ a)
  | None => false
  end.

(** Modelled from the spec: [Optimizer._check_terminations] (the core class
    is not among the sources): true iff the evaluation counter has reached
    [max_function_evaluations] or the elapsed wall time has reached
    [max_runtime]. *)
Definition _check_terminations (o : Optimizer) : bool * Optimizer :=
  let runtime := clock (ticks o) in
  let b := reached (n_function_evaluations o) (max_function_evaluations o)
           || reached runtime (max_runtime o) in
  (b,
   {| fitness_function := fitness_function o; ndim_problem := ndim_problem o;
      initial_lower_boundary := initial_lower_boundary o;
      initial_upper_boundary := initial_upper_boundary o;
      max_function_evaluations := max_function_evaluations o;
      max_runtime := max_runtime o;
      rng_initialization := rng_initialization o;
      rng_optimization := rng_optimization o;
      n_function_evaluations := n_function_evaluations o;
      best_so_far_x := best_so_far_x o; best_so_far_y := best_so_far_y o;
      ticks := S (ticks o); trace := trace o ++ [Polled b] |}).

(** Modelled from the spec: [Optimizer._evaluate_fitness] (the core class is
    not among the sources): the single point of contact with the fitness
    function; the evaluation counter grows by exactly one per call, and the
    best-so-far value and point are replaced together when the new value is
    smaller (minimization). The recording of the fitness history is done by
    the callers among the sources ([R1ES.optimize], under
    [saving_fitness]). *)
Definition _evaluate_fitness (o : Optimizer) (x : list F) : F * Optimizer :=
  let y := fitness_function o x in
  let better := fltb y (best_so_far_y o) in
  (y,
   {| fitness_function := fitness_function o; ndim_problem := ndim_problem o;
      initial_lower_boundary := initial_lower_boundary o;
      initial_upper_boundary := initial_upper_boundary o;
      max_function_evaluations := max_function_evaluations o;
      max_runtime := max_runtime o;
      rng_initialization := rng_initialization o;
      rng_optimization := rng_optimization o;
      n_function_evaluations := n_function_evaluations o + 1;
      best_so_far_x := if better then x else best_so_far_x o;
      best_so_far_y := if better then y else best_so_far_y o;
      ticks := ticks o; trace := trace o ++ [Evaluated x] |}).

(** The points the fitness function was called on, in order. *)
Definition evaluations (t : list event) : list (list F) :=
  omap (λ e, match e with Evaluated x => Some x | Polled _ => None end) t.

(** The answers of the termination check, in order. *)
Definition polls (t : list event) : list bool :=
  omap (λ e, match e with Polled b => Some b | Evaluated _ => None end) t.

End Core.
Arguments event F : clear implicits.
Arguments Optimizer F G : clear implicits.
End Core.

(** ** The evolution-strategy base class

    [pypop7/optimizers/es/es.py] is not among the sources: [R1ES] extends it
    and calls its methods. Its attributes are the ones the sources read; its
    methods are modelled from the spec. *)

Module ES.
Section ES.
Context {F G : Type} `{Numeric F} `{RandomSource F G}.
Import Core.

Record ES : Type := {
  base : Optimizer F G;        (* the attributes of the core *)
  n_individuals : nat;
  n_parents : nat;
  mean : option (list F);      (* options.get('mean') *)
  sigma : F;
  _w : list F;                 (* recombination weights *)
  _mu_eff : F;
  _n_generations : nat;
  n_restart : nat;
  is_restart : bool;           (* whether restarts are enabled *)
  sigma_threshold : F;
  stagnation : nat;
  fitness_diff : F;
  _sigma_bak : F;
  _fitness_list : list F;      (* best-so-far value of each generation *)
  saving_fitness : bool;
}.

Definition with_base (f : Optimizer F G → Optimizer F G) (e : ES) : ES :=
  {| base := f (base e); n_individuals := n_individuals e;
     n_parents := n_parents e; mean := mean e; sigma := sigma e;
     _w := _w e; _mu_eff := _mu_eff e; _n_generations := _n_generations e;
     n_restart := n_restart e; is_restart := is_restart e;
     sigma_threshold := sigma_threshold e; stagnation := stagnation e;
     fitness_diff := fitness_diff e; _sigma_bak := _sigma_bak e;
     _fitness_list := _fitness_list e; saving_fitness := saving_fitness e |}.

Definition set_sigma (v : F) (e : ES) : ES :=
  {| base := base e; n_individuals := n_individuals e;
     n_parents := n_parents e; mean := mean e; sigma := v;
     _w := _w e; _mu_eff := _mu_eff e; _n_generations := _n_generations e;
     n_restart := n_restart e; is_restart := is_restart e;
     sigma_threshold := sigma_threshold e; stagnation := stagnation e;
     fitness_diff := fitness_diff e; _sigma_bak := _sigma_bak e;
     _fitness_list := _fitness_list e; saving_fitness := saving_fitness e |}.

Definition set__n_generations (n : nat) (e : ES) : ES :=
  {| base := base e; n_individuals := n_individuals e;
     n_parents := n_parents e; mean := mean e; sigma := sigma e;
     _w := _w e; _mu_eff := _mu_eff e; _n_generations := n;
     n_restart := n_restart e; is_restart := is_restart e;
     sigma_threshold := sigma_threshold e; stagnation := stagnation e;
     fitness_diff := fitness_diff e; _sigma_bak := _sigma_bak e;
     _fitness_list := _fitness_list e; saving_fitness := saving_fitness e |}.

Definition set_n_restart (n : nat) (e : ES) : ES :=
  {| base := base e; n_individuals := n_individuals e;
     n_parents := n_parents e; mean := mean e; sigma := sigma e;
     _w := _w e; _mu_eff := _mu_eff e; _n_generations := _n_generations e;
     n_restart := n; is_restart := is_restart e;
     sigma_threshold := sigma_threshold e; stagnation := stagnation e;
     fitness_diff := fitness_diff e; _sigma_bak := _sigma_bak e;
     _fitness_list := _fitness_list e; saving_fitness := saving_fitness e |}.

Definition set__fitness_list (l : list F) (e : ES) : ES :=
  {| base := base e; n_individuals := n_individuals e;
     n_parents := n_parents e; mean := mean e; sigma := sigma e;
     _w := _w e; _mu_eff := _mu_eff e; _n_generations := _n_generations e;
     n_restart := n_restart e; is_restart := is_restart e;
     sigma_threshold := sigma_threshold e; stagnation := stagnation e;
     fitness_diff := fitness_diff e; _sigma_bak := _sigma_bak e;
     _fitness_list := l; saving_fitness := saving_fitness e |}.

(** Modelled from the spec: [ES._initialize_mean] (es.py is not among the
    sources): the mean is the initial point the user supplied, or a uniform
    draw within the bounds when there is none; a restart always draws.
    [DS._initialize_x] below is its counterpart among the sources. *)
Definition _initialize_mean (e : ES) (restart : bool) : list F * ES :=
  match restart, mean e with
  | false, Some m => (m, e)
  | _, _ =>
      let '(m, g) := uniform (initial_lower_boundary (base e))
                       (initial_upper_boundary (base e))
                       (rng_initialization (base e)) in
      (m, with_base (set_rng_initialization g) e)
  end.

(** The plateau test on a history of best-so-far values: the value
    [stagnation] generations back exceeds the latest one by no more than
    [fitness_diff]. It needs a history that long. *)
Definition plateau (e : ES) (history : list F) : bool :=
  if decide (stagnation e ≤ length history) then
    match history !! (length history - stagnation e), last history with
    | Some before, Some now => fleb (fsub before now) (fitness_diff e)
    | _, _ => false
    end
  else false.

(** Modelled from the spec: [ES.restart_reinitialize] (es.py is not among
    the sources), the restart controller, consulted once per generation. It
    fires when the step-size is below [sigma_threshold], or when the
    best-so-far value has not improved by more than [fitness_diff] over the
    last [stagnation] generations. When it fires the restart counter grows
    by one and the step-size and the history of the plateau test start
    afresh; the evaluation counter and the generation counter are left as
    they are. The result says whether it fired. *)
Definition restart_reinitialize (e : ES) : bool * ES :=
  let history := _fitness_list e ++ [best_so_far_y (base e)] in
  if fltb (sigma e) (sigma_threshold e) || plateau e history then
    (true,
     set__fitness_list [best_so_far_y (base e)]
       (set_sigma (_sigma_bak e) (set_n_restart (n_restart e + 1) e)))
  else (false, set__fitness_list history e).

(** Modelled from the spec: [ES.optimize] (es.py is not among the sources),
    the prologue of every [optimize]: it installs the fitness function when
    one is passed and returns the empty fitness history. *)
Definition optimize (e : ES) (fitness : option (list F → F)) : list F * ES :=
  match fitness with
  | Some f => ([], with_base (set_fitness_function f) e)
  | None => ([], e)
  end.

(** Modelled from the spec: [ES._print_verbose_info] (es.py is not among the
    sources): progress output is a side channel, it leaves the optimizer as
    it is. *)
Definition _print_verbose_info (e : ES) (y : list F) : ES := e.

(** The results record. *)
Record Results : Type := {
  r_n_function_evaluations : nat;
  r_best_so_far_x : list F;
  r_best_so_far_y : F;
  r_sigma : F;
  r_n_restart : nat;
  r__n_generations : nat;
  r_fitness : list F;
  r_mean : list F;
}.

(** Modelled from the spec: [ES._collect_results] (es.py is not among the
    sources): the final counters, the best-so-far point and value, the
    step-size, the restart and generation counters and the fitness history;
    [DS._collect_results] below is its counterpart among the sources. *)
Definition _collect_results (e : ES) (fitness mean : list F) : Results :=
  {| r_n_function_evaluations := n_function_evaluations (base e);
     r_best_so_far_x := best_so_far_x (base e);
     r_best_so_far_y := best_so_far_y (base e);
     r_sigma := sigma e;
     r_n_restart := n_restart e;
     r__n_generations := _n_generations e;
     r_fitness := fitness;
     r_mean := mean |}.

End ES.
Arguments ES F G : clear implicits.
Arguments Results F : clear implicits.
End ES.

(** ** The rank-one evolution strategy: [pypop7/optimizers/es/r1es.py] *)

(** How a run on fuel ends. *)
Inductive outcome (A : Type) : Type :=
  | Returns (a : A)   (* the function returned *)
  | Raises            (* an exception left the function *)
  | OutOfFuel.        (* the loop was cut short by the model *)
Arguments Returns {A} a.
Arguments Raises {A}.
Arguments OutOfFuel {A}.

Module R1ES.
Section R1ES.
Context {F G : Type} `{Numeric F} `{RandomSource F G}.
Import Core.

Record R1ES : Type := {
  es : ES.ES F G;             (* the attributes of the base classes *)
  c_cov : F;
  c : F;
  c_s : F;
  q_star : F;
  d_sigma : F;
  _x_1 : F;
  _x_2 : F;
  _p_1 : F;
  _p_2 : option F;            (* None until initialize *)
  _rr : option (list nat);    (* None until initialize *)
}.

Definition with_es (f : ES.ES F G → ES.ES F G) (self : R1ES) : R1ES :=
  {| es := f (es self); c_cov := c_cov self; c := c self; c_s := c_s self;
     q_star := q_star self; d_sigma := d_sigma self; _x_1 := _x_1 self;
     _x_2 := _x_2 self; _p_1 := _p_1 self; _p_2 := _p_2 self;
     _rr := _rr self |}.

Definition set_d_sigma (v : F) (self : R1ES) : R1ES :=
  {| es := es self; c_cov := c_cov self; c := c self; c_s := c_s self;
     q_star := q_star self; d_sigma := v; _x_1 := _x_1 self;
     _x_2 := _x_2 self; _p_1 := _p_1 self; _p_2 := _p_2 self;
     _rr := _rr self |}.

Definition set__p_2__rr (p2 : F) (rr : list nat) (self : R1ES) : R1ES :=
  {| es := es self; c_cov := c_cov self; c := c self; c_s := c_s self;
     q_star := q_star self; d_sigma := d_sigma self; _x_1 := _x_1 self;
     _x_2 := _x_2 self; _p_1 := _p_1 self; _p_2 := Some p2;
     _rr := Some rr |}.

(** The attributes of the core, and a method of the core run on them. *)
Definition core (self : R1ES) : Optimizer F G := ES.base (es self).
Definition with_core (f : Optimizer F G → Optimizer F G) (self : R1ES) : R1ES :=
  with_es (ES.with_base f) self.

(** The statements of [R1ES.__init__] after the call of [ES.__init__] in
    line 103, which has built [e] from the same options dict; [options]
    holds the five keys that these statements read, each given or
    absent. *)
Definition __init__ (e : ES.ES F G) (options : gmap string F) : R1ES :=
  let ndim := ndim_problem (ES.base e) in
  let c_cov := default (fdiv (fconst 1.0)
                          (fadd (fmul (fconst 3.0) (fsqrt (of_nat ndim))) (fconst 5.0)))
                 (options !! "c_cov") in
  let c := default (fdiv (fconst 2.0) (fadd (of_nat ndim) (fconst 7.0)))
             (options !! "c") in
  {| es := e;
     c_cov := c_cov;
     c := c;
     c_s := default (fconst 0.3) (options !! "c_s");
     q_star := default (fconst 0.3) (options !! "q_star");
     d_sigma := default (fconst 1.0) (options !! "d_sigma");
     _x_1 := fsqrt (fsub (fconst 1.0) c_cov);
     _x_2 := fsqrt c_cov;
     _p_1 := fsub (fconst 1.0) c;
     _p_2 := None;
     _rr := None |}.

(** [R1ES.initialize]: returns [x, mean, p, s, y]. *)
Definition initialize (self : R1ES) (is_restart : bool)
    : R1ES * list (list F) * list F * list F * F * list F :=
  let self :=
    set__p_2__rr
      (fsqrt (fmul (fmul (c self) (fsub (fconst 2.0) (c self))) (ES._mu_eff (es self))))
      (S <$> seq 0 (ES.n_parents (es self) * 2)) self in
  let x := np_empty (ES.n_individuals (es self)) (ndim_problem (core self)) in
  let '(mean, e) := ES._initialize_mean (es self) is_restart in
  let self := with_es (λ _, e) self in
  let p := np_zeros (ndim_problem (core self)) in
  let s := fconst 0.0 in
  let '(v, o) := _evaluate_fitness (core self) mean in
  let self := with_core (λ _, o) self in
  let y := replicate (ES.n_individuals (es self)) v in
  (self, x, mean, p, s, y).

Variable clock : nat → nat.

(** The body of the loop of [R1ES.iterate], on [self, x, y]. Line 132
    adds arrays and stores the sum in row [k] of [x]: a [ValueError] when
    the shapes of [z], [p] and [mean] do not agree or the sum does not fit
    the row, an [IndexError] when there is no row [k]. *)
Definition offspring (mean p : list F) (k : nat)
    (st : R1ES * list (list F) * list F)
    : option (flow (R1ES * list (list F) * list F)) :=
  let '(self, x, y) := st in
  let '(stop, o) := _check_terminations clock (core self) in
  let self := with_core (λ _, o) self in
  if stop then Some (Return (self, x, y))
  else
    let '(z, g) := standard_normal_n (ndim_problem (core self))
                     (rng_optimization (core self)) in
    let '(r, g) := standard_normal g in
    let self := with_core (set_rng_optimization g) self in
    direction ← np_add (vscale (_x_1 self) z)
                       (vscale (fmul (_x_2 self) r) p);
    candidate ← np_add mean (vscale (ES.sigma (es self)) direction);
    row ← x !! k;
    xk ← np_assign row candidate;
    let x := <[k := xk]> x in
    let '(v, o) := _evaluate_fitness (core self) xk in
    let self := with_core (λ _, o) self in
    y ← set_item y k v;
    Some (Next (self, x, y)).

(** [R1ES.iterate]: returns [x, y] (both updated in place). *)
Definition iterate (self : R1ES) (x : list (list F)) (mean p y : list F)
    : option (R1ES * list (list F) * list F) :=
  flow_state <$>
    for_each (offspring mean p) (seq 0 (ES.n_individuals (es self))) (self, x, y).

(** The body of the recombination loop of [_update_distribution], on
    [mean_w]. *)
Definition recombine (self : R1ES) (x : list (list F)) (order : list nat)
    (k : nat) (mean_w : list F) : option (flow (list F)) :=
  w ← ES._w (es self) !! k;
  i ← order !! k;
  row ← x !! i;
  Next <$> np_iadd mean_w (vscale w row).

(** The rank differences [self._rr[r < n_parents] - self._rr[r >= n_parents]]
    of line 147, for the order [r] of the combined fitness values. A mask
    of another length than the array is an [IndexError], and two
    selections whose shapes do not agree are a [ValueError]. *)
Definition rank_differences (self : R1ES) (r : list nat) : option (list Z) :=
  rr ← _rr self;
  if decide (length r = length rr) then
    let n_parents := ES.n_parents (es self) in
    let previous :=
      Z.of_nat <$> mask_select rr ((λ i, bool_decide (i < n_parents)) <$> r) in
    let current :=
      Z.of_nat <$> mask_select rr ((λ i, bool_decide (n_parents ≤ i)) <$> r) in
    if decide (broadcastable previous current)
    then Some (broadcast Z.sub previous current)
    else None
  else None.

(** [R1ES._update_distribution]: returns [mean, p, s]; the last component
    is [y] after [y.sort()], which sorts the caller's array in place. *)
Definition _update_distribution (self : R1ES) (x : list (list F))
    (mean p : list F) (s : F) (y y_bak : list F)
    : option (R1ES * list F * list F * F * list F) :=
  let order := np_argsort y in
  let y := np_sort y in
  mean_w ← flow_state <$>
    for_each (recombine self x order) (seq 0 (ES.n_parents (es self)))
      (np_zeros (ndim_problem (core self)));
  p2 ← _p_2 self;
  step ← np_sub mean_w mean;
  p ← np_add (vscale (_p_1 self) p)
             (vdivs (vscale p2 step) (ES.sigma (es self)));
  let mean := mean_w in
  let r := np_argsort (take (ES.n_parents (es self)) y_bak
                       ++ take (ES.n_parents (es self)) y) in
  rr ← rank_differences self r;
  product ← dot (ES._w (es self)) (of_Z <$> rr);
  let q := fdiv product (of_nat (ES.n_parents (es self))) in
  let s := fadd (fmul (fsub (fconst 1.0) (c_s self)) s)
             (fmul (c_s self) (fsub q (q_star self))) in
  let self :=
    with_es (ES.set_sigma
               (fmul (ES.sigma (es self)) (fexp (fdiv s (d_sigma self))))) self in
  Some (self, mean, p, s, y).

(** [fitness.append(y[0])] under [saving_fitness]. *)
Definition save_first (self : R1ES) (fitness y : list F) : option (list F) :=
  if ES.saving_fitness (es self) then y0 ← y !! 0; Some (fitness ++ [y0])
  else Some fitness.

(** The local variables of [optimize]. *)
Record locals : Type := {
  l_self : R1ES;
  l_x : list (list F);
  l_mean : list F;
  l_p : list F;
  l_s : F;
  l_y : list F;
  l_fitness : list F;
}.

(** [R1ES.restart_reinitialize]: returns [x, mean, p, s, y]; [fitness] is
    appended to in place. *)
Definition restart_reinitialize (l : locals) : option locals :=
  let '(fired, e) := ES.restart_reinitialize (es (l_self l)) in
  let self := with_es (λ _, e) (l_self l) in
  if fired then
    let '(self, x, mean, p, s, y) := initialize self true in
    fitness ← save_first self (l_fitness l) y;
    let self := set_d_sigma (fmul (d_sigma self) (fconst 2.0)) self in
    let self := with_es (λ e, ES._print_verbose_info e y) self in
    Some {| l_self := self; l_x := x; l_mean := mean; l_p := p; l_s := s;
            l_y := y; l_fitness := fitness |}
  else
    Some {| l_self := self; l_x := l_x l; l_mean := l_mean l; l_p := l_p l;
            l_s := l_s l; l_y := l_y l; l_fitness := l_fitness l |}.

(** One turn of the [while True] loop of [optimize]; [Return] is its
    [break]. *)
Definition generation (l : locals) : option (flow locals) :=
  let y_bak := l_y l in
  '(self, x, y) ← iterate (l_self l) (l_x l) (l_mean l) (l_p l) (l_y l);
  let fitness :=
    if ES.saving_fitness (es self) then l_fitness l ++ y else l_fitness l in
  let '(stop, o) := _check_terminations clock (core self) in
  let self := with_core (λ _, o) self in
  if stop then
    Some (Return {| l_self := self; l_x := x; l_mean := l_mean l;
                    l_p := l_p l; l_s := l_s l; l_y := y;
                    l_fitness := fitness |})
  else
    '(self, mean, p, s, y) ←
      _update_distribution self x (l_mean l) (l_p l) (l_s l) y y_bak;
    let self :=
      with_es (λ e, ES.set__n_generations (ES._n_generations e + 1) e) self in
    let self := with_es (λ e, ES._print_verbose_info e y) self in
    let l' := {| l_self := self; l_x := x; l_mean := mean; l_p := p;
                 l_s := s; l_y := y; l_fitness := fitness |} in
    if ES.is_restart (es self) then Next <$> restart_reinitialize l'
    else Some (Next l').

Fixpoint generations (fuel : nat) (l : locals) : outcome locals :=
  match fuel with
  | 0 => OutOfFuel
  | S fuel' =>
      match generation l with
      | None => Raises
      | Some (Return l') => Returns l'
      | Some (Next l') => generations fuel' l'
      end
  end.

(** What [optimize] returns: the collected results with the keys ['p'] and
    ['s']. *)
Record results : Type := {
  collected : ES.Results F;
  res_p : list F;
  res_s : F;
}.

(** The statements of [optimize] before its loop. *)
Definition prologue (self : R1ES) (fitness_function : option (list F → F))
    : option locals :=
  let '(fitness, e) := ES.optimize (es self) fitness_function in
  let self := with_es (λ _, e) self in
  let '(self, x, mean, p, s, y) := initialize self false in
  fitness ← save_first self fitness y;
  let self := with_es (λ e, ES._print_verbose_info e y) self in
  Some {| l_self := self; l_x := x; l_mean := mean; l_p := p; l_s := s;
          l_y := y; l_fitness := fitness |}.

(** The statements of [optimize] after its loop. *)
Definition epilogue (l : locals) : results :=
  {| collected := ES._collect_results (es (l_self l)) (l_fitness l) (l_mean l);
     res_p := l_p l;
     res_s := l_s l |}.

(** [R1ES.optimize]. *)
Definition optimize (fuel : nat) (self : R1ES)
    (fitness_function : option (list F → F)) : outcome results :=
  match prologue self fitness_function with
  | None => Raises
  | Some l =>
      match generations fuel l with
      | Returns l' => Returns (epilogue l')
      | Raises => Raises
      | OutOfFuel => OutOfFuel
      end
  end.

End R1ES.
Arguments R1ES F G : clear implicits.
Arguments locals F G : clear implicits.
Arguments results F : clear implicits.
End R1ES.

(** ** The direct-search base class: [pypop7/optimizers/ds/ds.py] *)

Module DS.
Section DS.
Context {F G : Type} `{Numeric F} `{RandomSource F G}.
Import Core.

Record DS : Type := {
  base : Optimizer F G;       (* the attributes of the core *)
  x : option (list F);        (* options.get('x') *)
  sigma : option F;           (* options.get('sigma') *)
  _n_generations : nat;
  n_restart : nat;
  sigma_threshold : F;
  stagnation : nat;
  fitness_diff : F;
  _sigma_bak : option F;
  _fitness_list : list F;
}.

Definition with_base (f : Optimizer F G → Optimizer F G) (self : DS) : DS :=
  {| base := f (base self); x := x self; sigma := sigma self;
     _n_generations := _n_generations self; n_restart := n_restart self;
     sigma_threshold := sigma_threshold self; stagnation := stagnation self;
     fitness_diff := fitness_diff self; _sigma_bak := _sigma_bak self;
     _fitness_list := _fitness_list self |}.

(** The options dict as [DS.__init__] reads it: its five keys, each of
    them given or absent. *)
Record Options : Type := {
  opt_x : option (list F);              (* 'x' *)
  opt_sigma : option F;                 (* 'sigma' *)
  opt_sigma_threshold : option F;       (* 'sigma_threshold' *)
  opt_stagnation : option nat;          (* 'stagnation' *)
  opt_fitness_diff : option F;          (* 'fitness_diff' *)
}.

(** [DS.__init__]. The constructor of the core class, which line 77 calls
    on the same options, is the parameter [optimizer_init]. *)
Definition __init__ (optimizer_init : Options → Optimizer F G)
    (options : Options) : DS :=
  let o := optimizer_init options in
  {| base := o;
     x := opt_x options;
     sigma := opt_sigma options;
     _n_generations := 0;
     n_restart := 0;
     sigma_threshold := default (fconst 1e-10) (opt_sigma_threshold options);
     stagnation := default (Nat.max 32 (ndim_problem o)) (opt_stagnation options);
     fitness_diff := default (fconst 1e-10) (opt_fitness_diff options);
     _sigma_bak := opt_sigma options;
     _fitness_list := [best_so_far_y o] |}.

(** [DS._initialize_x]. *)
Definition _initialize_x (self : DS) (is_restart : bool) : list F * DS :=
  if is_restart || bool_decide (x self = None) then
    let '(x, g) := uniform (initial_lower_boundary (base self))
                     (initial_upper_boundary (base self))
                     (rng_initialization (base self)) in
    (x, with_base (set_rng_initialization g) self)
  else (default [] (x self), self).

(** The results record of the direct-search family. *)
Record Results : Type := {
  r_n_function_evaluations : nat;
  r_best_so_far_x : list F;
  r_best_so_far_y : F;
  r_fitness : list F;
  r_sigma : option F;
  r_n_restart : nat;
  r__n_generations : nat;
}.

(** [DS._collect_results]. The first four keys are those of
    [Optimizer._collect_results], modelled from the spec (the core class is
    not among the sources). *)
Definition _collect_results (self : DS) (fitness : list F) : Results :=
  {| r_n_function_evaluations := n_function_evaluations (base self);
     r_best_so_far_x := best_so_far_x (base self);
     r_best_so_far_y := best_so_far_y (base self);
     r_fitness := fitness;
     r_sigma := sigma self;
     r_n_restart := n_restart self;
     r__n_generations := _n_generations self |}.

End DS.
Arguments DS F G : clear implicits.
Arguments Options F : clear implicits.
Arguments Results F : clear implicits.
End DS.

(** ** Fast evolutionary programming: [pypop7/optimizers/ep/fep.py]

    [iterate] writes into the arrays it is passed, and nothing in it rules
    out that two of its six parameters name one array: the arrays live in a
    store and the parameters are references into it. *)

Module FEP.
Section FEP.
Context {F G : Type} `{Numeric F} `{RandomSource F G}.
Import Core.

(** The base classes [CEP] and [EP] are not among the sources; these are
    the attributes [FEP.iterate] reads. *)
Record FEP : Type := {
  base : Optimizer F G;       (* the attributes of the core *)
  n_individuals : nat;
  q : nat;                    (* number of opponents *)
  tau : F;
  tau_apostrophe : F;
}.

Definition with_base (f : Optimizer F G → Optimizer F G) (self : FEP) : FEP :=
  {| base := f (base self); n_individuals := n_individuals self;
     q := q self; tau := tau self; tau_apostrophe := tau_apostrophe self |}.

(** The store: 2-d arrays and 1-d arrays by reference. *)
Record store : Type := {
  mats : gmap nat (list (list F));
  vecs : gmap nat (list F);
}.

(** [a[i][j]] *)
Definition get2 (h : store) (a i j : nat) : option F :=
  m ← mats h !! a; row ← m !! i; row !! j.

(** [a[i]] on a 2-d array *)
Definition get_row (h : store) (a i : nat) : option (list F) :=
  m ← mats h !! a; m !! i.

(** [a[i][j] = v] *)
Definition set2 (h : store) (a i j : nat) (v : F) : option store :=
  m ← mats h !! a;
  row ← m !! i;
  row' ← set_item row j v;
  Some {| mats := <[a := <[i := row']> m]> (mats h); vecs := vecs h |}.

(** [a[i] = row] on a 2-d array *)
Definition set_row (h : store) (a i : nat) (row : list F) : option store :=
  m ← mats h !! a;
  m' ← set_item m i row;
  Some {| mats := <[a := m']> (mats h); vecs := vecs h |}.

(** [a[i] = v] on a 1-d array *)
Definition set1 (h : store) (a i : nat) (v : F) : option store :=
  u ← vecs h !! a;
  u' ← set_item u i v;
  Some {| mats := mats h; vecs := <[a := u']> (vecs h) |}.

(** The six parameters of [iterate]. *)
Record population : Type := {
  x : nat;
  sigmas : nat;
  y : nat;
  offspring_x : nat;
  offspring_sigmas : nat;
  offspring_y : nat;
}.

(** The body of the inner loop of lines 99-104, on the store and [self]. *)
Definition mutate (a : population) (i j : nat) (st : store * FEP)
    : option (flow (store * FEP)) :=
  let '(h, self) := st in
  let '(n_j, g) := standard_cauchy (rng_optimization (base self)) in
  x_ij ← get2 h (x a) i j;
  s_ij ← get2 h (sigmas a) i j;
  h ← set2 h (offspring_x a) i j (fadd x_ij (fmul s_ij n_j));
  s_ij ← get2 h (sigmas a) i j;
  let '(n1, g) := standard_normal g in
  let '(n2, g) := standard_normal g in
  h ← set2 h (offspring_sigmas a) i j
        (fmul s_ij (fexp (fadd (fmul (tau_apostrophe self) n1)
                               (fmul (tau self) n2))));
  Some (Next (h, with_base (set_rng_optimization g) self)).

Variable clock : nat → nat.

(** The body of the loop of lines 96-105. *)
Definition offspring (a : population) (i : nat) (st : store * FEP)
    : option (flow (store * FEP)) :=
  let '(h, self) := st in
  let '(stop, o) := _check_terminations clock (base self) in
  let self := with_base (λ _, o) self in
  if stop then Some (Return (h, self))
  else
    '(h, self) ← flow_state <$>
      for_each (mutate a i) (seq 0 (ndim_problem (base self))) (h, self);
    row ← get_row h (offspring_x a) i;
    let '(v, o) := _evaluate_fitness (base self) row in
    let self := with_base (λ _, o) self in
    h ← set1 h (offspring_y a) i v;
    Some (Next (h, self)).

(** The inner loop of lines 111-113, for one opponent [j]. *)
Definition duel (new_y : list F) (i j : nat) (n_win : list F)
    : option (flow (list F)) :=
  yi ← new_y !! i;
  yj ← new_y !! j;
  if fleb yi yj then
    w ← n_win !! i;
    Next <$> set_item n_win i (fadd w (fconst 1))
  else Some (Next n_win).

(** The body of the loop of lines 110-113, on [n_win] and the generator. *)
Definition tournament (self : FEP) (new_y : list F) (i : nat)
    (st : list F * G) : option (flow (list F * G)) :=
  let '(n_win, g) := st in
  let '(opponents, g) := choice (2 * n_individuals self) (q self) g in
  n_win ← flow_state <$> for_each (duel new_y i) opponents n_win;
  Some (Next (n_win, g)).

(** The body of the loop of lines 115-118. *)
Definition survive (a : population) (new_x new_sigmas : list (list F))
    (new_y : list F) (order : list nat) (i : nat) (h : store)
    : option (flow store) :=
  k ← order !! i;
  row ← new_x !! k;
  h ← set_row h (x a) i row;
  k ← order !! i;
  row ← new_sigmas !! k;
  h ← set_row h (sigmas a) i row;
  k ← order !! i;
  v ← new_y !! k;
  h ← set1 h (y a) i v;
  Some (Next h).

(** [FEP.iterate]: returns its six parameters. *)
Definition iterate (self : FEP) (a : population) (h : store)
    : option (store * FEP) :=
  r ← for_each (offspring a) (seq 0 (n_individuals self)) (h, self);
  match r with
  | Return st => Some st
  | Next (h, self) =>
      ox ← mats h !! offspring_x a; px ← mats h !! x a;
      let new_x := ox ++ px in
      os ← mats h !! offspring_sigmas a; ps ← mats h !! sigmas a;
      let new_sigmas := os ++ ps in
      oy ← vecs h !! offspring_y a; py ← vecs h !! y a;
      let new_y := oy ++ py in
      let n_win := np_zeros (2 * n_individuals self) in
      '(n_win, g) ← flow_state <$>
        for_each (tournament self new_y) (seq 0 (2 * n_individuals self))
          (n_win, rng_optimization (base self));
      let self := with_base (set_rng_optimization g) self in
      let order := reverse (np_argsort n_win) in
      h ← flow_state <$>
        for_each (survive a new_x new_sigmas new_y order)
          (seq 0 (n_individuals self)) h;
      Some (h, self)
  end.

End FEP.
Arguments FEP F G : clear implicits.
Arguments store F : clear implicits.
End FEP.

(** ** Vocabulary of the statements *)

Section Vocabulary.
Context {F G : Type} `{Numeric F} `{RandomSource F G}.
Import Core.

(** The answer of the termination check of [o] at evaluation count [n],
    when the clock is read for the [t]-th time. *)
Definition exhausted (clock : nat → nat) (o : Optimizer F G) (n t : nat) : bool :=
  reached n (max_function_evaluations o) || reached (clock t) (max_runtime o).

(** The budget is spent: the evaluation count has reached its maximum, or
    some reading of the clock so far has reached the maximal runtime. *)
Definition spent (clock : nat → nat) (o : Optimizer F G) : Prop :=
  reached (n_function_evaluations o) (max_function_evaluations o) = true
  ∨ ∃ t, t < ticks o ∧ reached (clock t) (max_runtime o) = true.

(** One action of a method on the attributes of the core. *)
Inductive action (clock : nat → nat) : Optimizer F G → Optimizer F G → Prop :=
  | action_poll o : action clock o (_check_terminations clock o).2
  | action_evaluate o x : action clock o (_evaluate_fitness o x).2
  | action_rng_optimization o g : action clock o (set_rng_optimization g o)
  | action_rng_initialization o g : action clock o (set_rng_initialization g o).

(** [a] is [b] or below it: how a minimizer's best value moves. *)
Definition not_above (a b : F) : Prop := a = b ∨ fltb a b = true.

(** No poll of the log answered true. *)
Definition clean (t : list (event F)) : Prop := Polled true ∉ t.

(** No evaluation follows a poll that answered true. *)
Definition quiet (t : list (event F)) : Prop :=
  ∀ t1 t2, t = t1 ++ Polled true :: t2 → evaluations t2 = [].

(** The log of [cs] evaluations, each behind its poll. *)
Definition polled_evaluations (cs : list (list F)) : list (event F) :=
  cs ≫= λ c, [Polled false; Evaluated c].

(** *** R1ES *)

(** The generator after the two draws of one offspring, and the samples
    [z] and [r] of those draws. *)
Definition next_generator (ndim : nat) (g : G) : G :=
  (standard_normal (standard_normal_n ndim g).2).2.
Definition samples (ndim : nat) (g : G) : list F * F :=
  ((standard_normal_n ndim g).1, (standard_normal (standard_normal_n ndim g).2).1).
Definition generator_after (ndim k : nat) (g : G) : G :=
  Nat.iter k (next_generator ndim) g.

(** The right-hand side of line 132 for the samples drawn from [g]. *)
Definition offspring_point (self : R1ES.R1ES F G) (mean p : list F) (g : G) : list F :=
  let '(z, r) := samples (ndim_problem (R1ES.core self)) g in
  vadd mean
    (vscale (ES.sigma (R1ES.es self))
       (vadd (vscale (R1ES._x_1 self) z)
             (vscale (fmul (R1ES._x_2 self) r) p))).

(** The row that line 132 leaves in the row [row] of [x] for the samples
    drawn from [g]: the right-hand side, as the assignment fits it to the
    row. *)
Definition stored_point (self : R1ES.R1ES F G) (mean p : list F) (g : G)
    (row : list F) : option (list F) :=
  let '(z, r) := samples (ndim_problem (R1ES.core self)) g in
  direction ← np_add (vscale (R1ES._x_1 self) z)
                     (vscale (fmul (R1ES._x_2 self) r) p);
  candidate ← np_add mean (vscale (ES.sigma (R1ES.es self)) direction);
  np_assign row candidate.

(** [standard_normal((n,))] returns [n] samples. *)
Definition lawful_normal : Prop :=
  ∀ (n : nat) (g : G), length (standard_normal_n n g).1 = n.

(** The arrays that [iterate] is passed have the shapes of a problem of
    dimension [d]: [d] columns in every row of [x], [d] entries in [mean]
    and in [p]. *)
Definition conformable (d : nat) (x : list (list F)) (mean p : list F) : Prop :=
  length mean = d ∧ length p = d
  ∧ ∀ i row, x !! i = Some row → length row = d.

(** The attributes of the core after a complete iteration of the loop of
    [iterate]: the poll, the two draws and the evaluation of the point
    [c]. *)
Definition after_offspring (clock : nat → nat) (o : Optimizer F G)
    (c : list F) : Optimizer F G :=
  (_evaluate_fitness
     (set_rng_optimization
        (next_generator (ndim_problem o) (rng_optimization o))
        (_check_terminations clock o).2) c).2.

(** The points of the first [j] offspring of a generation that starts
    with the generator [g]. *)
Definition offspring_points (self : R1ES.R1ES F G) (mean p : list F) (g : G)
    (j : nat) : list (list F) :=
  (λ i, offspring_point self mean p
          (generator_after (ndim_problem (R1ES.core self)) i g)) <$> seq 0 j.

(** The rows that the first [j] complete iterations of the loop of
    [iterate] leave in the rows [a], [a + 1], ... of [x], for a generation
    that starts with the generator [g]. *)
Definition stored_points (self : R1ES.R1ES F G) (mean p : list F) (g : G)
    (x : list (list F)) (a j : nat) : list (list F) :=
  (λ i, default []
          (x !! (a + i)
           ≫= stored_point self mean p
                (generator_after (ndim_problem (R1ES.core self)) i g)))
  <$> seq 0 j.

(** The ranks, counted from [first], of the entries of the order [r] that
    satisfy [P]: entry [j] of [r] is the index of the value of rank
    [first + j]. *)
Fixpoint ranks_from (P : nat → bool) (first : nat) (r : list nat) : list nat :=
  match r with
  | [] => []
  | i :: r' =>
      if P i then first :: ranks_from P (S first) r'
      else ranks_from P (S first) r'
  end.

(** The rank statistic of the step-size rule: with [r] the ascending order
    of the [n] previous values followed by the [n] current ones, the
    weighted sum of the differences between the ranks of the previous and
    of the current values, each taken in ascending order and subtracted
    as numpy subtracts two 1-d arrays, over [n]. *)
Definition rank_statistic (w : list F) (n : nat) (r : list nat) : F :=
  let previous := ranks_from (λ i, bool_decide (i < n)) 1 r in
  let current := ranks_from (λ i, bool_decide (n ≤ i)) 1 r in
  fdiv (np_dot w (of_Z <$> broadcast Z.sub (Z.of_nat <$> previous)
                                           (Z.of_nat <$> current)))
       (of_nat n).

(** The local variables after [n] complete turns of the loop of
    [optimize]. *)
Fixpoint turns (clock : nat → nat) (n : nat) (l : R1ES.locals F G)
    : option (R1ES.locals F G) :=
  match n with
  | 0 => Some l
  | S n' =>
      match R1ES.generation clock l with
      | Some (Next l') => turns clock n' l'
      | _ => None
      end
  end.

(** What no method of [R1ES] assigns after construction. *)
Definition settings (self : R1ES.R1ES F G) :=
  (R1ES.c_cov self, R1ES.c self, R1ES.c_s self, R1ES.q_star self,
   R1ES._x_1 self, R1ES._x_2 self, R1ES._p_1 self,
   ES.n_individuals (R1ES.es self), ES.n_parents (R1ES.es self),
   ES.mean (R1ES.es self), ES._w (R1ES.es self), ES._mu_eff (R1ES.es self),
   ES.is_restart (R1ES.es self), ES.saving_fitness (R1ES.es self),
   ES.sigma_threshold (R1ES.es self), ES.stagnation (R1ES.es self),
   ES.fitness_diff (R1ES.es self), ES._sigma_bak (R1ES.es self),
   ndim_problem (R1ES.core self),
   initial_lower_boundary (R1ES.core self),
   initial_upper_boundary (R1ES.core self),
   max_function_evaluations (R1ES.core self),
   max_runtime (R1ES.core self)).

(** How a method of [R1ES] moves [self]: the settings stay, and the
    attributes of the core change by actions. *)
Definition progresses (clock : nat → nat) (self self' : R1ES.R1ES F G) : Prop :=
  settings self' = settings self
  ∧ rtc (action clock) (R1ES.core self) (R1ES.core self').

(** What the run relies on of numpy's array routines: the shapes of their
    results, and that [np.argsort] returns indices into its argument. *)
Definition lawful_arrays : Prop :=
  (∀ l : list F, length (np_argsort l) = length l)
  ∧ (∀ (l : list F) i, i ∈ np_argsort l → i < length l)
  ∧ (∀ l : list F, length (np_sort l) = length l)
  ∧ (∀ rows columns, length (np_empty (F := F) rows columns) = rows).

(** What the run relies on of the shapes of the arrays that numpy
    returns: [ndarray.sort] keeps the length, [np.empty((rows, columns))]
    has that shape, as many samples are drawn as are asked for, and
    [uniform(low, high)] has the length of its two bounds. *)
Definition lawful_shapes : Prop :=
  (∀ l : list F, length (np_sort l) = length l)
  ∧ (∀ rows columns,
       length (np_empty (F := F) rows columns) = rows
       ∧ ∀ i row, np_empty (F := F) rows columns !! i = Some row →
                  length row = columns)
  ∧ lawful_normal
  ∧ (∀ (low high : list F) (g : G),
       length low = length high → length (uniform low high g).1 = length low).

(** An optimizer that [optimize] can run: at least one offspring, no more
    parents than offspring, one weight for every parent, and the two
    bounds of the initial mean and the mean of the options, when it is
    given, of the dimension of the problem. *)
Definition runnable (self : R1ES.R1ES F G) : Prop :=
  let d := ndim_problem (R1ES.core self) in
  1 ≤ ES.n_individuals (R1ES.es self)
  ∧ ES.n_parents (R1ES.es self) ≤ ES.n_individuals (R1ES.es self)
  ∧ length (ES._w (R1ES.es self)) = ES.n_parents (R1ES.es self)
  ∧ length (initial_lower_boundary (R1ES.core self)) = d
  ∧ length (initial_upper_boundary (R1ES.core self)) = d
  ∧ ∀ m, ES.mean (R1ES.es self) = Some m → length m = d.

(** The local variables as [initialize] and the turns of the loop leave
    them: [initialize] has set its two attributes, [x] has a row of the
    dimension of the problem and [y] a value for every offspring, and
    [mean] and [p] are of that dimension. *)
Definition sized (l : R1ES.locals F G) : Prop :=
  runnable (R1ES.l_self l)
  ∧ is_Some (R1ES._p_2 (R1ES.l_self l))
  ∧ R1ES._rr (R1ES.l_self l)
    = Some (S <$> seq 0 (ES.n_parents (R1ES.es (R1ES.l_self l)) * 2))
  ∧ length (R1ES.l_x l) = ES.n_individuals (R1ES.es (R1ES.l_self l))
  ∧ length (R1ES.l_y l) = ES.n_individuals (R1ES.es (R1ES.l_self l))
  ∧ conformable (ndim_problem (R1ES.core (R1ES.l_self l)))
      (R1ES.l_x l) (R1ES.l_mean l) (R1ES.l_p l).

(** The attributes as [__init__] and [initialize] set them from [c] and
    [_mu_eff]. *)
Definition initialized (self : R1ES.R1ES F G) : Prop :=
  R1ES._p_1 self = fsub (fconst 1.0) (R1ES.c self)
  ∧ R1ES._p_2 self
    = Some (fsqrt (fmul (fmul (R1ES.c self) (fsub (fconst 2.0) (R1ES.c self)))
                     (ES._mu_eff (R1ES.es self))))
  ∧ R1ES._rr self = Some (S <$> seq 0 (ES.n_parents (R1ES.es self) * 2)).

(** [w[0]*rows[0] + w[1]*rows[1] + ...], summed from [np.zeros((ndim,))]
    in this order. *)
Definition weighted_sum (ndim : nat) (w : list F) (rows : list (list F))
    : list F :=
  foldl (λ acc wr, vadd acc (vscale wr.1 wr.2)) (np_zeros ndim) (zip w rows).

(** [np.argsort] returns a permutation of the indices of its argument. *)
Definition argsort_permutes : Prop :=
  ∀ l : list F, np_argsort l ≡ₚ seq 0 (length l).

(** *** FEP *)

(** The arrays of the parents are other arrays than those of the
    offspring. *)
Definition separate (a : FEP.population) : Prop :=
  FEP.x a ≠ FEP.offspring_x a ∧ FEP.x a ≠ FEP.offspring_sigmas a
  ∧ FEP.sigmas a ≠ FEP.offspring_x a
  ∧ FEP.sigmas a ≠ FEP.offspring_sigmas a
  ∧ FEP.y a ≠ FEP.offspring_y a.

(** A 2-d array with at least [n] rows of at least [d] columns. *)
Definition rows_ok (n d : nat) (m : list (list F)) : Prop :=
  n ≤ length m ∧ ∀ i row, i < n → m !! i = Some row → d ≤ length row.

(** The store holds the six arrays of [a], with room for [n] individuals
    of dimension [d] in the four 2-d arrays and in [offspring_y]. *)
Definition shaped (h : FEP.store F) (a : FEP.population) (n d : nat) : Prop :=
  (∀ r, r ∈ [FEP.x a; FEP.sigmas a; FEP.offspring_x a; FEP.offspring_sigmas a] →
        ∃ m, FEP.mats h !! r = Some m ∧ rows_ok n d m)
  ∧ (∃ u, FEP.vecs h !! FEP.offspring_y a = Some u ∧ n ≤ length u)
  ∧ is_Some (FEP.vecs h !! FEP.y a).

(** The arrays of the parents are the same in two stores. *)
Definition same_parents (a : FEP.population) (h h' : FEP.store F) : Prop :=
  FEP.mats h' !! FEP.x a = FEP.mats h !! FEP.x a
  ∧ FEP.mats h' !! FEP.sigmas a = FEP.mats h !! FEP.sigmas a
  ∧ FEP.vecs h' !! FEP.y a = FEP.vecs h !! FEP.y a.

(** *** FEP: a complete generation *)

(** The six parameters are six arrays. *)
Definition distinct (a : FEP.population) : Prop :=
  FEP.x a ≠ FEP.sigmas a
  ∧ FEP.x a ≠ FEP.offspring_x a ∧ FEP.x a ≠ FEP.offspring_sigmas a
  ∧ FEP.sigmas a ≠ FEP.offspring_x a
  ∧ FEP.sigmas a ≠ FEP.offspring_sigmas a
  ∧ FEP.offspring_x a ≠ FEP.offspring_sigmas a
  ∧ FEP.y a ≠ FEP.offspring_y a.

(** A 2-d array of [n] rows and [d] columns. *)
Definition matrix (n d : nat) (m : list (list F)) : Prop :=
  length m = n ∧ ∀ i row, m !! i = Some row → length row = d.

(** The store holds the six arrays of [a], for [n] individuals of
    dimension [d]. *)
Definition populated (h : FEP.store F) (a : FEP.population) (n d : nat) : Prop :=
  (∀ r, r ∈ [FEP.x a; FEP.sigmas a; FEP.offspring_x a; FEP.offspring_sigmas a] →
        ∃ m, FEP.mats h !! r = Some m ∧ matrix n d m)
  ∧ (∀ r, r ∈ [FEP.y a; FEP.offspring_y a] →
          ∃ u, FEP.vecs h !! r = Some u ∧ length u = n).

(** [u[i]] on a 1-d array. *)
Definition get1 (h : FEP.store F) (r i : nat) : option F :=
  u ← FEP.vecs h !! r; u !! i.

(** Individual [i] of the population in the arrays [rx], [rs] and [ry]:
    its point, its step-sizes and its fitness. *)
Definition individual (h : FEP.store F) (rx rs ry i : nat)
    : option (list F * list F * F) :=
  row ← FEP.get_row h rx i;
  s ← FEP.get_row h rs i;
  v ← get1 h ry i;
  Some (row, s, v).

Definition parent (h : FEP.store F) (a : FEP.population) (i : nat) :=
  individual h (FEP.x a) (FEP.sigmas a) (FEP.y a) i.

Definition child (h : FEP.store F) (a : FEP.population) (i : nat) :=
  individual h (FEP.offspring_x a) (FEP.offspring_sigmas a)
    (FEP.offspring_y a) i.

(** Each of the first [n] individuals carries the value of [f] at its
    point. *)
Definition attached (f : list F → F)
    (population : nat → option (list F * list F * F)) (n : nat) : Prop :=
  ∀ i, i < n → ∃ row s, population i = Some (row, s, f row).

(** The generator after the three draws of one coordinate: one Cauchy
    and two normal samples. *)
Definition after_mutation (g : G) : G :=
  (standard_normal (standard_normal (standard_cauchy g).2).2).2.

(** The mutated coordinate [x + sigma*n_j], [n_j] the Cauchy sample
    drawn from [g]. *)
Definition mutated_point (x_ij s_ij : F) (g : G) : F :=
  fadd x_ij (fmul s_ij (standard_cauchy g).1).

(** The mutated step-size [sigma*exp(tau'*n1 + tau*n2)], [n1] and [n2]
    the two normal samples drawn after the Cauchy sample. *)
Definition mutated_step (self : FEP.FEP F G) (s_ij : F) (g : G) : F :=
  let g1 := (standard_cauchy g).2 in
  let n1 := (standard_normal g1).1 in
  let n2 := (standard_normal (standard_normal g1).2).1 in
  fmul s_ij (fexp (fadd (fmul (FEP.tau_apostrophe self) n1)
                        (fmul (FEP.tau self) n2))).

(** [choice(a, size)] draws from [arange(a)]. *)
Definition lawful_choice : Prop :=
  ∀ (a size : nat) (g : G),
    0 < a → Forall (λ j, j < a) (choice a size g).1.

End Vocabulary.

(** ** A small executable instance

    Integers stand in for float64 and a counter for the generator state, so
    that the definitions above run inside Rocq on concrete inputs. *)

Module Demo.

(** Indices of [l] in ascending order of the values, ties by position. *)
Fixpoint insert_by (v : Z) (i : nat) (acc : list (Z * nat)) : list (Z * nat) :=
  match acc with
  | [] => [(v, i)]
  | (w, j) :: acc' =>
      if (v <? w)%Z then (v, i) :: acc else (w, j) :: insert_by v i acc'
  end.

Definition sort_indexed (l : list Z) : list (Z * nat) :=
  foldr (λ vi acc, insert_by vi.1 vi.2 acc) [] (zip l (seq 0 (length l))).

#[export] Instance Z_numeric : Numeric Z := {|
  fadd := Z.add;
  fsub := Z.sub;
  fmul := Z.mul;
  fdiv := Z.div;
  fsqrt := Z.sqrt;
  fexp := Z.pow 2;
  fltb := Z.ltb;
  fleb := Z.leb;
  fconst := Qfloor;
  np_dot := λ u v, foldr Z.add 0%Z (zip_with Z.mul u v);
  np_argsort := λ l, snd <$> sort_indexed l;
  np_sort := λ l, fst <$> sort_indexed l;
  np_empty := λ rows columns, replicate rows (replicate columns 0%Z);
|}.

(** The generator state is the number of draws so far; the samples are
    small integers around zero. *)
Definition sample (g : nat) : Z := (Z.of_nat (g * 7 mod 5) - 2)%Z.

#[export] Instance counter_source : RandomSource Z nat := {|
  standard_normal := λ g, (sample g, S g);
  standard_normal_n := λ n g, (sample <$> seq g n, g + n);
  standard_cauchy := λ g, (sample g, S g);
  uniform := λ low high g,
    (zip_with (λ a b, ((a + b) / 2 + sample g)%Z) low high, S g);
  choice := λ a size g, ((λ i, (g + i) mod a) <$> seq 0 size, S g);
|}.

(** The sphere function. *)
Definition sphere (x : list Z) : Z := foldr Z.add 0%Z ((λ v, v * v)%Z <$> x).

(** A two-dimensional problem on [-5, 5]^2 with a budget of
    [max_evaluations] evaluations and of [max_time] time units. *)
Definition problem (max_evaluations max_time : option nat) : Core.Optimizer Z nat :=
  {| Core.fitness_function := sphere;
     Core.ndim_problem := 2;
     Core.initial_lower_boundary := [-5; -5]%Z;
     Core.initial_upper_boundary := [5; 5]%Z;
     Core.max_function_evaluations := max_evaluations;
     Core.max_runtime := max_time;
     Core.rng_initialization := 0;
     Core.rng_optimization := 0;
     Core.n_function_evaluations := 0;
     Core.best_so_far_x := [];
     Core.best_so_far_y := 1000000%Z;
     Core.ticks := 0;
     Core.trace := [] |}.

(** An evolution strategy with four offspring and two parents on it; it
    restarts when its step-size, which starts as 2, is below
    [threshold]. *)
Definition strategy_with (threshold : Z) (max_evaluations max_time : option nat)
    : ES.ES Z nat :=
  {| ES.base := problem max_evaluations max_time;
     ES.n_individuals := 4;
     ES.n_parents := 2;
     ES.mean := Some [3; 3]%Z;
     ES.sigma := 2%Z;
     ES._w := [2; 1]%Z;
     ES._mu_eff := 2%Z;
     ES._n_generations := 0;
     ES.n_restart := 0;
     ES.is_restart := true;
     ES.sigma_threshold := threshold;
     ES.stagnation := 32;
     ES.fitness_diff := 0%Z;
     ES._sigma_bak := 2%Z;
     ES._fitness_list := [];
     ES.saving_fitness := true |}.

Definition strategy : option nat → option nat → ES.ES Z nat := strategy_with 1.

Definition r1es (max_evaluations max_time : option nat) : R1ES.R1ES Z nat :=
  R1ES.__init__ (strategy max_evaluations max_time) ∅.

(** The same with a threshold above the step-size: it restarts after
    every generation. *)
Definition restless (max_evaluations max_time : option nat) : R1ES.R1ES Z nat :=
  R1ES.__init__ (strategy_with 3 max_evaluations max_time) ∅.

(** A clock that shows the number of its readings so far, one that runs
    twice as fast, and one that has stopped at zero. *)
Definition steady_clock (i : nat) : nat := i.
Definition fast_clock (i : nat) : nat := 2 * i.
Definition frozen_clock (i : nat) : nat := 0.

(** The [n_function_evaluations] of the results of a run that returned. *)
Definition returned_evaluations (r : outcome (R1ES.results Z)) : option nat :=
  match r with
  | Returns res => Some (ES.r_n_function_evaluations (R1ES.collected res))
  | Raises | OutOfFuel => None
  end.

(** Evolutionary programming with two individuals on the same problem,
    and a store with its six arrays: the 2-d arrays [x], [sigmas],
    [offspring_x], [offspring_sigmas] at 0 to 3, the 1-d arrays [y] and
    [offspring_y] at 0 and 1. *)
Definition fep (max_evaluations max_time : option nat) : FEP.FEP Z nat :=
  {| FEP.base := problem max_evaluations max_time;
     FEP.n_individuals := 2;
     FEP.q := 2;
     FEP.tau := 1%Z;
     FEP.tau_apostrophe := 1%Z |}.

Definition arrays : FEP.population :=
  {| FEP.x := 0; FEP.sigmas := 1; FEP.y := 0;
     FEP.offspring_x := 2; FEP.offspring_sigmas := 3; FEP.offspring_y := 1 |}.

(** The same arrays with the array of the parents passed as
    [offspring_x] too. *)
Definition aliased : FEP.population :=
  {| FEP.x := 0; FEP.sigmas := 1; FEP.y := 0;
     FEP.offspring_x := 0; FEP.offspring_sigmas := 3; FEP.offspring_y := 1 |}.

Definition memory : FEP.store Z :=
  {| FEP.mats := {[ 0 := [[1; 2]; [3; 4]]%Z; 1 := [[1; 1]; [1; 1]]%Z;
                     2 := [[0; 0]; [0; 0]]%Z; 3 := [[0; 0]; [0; 0]]%Z ]};
     FEP.vecs := {[ 0 := [5; 25]%Z; 1 := [0; 0]%Z ]} |}.

End Demo.

(** * Properties

    ** Arrays *)

Section Arrays.
Context {F : Type} `{Numeric F}.
Implicit Types (u v w row : list F).

Lemma broadcast_same {A B C : Type} (f : A → B → C) (a : list A) (b : list B) :
  length a = length b → broadcast f a b = zip_with f a b.
Proof. intros. unfold broadcast. by rewrite decide_True. Qed.

Lemma length_vscale (a : F) v : length (vscale a v) = length v.
Proof. apply length_map. Qed.

Lemma length_vdivs v (a : F) : length (vdivs v a) = length v.
Proof. apply length_map. Qed.

Lemma length_vadd u v : length u = length v → length (vadd u v) = length u.
Proof.
  intros Hl. unfold vadd. rewrite broadcast_same by done.
  rewrite length_zip_with. lia.
Qed.

Lemma length_vsub u v : length u = length v → length (vsub u v) = length u.
Proof.
  intros Hl. unfold vsub. rewrite broadcast_same by done.
  rewrite length_zip_with. lia.
Qed.

Lemma np_add_same u v : length u = length v → np_add u v = Some (vadd u v).
Proof. intros. unfold np_add, broadcastable. rewrite decide_True; auto. Qed.

Lemma np_sub_same u v : length u = length v → np_sub u v = Some (vsub u v).
Proof. intros. unfold np_sub, broadcastable. rewrite decide_True; auto. Qed.

Lemma np_iadd_same u v : length v = length u → np_iadd u v = Some (vadd u v).
Proof. intros. unfold np_iadd. rewrite decide_True; auto. Qed.

Lemma np_assign_same row v : length v = length row → np_assign row v = Some v.
Proof. intros. unfold np_assign. by rewrite decide_True. Qed.

Lemma dot_same u v : length u = length v → dot u v = Some (np_dot u v).
Proof. intros. unfold dot. by rewrite decide_True. Qed.

Lemma np_add_Some u v w : np_add u v = Some w → w = vadd u v.
Proof. unfold np_add. case_decide; congruence. Qed.

Lemma np_sub_Some u v w : np_sub u v = Some w → w = vsub u v.
Proof. unfold np_sub. case_decide; congruence. Qed.

Lemma np_iadd_Some u v w : np_iadd u v = Some w → w = vadd u v.
Proof. unfold np_iadd. case_decide; congruence. Qed.

Lemma dot_Some u v (a : F) :
  dot u v = Some a → length u = length v ∧ a = np_dot u v.
Proof. unfold dot. case_decide; [|done]. intros [= <-]. done. Qed.

Lemma length_np_assign row v w : np_assign row v = Some w → length w = length row.
Proof.
  unfold np_assign. case_decide as Hl; [by intros [= <-]|].
  destruct v as [|b [|b' v]]; intros [= <-]. apply length_replicate.
Qed.

Lemma length_np_iadd u v w : np_iadd u v = Some w → length w = length u.
Proof.
  unfold np_iadd. case_decide as Hl; [|done]. intros [= <-].
  unfold vadd, broadcast. case_decide as Heq.
  { rewrite length_zip_with. lia. }
  destruct Hl as [Hl|Hl]; [congruence|].
  destruct v as [|b [|b' v]]; try done.
  destruct u as [|a [|a' u]]; try done; cbn; by rewrite ?length_map.
Qed.

End Arrays.

(** ** Loops *)


Section Loops.
Context {S : Type}.
Implicit Types (body : nat → S → option (flow S)) (ks : list nat) (s : S).

Lemma for_each_app body ks1 ks2 s :
  for_each body (ks1 ++ ks2) s
  = match for_each body ks1 s with
    | Some (Next s1) => for_each body ks2 s1
    | r => r
    end.
Proof.
  revert s. induction ks1 as [|k ks1 IH]; intros s; simpl; [done|].
  destruct (body k s) as [[s1|s1]|]; auto.
Qed.

(** The invariant rule: [I] holds between iterations, [Q] after a
    [return]. *)
Lemma for_each_rule (I Q : S → Prop) body ks s r :
  (∀ k s r, k ∈ ks → I s → body k s = Some r →
            match r with Next s' => I s' | Return s' => Q s' end) →
  I s → for_each body ks s = Some r →
  match r with Next s' => I s' | Return s' => Q s' end.
Proof.
  intros Hbody. revert s. induction ks as [|k ks IH]; intros s Hs Hr; simpl in Hr.
  - by simplify_eq.
  - destruct (body k s) as [[s1|s1]|] eqn:Hk; simplify_eq.
    + apply (IH (λ k' s' r' Hin, Hbody k' s' r' (list_elem_of_further _ _ _ Hin)) s1); [|done].
      apply (Hbody k s (Next s1)); [left|done|done].
    + apply (Hbody k s (Return s1)); [left|done|done].
Qed.

Lemma for_each_invariant (I : S → Prop) body ks s r :
  (∀ k s r, k ∈ ks → I s → body k s = Some r → I (flow_state r)) →
  I s → for_each body ks s = Some r → I (flow_state r).
Proof.
  intros Hbody Hs Hr.
  pose proof (for_each_rule I I body ks s r) as Hrule.
  destruct r; simpl; apply Hrule; try done;
    intros k s' r' Hin Hs' Hr'; specialize (Hbody k s' r' Hin Hs' Hr');
    by destruct r'.
Qed.

(** Two bodies that agree wherever [I] holds run the same loop. *)
Lemma for_each_ext (I : S → Prop) body1 body2 ks s :
  (∀ k s, I s → body1 k s = body2 k s) →
  (∀ k s s', I s → body1 k s = Some (Next s') → I s') →
  I s → for_each body1 ks s = for_each body2 ks s.
Proof.
  intros Heq Hinv. revert s. induction ks as [|k ks IH]; intros s Hs; simpl; [done|].
  rewrite <- (Heq k s Hs).
  destruct (body1 k s) as [[s1|s1]|] eqn:Hk; eauto.
Qed.

(** A loop that returned did so in one of its iterations, after the
    earlier ones had completed. *)
Lemma for_each_return body ks s s' :
  for_each body ks s = Some (Return s') →
  ∃ ks1 k ks2 s1, ks = ks1 ++ k :: ks2
    ∧ for_each body ks1 s = Some (Next s1) ∧ body k s1 = Some (Return s').
Proof.
  revert s. induction ks as [|k ks IH]; intros s Hr; simpl in Hr; [done|].
  destruct (body k s) as [[s1|s1]|] eqn:Hk; simplify_eq.
  - destruct (IH _ Hr) as (ks1 & k' & ks2 & s2 & -> & H1 & H2).
    exists (k :: ks1), k', ks2, s2. simpl. rewrite Hk. done.
  - exists [], k, ks, s. done.
Qed.
(** A loop whose body runs to its end under [I] runs to its end. *)
Lemma for_each_runs (I : S → Prop) body ks s :
  I s →
  (∀ k s, k ∈ ks → I s → ∃ s', body k s = Some (Next s') ∧ I s') →
  ∃ s', for_each body ks s = Some (Next s') ∧ I s'.
Proof.
  revert s. induction ks as [|k ks IH]; intros s Hs Hbody; cbn.
  { eauto. }
  destruct (Hbody k s) as (s1 & -> & Hs1); [left|done|].
  apply IH; [done|]. intros k' s' Hin. apply Hbody. by right.
Qed.

(** A loop whose body does not raise under [I] does not raise. *)
Lemma for_each_total (I : S → Prop) body ks s :
  I s →
  (∀ k s, k ∈ ks → I s → ∃ r, body k s = Some r ∧ I (flow_state r)) →
  ∃ r, for_each body ks s = Some r ∧ I (flow_state r).
Proof.
  revert s. induction ks as [|k ks IH]; intros s Hs Hbody; cbn.
  { exists (Next s). done. }
  destruct (Hbody k s) as ([s1|s1] & -> & Hs1); [left|done|..].
  - apply IH; [done|]. intros k' s' Hin. apply Hbody. by right.
  - eauto.
Qed.

End Loops.

(** ** The core *)

Section Core_facts.
Context {F G : Type} `{Numeric F} `{RandomSource F G}.
Import Core.
Implicit Types (o : Optimizer F G) (clock : nat → nat).

Lemma reached_mono (a b : nat) (limit : option nat) :
  a ≤ b → reached a limit = true → reached b limit = true.
Proof.
  destruct limit as [m|]; simpl; [|done].
  rewrite !bool_decide_eq_true. lia.
Qed.

Lemma reached_false (a m : nat) : reached a (Some m) = false → a < m.
Proof. simpl. rewrite bool_decide_eq_false. lia. Qed.

Lemma _check_terminations_answer clock o :
  (_check_terminations clock o).1
  = exhausted clock o (n_function_evaluations o) (ticks o).
Proof. reflexivity. Qed.

(** What an action leaves alone, and the direction in which it moves the
    rest. *)
Lemma action_effect clock o o' :
  action clock o o' →
  max_function_evaluations o' = max_function_evaluations o
  ∧ max_runtime o' = max_runtime o
  ∧ fitness_function o' = fitness_function o
  ∧ ndim_problem o' = ndim_problem o
  ∧ initial_lower_boundary o' = initial_lower_boundary o
  ∧ initial_upper_boundary o' = initial_upper_boundary o
  ∧ n_function_evaluations o ≤ n_function_evaluations o'
  ∧ ticks o ≤ ticks o'
  ∧ not_above (best_so_far_y o') (best_so_far_y o).
Proof.
  unfold not_above.
  destruct 1; simpl; repeat split; try lia; auto.
  destruct (fltb _ _) eqn:E; auto.
Qed.

Lemma actions_effect clock o o' :
  (∀ a b c : F, fltb a b = true → fltb b c = true → fltb a c = true) →
  rtc (action clock) o o' →
  max_function_evaluations o' = max_function_evaluations o
  ∧ max_runtime o' = max_runtime o
  ∧ fitness_function o' = fitness_function o
  ∧ ndim_problem o' = ndim_problem o
  ∧ initial_lower_boundary o' = initial_lower_boundary o
  ∧ initial_upper_boundary o' = initial_upper_boundary o
  ∧ n_function_evaluations o ≤ n_function_evaluations o'
  ∧ ticks o ≤ ticks o'
  ∧ not_above (best_so_far_y o') (best_so_far_y o).
Proof.
  intros Htrans. induction 1 as [o|o o1 o' H1 _ IH].
  - unfold not_above. repeat split; auto.
  - apply action_effect in H1.
    destruct H1 as (? & ? & ? & ? & ? & ? & ? & ? & Hb1).
    destruct IH as (? & ? & ? & ? & ? & ? & ? & ? & Hb).
    repeat split; try congruence; try lia.
    unfold not_above in *.
    destruct Hb as [Hb|Hb], Hb1 as [Hb1|Hb1].
    + left. congruence.
    + right. by rewrite Hb.
    + right. by rewrite <- Hb1.
    + right. eauto.
Qed.

(** The same without the value of the best point, which needs no
    assumption on the order of the floats. *)
Lemma actions_frame clock o o' :
  rtc (action clock) o o' →
  max_function_evaluations o' = max_function_evaluations o
  ∧ max_runtime o' = max_runtime o
  ∧ fitness_function o' = fitness_function o
  ∧ ndim_problem o' = ndim_problem o
  ∧ initial_lower_boundary o' = initial_lower_boundary o
  ∧ initial_upper_boundary o' = initial_upper_boundary o
  ∧ n_function_evaluations o ≤ n_function_evaluations o'
  ∧ ticks o ≤ ticks o'.
Proof.
  induction 1 as [o|o o1 o' H1 _ IH].
  - repeat split; auto.
  - apply action_effect in H1.
    destruct H1 as (? & ? & ? & ? & ? & ? & ? & ? & _).
    destruct IH as (? & ? & ? & ? & ? & ? & ? & ?).
    repeat split; try congruence; lia.
Qed.

Lemma spent_actions clock o o' :
  rtc (action clock) o o' → spent clock o → spent clock o'.
Proof.
  intros Hact. apply actions_frame in Hact.
  destruct Hact as (Hm & Hr & _ & _ & _ & _ & Hn & Ht).
  unfold spent. rewrite Hm, Hr. intros [Hs|(t & Hlt & Hs)].
  - left. eapply reached_mono; eauto.
  - right. exists t. split; [lia|done].
Qed.

(** Once the budget is spent, every later poll answers true, if the clock
    does not run backwards. *)
Lemma spent_exhausted clock o :
  (∀ i j, i ≤ j → clock i ≤ clock j) →
  spent clock o →
  exhausted clock o (n_function_evaluations o) (ticks o) = true.
Proof.
  intros Hclock [Hs|(t & Hlt & Hs)]; unfold exhausted.
  - by rewrite Hs.
  - rewrite (reached_mono (clock t) (clock (ticks o)) _); [|apply Hclock; lia|done].
    apply orb_true_r.
Qed.

Lemma exhausted_spent clock o :
  exhausted clock o (n_function_evaluations o) (ticks o) = true →
  spent clock (_check_terminations clock o).2.
Proof.
  unfold exhausted, spent. simpl. intros [Hs|Hs]%orb_true_iff; [by left|].
  right. exists (ticks o). split; [lia|done].
Qed.

(** *** Logs *)

Lemma evaluations_app (t1 t2 : list (event F)) :
  evaluations (t1 ++ t2) = evaluations t1 ++ evaluations t2.
Proof. apply omap_app. Qed.

Lemma evaluations_polled_evaluations (cs : list (list F)) :
  evaluations (polled_evaluations cs) = cs.
Proof.
  induction cs as [|c cs IH]; [done|].
  change (polled_evaluations (c :: cs))
    with ([Polled false; Evaluated c] ++ polled_evaluations cs).
  rewrite evaluations_app, IH. done.
Qed.

Lemma clean_app (t1 t2 : list (event F)) :
  clean (t1 ++ t2) ↔ clean t1 ∧ clean t2.
Proof. unfold clean. rewrite elem_of_app. tauto. Qed.

Lemma clean_polled_evaluations (cs : list (list F)) :
  clean (polled_evaluations cs).
Proof.
  unfold clean, polled_evaluations. rewrite list_elem_of_bind.
  intros (c & Hin & _).
  apply elem_of_cons in Hin as [?|Hin]; [done|].
  by apply list_elem_of_singleton in Hin.
Qed.

(** A log made of a clean part and a part without evaluations is quiet. *)
Lemma clean_then_silent_quiet (t1 t2 : list (event F)) :
  clean t1 → evaluations t2 = [] → quiet (t1 ++ t2).
Proof.
  intros Hclean Hsilent u1 u2 Heq.
  assert (Hsplit : ∃ v, t2 = v ++ u2).
  { revert u1 Heq. induction t1 as [|e t1 IH]; intros u1 Heq.
    - exists (u1 ++ [Polled true]). rewrite <- app_assoc. done.
    - destruct u1 as [|e' u1]; simplify_eq/=.
      + exfalso. apply Hclean. left.
      + apply (IH (λ Hin, Hclean (list_elem_of_further _ _ _ Hin)) u1). done. }
  destruct Hsplit as [v ->].
  rewrite evaluations_app in Hsilent. by apply app_eq_nil in Hsilent as [_ ?].
Qed.

Lemma clean_quiet (t : list (event F)) : clean t → quiet t.
Proof.
  intros Hclean. rewrite <- (app_nil_r t). by apply clean_then_silent_quiet.
Qed.

End Core_facts.

(** ** R1ES: the sampling loop *)

Section R1ES_iterate.
Context {F G : Type} `{Numeric F} `{RandomSource F G}.
Import Core.
Variable clock : nat → nat.
Implicit Types (self : R1ES.R1ES F G) (x : list (list F)) (y mean p : list F).

Lemma set_item_Some {A : Type} (a a' : list A) (k : nat) (v : A) :
  set_item a k v = Some a' ↔ k < length a ∧ a' = <[k := v]> a.
Proof.
  unfold set_item. case_decide; split; intros Hs; simplify_eq; auto.
  - by destruct Hs as [_ ->].
  - by destruct Hs.
Qed.

Lemma set_item_lt {A : Type} (a : list A) (k : nat) (v : A) :
  k < length a → set_item a k v = Some (<[k := v]> a).
Proof. intros. unfold set_item. by rewrite decide_True. Qed.

Lemma set_item_ge {A : Type} (a : list A) (k : nat) (v : A) :
  ¬ k < length a → set_item a k v = None.
Proof. intros. unfold set_item. by rewrite decide_False. Qed.

(** One iteration of the loop of [iterate]: it returns when the poll
    answers true; otherwise it writes the point and its value into row
    [k], or raises when the shapes do not agree or there is no such
    row. *)
Lemma offspring_unfold mean p k self x y :
  let o := R1ES.core self in
  R1ES.offspring clock mean p k (self, x, y)
  = if exhausted clock o (n_function_evaluations o) (ticks o) then
      Some (Return (R1ES.with_core (λ o, (_check_terminations clock o).2) self, x, y))
    else match x !! k ≫= stored_point self mean p (rng_optimization o) with
         | Some c =>
             if decide (k < length y) then
               Some (Next (R1ES.with_core (λ o, after_offspring clock o c) self,
                           <[k := c]> x, <[k := fitness_function o c]> y))
             else None
         | None => None
         end.
Proof.
  unfold R1ES.offspring, stored_point, after_offspring, next_generator,
    samples, exhausted.
  cbn [_check_terminations fst snd].
  destruct (reached _ _ || reached _ _) eqn:Hstop; cbn zeta.
  { unfold R1ES.with_core, R1ES.with_es, ES.with_base.
    cbn. fold (R1ES.core self). by rewrite Hstop. }
  change (ndim_problem (R1ES.core (R1ES.with_core _ self)))
    with (ndim_problem (R1ES.core self)).
  change (rng_optimization (R1ES.core (R1ES.with_core _ self)))
    with (rng_optimization (R1ES.core self)).
  destruct (standard_normal_n _ _) as [z g] eqn:Hz. cbn [fst snd].
  destruct (standard_normal g) as [r0 g0] eqn:Hr0. cbn [fst snd].
  assert (Hsigma : ∀ f f' : Optimizer F G → Optimizer F G,
            ES.sigma (R1ES.es (R1ES.with_core f (R1ES.with_core f' self)))
            = ES.sigma (R1ES.es self)) by reflexivity.
  assert (Hx1 : ∀ f f' : Optimizer F G → Optimizer F G,
            R1ES._x_1 (R1ES.with_core f (R1ES.with_core f' self))
            = R1ES._x_1 self) by reflexivity.
  assert (Hx2 : ∀ f f' : Optimizer F G → Optimizer F G,
            R1ES._x_2 (R1ES.with_core f (R1ES.with_core f' self))
            = R1ES._x_2 self) by reflexivity.
  rewrite !Hsigma, !Hx1, !Hx2. clear Hsigma Hx1 Hx2.
  destruct (np_add (vscale _ z) _) as [direction|]; cbn [mbind option_bind];
    [|by destruct (x !! k); cbn].
  destruct (np_add mean _) as [candidate|]; cbn [mbind option_bind];
    [|by destruct (x !! k); cbn].
  destruct (x !! k) as [row|]; cbn [mbind option_bind]; [|done].
  destruct (np_assign row candidate) as [c|]; cbn [mbind option_bind]; [|done].
  destruct (decide (k < length y)) as [Hy|Hy]; cycle 1.
  { cbn. rewrite (set_item_ge y) by done. done. }
  cbn. rewrite (set_item_lt y) by done. cbn.
  unfold R1ES.with_core, R1ES.with_es, ES.with_base.
  cbn. fold (R1ES.core self). rewrite Hz. cbn. rewrite Hr0. cbn.
  by rewrite Hstop.
Qed.

Lemma with_core_with_core (f g : Optimizer F G → Optimizer F G) self :
  R1ES.with_core f (R1ES.with_core g self) = R1ES.with_core (f ∘ g) self.
Proof. reflexivity. Qed.

Lemma with_core_id self :
  R1ES.with_core (λ _, R1ES.core self) self = self.
Proof. by destruct self as [[]]. Qed.

Lemma stored_point_with_core (f : Optimizer F G → Optimizer F G) self mean p g row :
  ndim_problem (f (R1ES.core self)) = ndim_problem (R1ES.core self) →
  stored_point (R1ES.with_core f self) mean p g row
  = stored_point self mean p g row.
Proof.
  intros Hd. unfold stored_point.
  change (R1ES.core (R1ES.with_core f self)) with (f (R1ES.core self)).
  by rewrite Hd.
Qed.

Lemma stored_points_S self mean p g x a j c :
  let self' := R1ES.with_core (λ o, after_offspring clock o c) self in
  stored_points self mean p g x a (S j)
  = default [] (x !! a ≫= stored_point self mean p g)
    :: stored_points self' mean p
         (next_generator (ndim_problem (R1ES.core self)) g)
         (<[a := c]> x) (S a) j.
Proof.
  unfold stored_points. cbn [seq fmap list_fmap]. f_equal.
  { by rewrite Nat.add_0_r. }
  rewrite <- fmap_S_seq, <- list_fmap_compose.
  apply list_fmap_ext. intros _ i _.
  unfold compose, generator_after. rewrite Nat.iter_succ_r.
  rewrite list_lookup_insert_ne by lia.
  replace (S a + i) with (a + S i) by lia.
  destruct (x !! (a + S i)) as [row|]; [|done]. cbn [mbind option_bind].
  by rewrite stored_point_with_core.
Qed.

(** [j] iterations of the loop of [iterate] that ran to their end, from
    row [a] on: what they did to [self], [x] and [y]. *)
Lemma offspring_prefix mean p j : ∀ a self x y self' x' y',
  for_each (R1ES.offspring clock mean p) (seq a j) (self, x, y)
  = Some (Next (self', x', y')) →
  let o := R1ES.core self in
  let cs := stored_points self mean p (rng_optimization o) x a j in
  ∃ o', self' = R1ES.with_core (λ _, o') self
    ∧ rtc (action clock) o o'
    ∧ n_function_evaluations o' = n_function_evaluations o + j
    ∧ ticks o' = ticks o + j
    ∧ rng_optimization o'
      = generator_after (ndim_problem o) j (rng_optimization o)
    ∧ trace o' = trace o ++ polled_evaluations cs
    ∧ (∀ i, i < j →
         exhausted clock o (n_function_evaluations o + i) (ticks o + i) = false)
    ∧ (0 < j → a + j ≤ length x ∧ a + j ≤ length y)
    ∧ length x' = length x ∧ length y' = length y
    ∧ (∀ i, i < j → x' !! (a + i) = cs !! i
                    ∧ y' !! (a + i) = fitness_function o <$> cs !! i)
    ∧ (∀ k, k < a ∨ a + j ≤ k → x' !! k = x !! k ∧ y' !! k = y !! k).
Proof.
  induction j as [|j IH]; intros a self x y self' x' y' Hrun o cs.
  { cbn in Hrun. injection Hrun as <- <- <-. exists o. subst o cs.
    split_and!; try done; try lia.
    - by rewrite with_core_id.
    - by rewrite app_nil_r. }
  cbn [seq for_each] in Hrun. rewrite offspring_unfold in Hrun.
  fold o in Hrun.
  destruct (exhausted clock o _ _) eqn:Hstop; [done|].
  destruct (x !! a ≫= stored_point self mean p (rng_optimization o))
    as [c|] eqn:Hc; [|done].
  case_decide as Hky; [|done].
  assert (Hkx : a < length x).
  { apply lookup_lt_is_Some. by destruct (x !! a). }
  apply IH in Hrun as (o' & -> & Hact & Hn & Ht & Hg & Htr & Hpolls & Hlen
                       & Hlx & Hly & Hrows & Hrest).
  change (R1ES.core (R1ES.with_core _ self))
    with (after_offspring clock o c) in *.
  change (rng_optimization (after_offspring clock o c))
    with (next_generator (ndim_problem o) (rng_optimization o)) in *.
  exists o'. rewrite with_core_with_core.
  assert (Hstop' : reached (n_function_evaluations o) (max_function_evaluations o)
                   || reached (clock (ticks o)) (max_runtime o) = false)
    by exact Hstop.
  assert (Hcs : cs = c :: stored_points
                       (R1ES.with_core (λ o, after_offspring clock o c) self)
                       mean p (next_generator (ndim_problem o) (rng_optimization o))
                       (<[a := c]> x) (S a) j).
  { subst cs. rewrite (stored_points_S _ _ _ _ _ _ _ c). fold o.
    by rewrite Hc. }
  split_and!.
  - done.
  - eapply rtc_l; [apply action_poll|].
    eapply rtc_l; [apply action_rng_optimization|].
    eapply rtc_l; [apply action_evaluate|]. exact Hact.
  - rewrite Hn. cbn. lia.
  - rewrite Ht. cbn. lia.
  - rewrite Hg. unfold generator_after. by rewrite Nat.iter_succ_r.
  - rewrite Htr, Hcs.
    change (trace (after_offspring clock o c))
      with ((trace o ++ [Polled (exhausted clock o (n_function_evaluations o) (ticks o))])
            ++ [Evaluated c]).
    rewrite Hstop, <- !app_assoc. done.
  - intros [|i] Hi.
    + by rewrite !Nat.add_0_r.
    + specialize (Hpolls i ltac:(lia)). cbn in Hpolls.
      rewrite <- Hpolls. f_equal; lia.
  - intros _. rewrite length_insert in Hlen. rewrite length_insert in Hlen.
    destruct j; [lia|]. specialize (Hlen ltac:(lia)). lia.
  - rewrite Hlx. apply length_insert.
  - rewrite Hly. apply length_insert.
  - rewrite Hcs. intros [|i] Hi.
    + rewrite Nat.add_0_r. cbn [lookup list_lookup].
      destruct (Hrest a ltac:(lia)) as [-> ->].
      rewrite !list_lookup_insert_eq by done. done.
    + cbn [lookup list_lookup].
      replace (a + S i) with (S a + i) by lia.
      apply Hrows. lia.
  - intros k Hk. destruct (Hrest k ltac:(lia)) as [-> ->].
    rewrite !list_lookup_insert_ne by lia. done.
Qed.

(** On arrays of the shapes of the problem, the row that line 132 stores
    is its right-hand side. *)
Lemma stored_point_conformable self x mean p g row :
  lawful_normal →
  conformable (ndim_problem (R1ES.core self)) x mean p →
  length row = ndim_problem (R1ES.core self) →
  stored_point self mean p g row = Some (offspring_point self mean p g)
  ∧ length (offspring_point self mean p g) = ndim_problem (R1ES.core self).
Proof.
  intros Hnormal (Hmean & Hp & _) Hrow.
  unfold stored_point, offspring_point, samples.
  pose proof (Hnormal (ndim_problem (R1ES.core self)) g) as Hz.
  set (z := (standard_normal_n _ g).1) in *.
  set (r := (standard_normal _).1).
  assert (Hdir : length (vadd (vscale (R1ES._x_1 self) z)
                              (vscale (fmul (R1ES._x_2 self) r) p))
                 = ndim_problem (R1ES.core self)).
  { rewrite length_vadd; rewrite !length_vscale; congruence. }
  rewrite np_add_same by (rewrite !length_vscale; congruence).
  cbn [mbind option_bind].
  rewrite np_add_same by (rewrite length_vscale; congruence).
  cbn [mbind option_bind].
  assert (Hc : length (vadd mean (vscale (ES.sigma (R1ES.es self))
                 (vadd (vscale (R1ES._x_1 self) z)
                       (vscale (fmul (R1ES._x_2 self) r) p))))
               = ndim_problem (R1ES.core self)).
  { rewrite length_vadd; rewrite ?length_vscale; congruence. }
  split; [|done]. apply np_assign_same. congruence.
Qed.

Lemma conformable_insert d x mean p k c :
  conformable d x mean p → length c = d →
  conformable d (<[k := c]> x) mean p.
Proof.
  intros (Hmean & Hp & Hrows) Hc. split_and!; [done..|].
  intros i row Hi. destruct (decide (i = k)) as [Hik|Hne].
  - subst i. apply list_lookup_insert_Some in Hi as [(_ & Heq & _)|(? & _)];
      [by subst row|done].
  - rewrite list_lookup_insert_ne in Hi by done. eauto.
Qed.

(** The rows that a generation stores on arrays of the shapes of the
    problem. *)
Lemma stored_points_conformable self x mean p g a j :
  lawful_normal →
  conformable (ndim_problem (R1ES.core self)) x mean p →
  a + j ≤ length x →
  stored_points self mean p g x a j = offspring_points self mean p g j.
Proof.
  intros Hnormal Hshape Hlen. unfold stored_points, offspring_points.
  apply list_fmap_ext. intros i' i [Hi' Hi]%lookup_seq.
  cbn in Hi'. subst i'.
  destruct (lookup_lt_is_Some_2 x (a + i) ltac:(lia)) as [row Hrow].
  rewrite Hrow. cbn [mbind option_bind].
  destruct (stored_point_conformable self x mean p
              (generator_after (ndim_problem (R1ES.core self)) i g) row)
    as [-> _]; try done.
  destruct Hshape as (_ & _ & Hrows). eauto.
Qed.

Lemma seq_split (a n : nat) (ks1 ks2 : list nat) (k : nat) :
  seq a n = ks1 ++ k :: ks2 →
  ks1 = seq a (length ks1) ∧ k = a + length ks1 ∧ length ks1 < n.
Proof.
  revert a ks1. induction n as [|n IH]; intros a ks1 Heq; cbn in Heq.
  { by destruct ks1. }
  destruct ks1 as [|k1 ks1]; cbn in Heq.
  { injection Heq as <- _. cbn. split_and!; [done|lia|lia]. }
  injection Heq as <- Heq. apply IH in Heq as (Hks & -> & ?).
  cbn. rewrite <- Hks. split_and!; [done|lia|lia].
Qed.

(** A call of [iterate] is [j] complete iterations, followed by a poll
    that answers true unless all [n_individuals] rows are done. *)
Lemma iterate_inv self x mean p y self' x' y' :
  R1ES.iterate clock self x mean p y = Some (self', x', y') →
  ∃ j self1,
    j ≤ ES.n_individuals (R1ES.es self)
    ∧ for_each (R1ES.offspring clock mean p) (seq 0 j) (self, x, y)
      = Some (Next (self1, x', y'))
    ∧ (j = ES.n_individuals (R1ES.es self) ∧ self' = self1
       ∨ j < ES.n_individuals (R1ES.es self)
         ∧ exhausted clock (R1ES.core self1)
             (n_function_evaluations (R1ES.core self1))
             (ticks (R1ES.core self1)) = true
         ∧ self' = R1ES.with_core (λ o, (_check_terminations clock o).2) self1).
Proof.
  unfold R1ES.iterate. intros ([st|st] & Hrun & Hst)%fmap_Some;
    cbn in Hst; subst st.
  { exists (ES.n_individuals (R1ES.es self)), self'. eauto. }
  apply for_each_return in Hrun as (ks1 & k & ks2 & [[self1 x1] y1] & Hks & Hrun & Hk).
  apply seq_split in Hks as (Hks1 & -> & Hlt).
  rewrite Hks1 in Hrun. rewrite offspring_unfold in Hk.
  destruct (exhausted _ _ _ _) eqn:Hstop; [|by repeat case_match].
  injection Hk as <- <- <-.
  exists (length ks1), self1. split_and!; [lia|done|]. right. done.
Qed.

(** The iterations run to their end as long as the rows are there, the
    shapes are those of the problem and the polls answer false. *)
Lemma offspring_prefix_runs mean p j : ∀ a self x y,
  lawful_normal →
  conformable (ndim_problem (R1ES.core self)) x mean p →
  a + j ≤ length x → a + j ≤ length y →
  (∀ i, i < j →
     exhausted clock (R1ES.core self)
       (n_function_evaluations (R1ES.core self) + i)
       (ticks (R1ES.core self) + i) = false) →
  ∃ st, for_each (R1ES.offspring clock mean p) (seq a j) (self, x, y)
        = Some (Next st).
Proof.
  induction j as [|j IH]; intros a self x y Hnormal Hshape Hx Hy Hpolls.
  { by exists (self, x, y). }
  cbn [seq for_each]. rewrite offspring_unfold.
  pose proof (Hpolls 0 ltac:(lia)) as H0'. rewrite !Nat.add_0_r in H0'.
  rewrite H0'.
  destruct (lookup_lt_is_Some_2 x a ltac:(lia)) as [row Hrow].
  rewrite Hrow. cbn [mbind option_bind].
  destruct (stored_point_conformable self x mean p
              (rng_optimization (R1ES.core self)) row) as [-> Hc]; try done.
  { destruct Hshape as (_ & _ & Hrows). eauto. }
  rewrite decide_True by lia.
  apply IH; rewrite ?length_insert; try lia; try done.
  { by apply conformable_insert. }
  intros i Hi. specialize (Hpolls (S i) ltac:(lia)).
  rewrite <- Hpolls. unfold exhausted. cbn. fold (R1ES.core self).
  replace (n_function_evaluations (R1ES.core self) + 1 + i)
    with (n_function_evaluations (R1ES.core self) + S i) by lia.
  replace (S (ticks (R1ES.core self) + i))
    with (ticks (R1ES.core self) + S i) by lia.
  done.
Qed.

(** *** What [iterate] does to [self] *)

Lemma progresses_refl self : progresses clock self self.
Proof. by split. Qed.

Lemma progresses_trans self1 self2 self3 :
  progresses clock self1 self2 → progresses clock self2 self3 →
  progresses clock self1 self3.
Proof.
  intros [Hs1 Ha1] [Hs2 Ha2]. split; [congruence|by etrans].
Qed.

(** Replacing the attributes of the core by the outcome of actions. *)
Lemma progresses_with_core self o' :
  rtc (action clock) (R1ES.core self) o' →
  progresses clock self (R1ES.with_core (λ _, o') self).
Proof.
  intros Hact. split; [|done].
  apply actions_frame in Hact as (Hm & Hr & _ & Hd & Hl & Hu & _).
  unfold settings. cbn. fold (R1ES.core self).
  by rewrite Hm, Hr, Hd, Hl, Hu.
Qed.

Lemma progresses_action self (f : Optimizer F G → Optimizer F G) :
  (∀ o, action clock o (f o)) → progresses clock self (R1ES.with_core f self).
Proof.
  intros Hf. split; [|apply rtc_once, Hf].
  destruct (action_effect clock _ _ (Hf (R1ES.core self)))
    as (Hm & Hr & _ & Hd & Hl & Hu & _).
  unfold settings. cbn. fold (R1ES.core self).
  by rewrite Hm, Hr, Hd, Hl, Hu.
Qed.

Lemma iterate_progresses self x mean p y self' x' y' :
  R1ES.iterate clock self x mean p y = Some (self', x', y') →
  progresses clock self self'.
Proof.
  intros (j & self1 & _ & Hrun & Hend)%iterate_inv.
  apply offspring_prefix in Hrun as (o' & -> & Hact & _).
  destruct Hend as [[_ ->]|(_ & _ & ->)].
  - by apply progresses_with_core.
  - rewrite with_core_with_core. apply progresses_with_core.
    eapply rtc_r; [done|]. apply action_poll.
Qed.

End R1ES_iterate.

(** ** R1ES: the other methods *)

Section R1ES_methods.
Context {F G : Type} `{Numeric F} `{RandomSource F G}.
Import Core.
Variable clock : nat → nat.
Implicit Types (self : R1ES.R1ES F G) (l : R1ES.locals F G).

Lemma _initialize_mean_frame (e : ES.ES F G) (restart : bool) :
  ∃ g, (ES._initialize_mean e restart).2
       = ES.with_base (set_rng_initialization g) e.
Proof.
  unfold ES._initialize_mean.
  destruct restart, (ES.mean e); try destruct (uniform _ _ _) as [m g] eqn:E;
    cbn; eauto.
  exists (rng_initialization (ES.base e)). by destruct e as [[]].
Qed.

(** [initialize] in one piece: the mean comes from [_initialize_mean], and
    the only call of the fitness function is the one on it. *)
Lemma initialize_unfold self (is_restart : bool) :
  let mean := (ES._initialize_mean (R1ES.es self) is_restart).1 in
  ∃ g,
    R1ES.initialize self is_restart
    = (R1ES.with_core
         (λ o, (_evaluate_fitness (set_rng_initialization g o) mean).2)
         (R1ES.set__p_2__rr
            (fsqrt (fmul (fmul (R1ES.c self) (fsub (fconst 2.0) (R1ES.c self)))
                      (ES._mu_eff (R1ES.es self))))
            (S <$> seq 0 (ES.n_parents (R1ES.es self) * 2)) self),
       np_empty (ES.n_individuals (R1ES.es self)) (ndim_problem (R1ES.core self)),
       mean,
       np_zeros (ndim_problem (R1ES.core self)),
       fconst 0.0,
       replicate (ES.n_individuals (R1ES.es self))
         (fitness_function (R1ES.core self) mean)).
Proof.
  intros mean. subst mean. unfold R1ES.initialize.
  destruct (_initialize_mean_frame (R1ES.es self) is_restart) as [g Hg].
  exists g.
  change (R1ES.es (R1ES.set__p_2__rr _ _ self)) with (R1ES.es self).
  destruct (ES._initialize_mean (R1ES.es self) is_restart) as [mean e].
  cbn in Hg. subst e. reflexivity.
Qed.

Lemma initialize_progresses self (is_restart : bool) :
  progresses clock self (R1ES.initialize self is_restart).1.1.1.1.1.
Proof.
  destruct (initialize_unfold self is_restart) as [g ->]. cbn [fst].
  split; [reflexivity|].
  change (R1ES.core (R1ES.with_core _ _))
    with (_evaluate_fitness (set_rng_initialization g (R1ES.core self))
            (ES._initialize_mean (R1ES.es self) is_restart).1).2.
  eapply rtc_l; [apply (action_rng_initialization _ _ g)|].
  apply rtc_once, action_evaluate.
Qed.

Lemma _update_distribution_unfold self x mean p s y y_bak self' mean' p' s' y' :
  R1ES._update_distribution self x mean p s y y_bak = Some (self', mean', p', s', y') →
  y' = np_sort y
  ∧ self' = R1ES.with_es
              (ES.set_sigma
                 (fmul (ES.sigma (R1ES.es self))
                    (fexp (fdiv s' (R1ES.d_sigma self))))) self.
Proof.
  unfold R1ES._update_distribution. intros Hu.
  apply bind_Some in Hu as (mean_w & _ & Hu).
  apply bind_Some in Hu as (p2 & _ & Hu).
  apply bind_Some in Hu as (step & _ & Hu).
  apply bind_Some in Hu as (p1 & _ & Hu).
  apply bind_Some in Hu as (rr & _ & Hu).
  apply bind_Some in Hu as (product & _ & Hu).
  by simplify_eq.
Qed.

Lemma _update_distribution_progresses self x mean p s y y_bak self' mean' p' s' y' :
  R1ES._update_distribution self x mean p s y y_bak = Some (self', mean', p', s', y') →
  progresses clock self self'.
Proof.
  intros Hu. apply _update_distribution_unfold in Hu as [_ ->]. by split.
Qed.

(** [ES.restart_reinitialize] touches neither the core nor the settings. *)
Lemma ES_restart_reinitialize_progresses self :
  progresses clock self
    (R1ES.with_es (λ e, (ES.restart_reinitialize e).2) self).
Proof.
  unfold progresses, settings, R1ES.core, R1ES.with_es, ES.restart_reinitialize.
  cbn. case_match; by split.
Qed.

(** The restart that fires: the controller's reset, [initialize] with
    [is_restart=True], the doubling of [d_sigma]. *)
Lemma restart_reinitialize_fired l l' :
  R1ES.restart_reinitialize l = Some l' →
  (ES.restart_reinitialize (R1ES.es (R1ES.l_self l))).1 = true →
  let self0 := R1ES.with_es (λ e, (ES.restart_reinitialize e).2) (R1ES.l_self l) in
  let init := R1ES.initialize self0 true in
  R1ES.l_self l' = R1ES.set_d_sigma
                     (fmul (R1ES.d_sigma (R1ES.l_self l)) (fconst 2.0))
                     init.1.1.1.1.1
  ∧ R1ES.l_x l' = init.1.1.1.1.2
  ∧ R1ES.l_mean l' = init.1.1.1.2
  ∧ R1ES.l_p l' = init.1.1.2
  ∧ R1ES.l_s l' = init.1.2
  ∧ R1ES.l_y l' = init.2
  ∧ R1ES.save_first self0 (R1ES.l_fitness l) init.2 = Some (R1ES.l_fitness l').
Proof.
  intros Hr Hfired self0 init. unfold R1ES.restart_reinitialize in Hr.
  destruct (ES.restart_reinitialize _) as [fired e] eqn:He.
  cbn in Hfired. subst fired.
  assert (He' : R1ES.with_es (λ _, e) (R1ES.l_self l) = self0).
  { subst self0. unfold R1ES.with_es. by rewrite He. }
  rewrite He' in Hr. fold init in Hr.
  destruct (initialize_unfold self0 true) as [g Hg].
  destruct init as [[[[[self1 x1] mean1] p1] s1] y1] eqn:Hinit.
  assert (Hsave : R1ES.save_first self1 (R1ES.l_fitness l) y1
                  = R1ES.save_first self0 (R1ES.l_fitness l) y1).
  { subst init. rewrite Hinit in Hg. by injection Hg as -> _ _ _ _ _. }
  rewrite Hsave in Hr.
  apply bind_Some in Hr as (fitness & Hfit & Hr). injection Hr as <-.
  cbn. split_and!; try done.
  f_equal. f_equal. subst init. rewrite Hinit in Hg.
  by injection Hg as -> _ _ _ _ _.
Qed.

(** The restart that does not fire: only the controller's history
    moves. *)
Lemma restart_reinitialize_idle l :
  (ES.restart_reinitialize (R1ES.es (R1ES.l_self l))).1 = false →
  R1ES.restart_reinitialize l
  = Some {| R1ES.l_self :=
              R1ES.with_es
                (ES.set__fitness_list
                   (ES._fitness_list (R1ES.es (R1ES.l_self l))
                    ++ [best_so_far_y (R1ES.core (R1ES.l_self l))]))
                (R1ES.l_self l);
            R1ES.l_x := R1ES.l_x l; R1ES.l_mean := R1ES.l_mean l;
            R1ES.l_p := R1ES.l_p l; R1ES.l_s := R1ES.l_s l;
            R1ES.l_y := R1ES.l_y l; R1ES.l_fitness := R1ES.l_fitness l |}.
Proof.
  unfold R1ES.restart_reinitialize, ES.restart_reinitialize. cbn.
  case_match; [done|]. reflexivity.
Qed.

Lemma set_d_sigma_progresses self v :
  progresses clock self (R1ES.set_d_sigma v self).
Proof. by split. Qed.

Lemma restart_reinitialize_progresses l l' :
  R1ES.restart_reinitialize l = Some l' →
  progresses clock (R1ES.l_self l) (R1ES.l_self l').
Proof.
  intros Hr.
  destruct (ES.restart_reinitialize (R1ES.es (R1ES.l_self l))).1 eqn:Hfired.
  - apply restart_reinitialize_fired in Hr as (-> & _); [|done].
    eapply progresses_trans; [apply ES_restart_reinitialize_progresses|].
    eapply progresses_trans; [apply initialize_progresses|].
    apply set_d_sigma_progresses.
  - rewrite restart_reinitialize_idle in Hr by done. injection Hr as <-.
    by split.
Qed.

End R1ES_methods.

(** ** R1ES: the loop of [optimize] *)

Section R1ES_generation.
Context {F G : Type} `{Numeric F} `{RandomSource F G}.
Import Core.
Variable clock : nat → nat.
Implicit Types (self : R1ES.R1ES F G) (l : R1ES.locals F G).

(** One turn of the loop, statement by statement. *)
Lemma generation_inv l r :
  R1ES.generation clock l = Some r →
  ∃ self1 x1 y1,
    R1ES.iterate clock (R1ES.l_self l) (R1ES.l_x l) (R1ES.l_mean l)
      (R1ES.l_p l) (R1ES.l_y l) = Some (self1, x1, y1)
    ∧ let o1 := R1ES.core self1 in
      let self2 := R1ES.with_core (λ o, (_check_terminations clock o).2) self1 in
      let fitness := if ES.saving_fitness (R1ES.es self1)
                     then R1ES.l_fitness l ++ y1 else R1ES.l_fitness l in
      if exhausted clock o1 (n_function_evaluations o1) (ticks o1) then
        r = Return {| R1ES.l_self := self2; R1ES.l_x := x1;
                      R1ES.l_mean := R1ES.l_mean l; R1ES.l_p := R1ES.l_p l;
                      R1ES.l_s := R1ES.l_s l; R1ES.l_y := y1;
                      R1ES.l_fitness := fitness |}
      else
        ∃ self3 mean3 p3 s3 y3,
          R1ES._update_distribution self2 x1 (R1ES.l_mean l) (R1ES.l_p l)
            (R1ES.l_s l) y1 (R1ES.l_y l) = Some (self3, mean3, p3, s3, y3)
          ∧ let l3 :=
              {| R1ES.l_self :=
                   R1ES.with_es
                     (λ e, ES.set__n_generations (ES._n_generations e + 1) e)
                     self3;
                 R1ES.l_x := x1; R1ES.l_mean := mean3; R1ES.l_p := p3;
                 R1ES.l_s := s3; R1ES.l_y := y3; R1ES.l_fitness := fitness |} in
            if ES.is_restart (R1ES.es self3) then
              ∃ l', R1ES.restart_reinitialize l3 = Some l' ∧ r = Next l'
            else r = Next l3.
Proof.
  unfold R1ES.generation. intros Hg.
  apply bind_Some in Hg as ([[self1 x1] y1] & Hit & Hg).
  exists self1, x1, y1. split; [done|]. cbn zeta.
  change (_check_terminations clock (R1ES.core self1))
    with (exhausted clock (R1ES.core self1)
            (n_function_evaluations (R1ES.core self1))
            (ticks (R1ES.core self1)),
          (_check_terminations clock (R1ES.core self1)).2) in Hg.
  cbn beta iota zeta in Hg.
  destruct (exhausted _ _ _ _); [by simplify_eq|].
  apply bind_Some in Hg as ([[[[self3 mean3] p3] s3] y3] & Hu & Hg).
  exists self3, mean3, p3, s3, y3. split; [done|].
  pose proof (_update_distribution_unfold _ _ _ _ _ _ _ _ _ _ _ _ Hu) as [_ Hself3].
  change (ES.is_restart (R1ES.es (R1ES.with_es _ (R1ES.with_es _ self3))))
    with (ES.is_restart (R1ES.es self3)) in Hg.
  destruct (ES.is_restart (R1ES.es self3)).
  - apply fmap_Some in Hg as (l' & Hr & ->). exists l'. split; [|done].
    rewrite <- Hr. f_equal.
  - by simplify_eq.
Qed.

Lemma generation_progresses l r :
  R1ES.generation clock l = Some r →
  progresses clock (R1ES.l_self l) (R1ES.l_self (flow_state r)).
Proof.
  intros (self1 & x1 & y1 & Hit & Hg)%generation_inv. cbn zeta in Hg.
  apply (iterate_progresses clock) in Hit.
  assert (Hpoll : progresses clock (R1ES.l_self l)
            (R1ES.with_core (λ o, (_check_terminations clock o).2) self1)).
  { eapply progresses_trans; [done|].
    apply progresses_action. intros o. apply action_poll. }
  destruct (exhausted _ _ _ _); [by subst r|].
  destruct Hg as (self3 & mean3 & p3 & s3 & y3 & Hu & Hg).
  apply (_update_distribution_progresses clock) in Hu.
  assert (Hgen : progresses clock (R1ES.l_self l)
            (R1ES.with_es
               (λ e, ES.set__n_generations (ES._n_generations e + 1) e) self3)).
  { eapply progresses_trans; [done|].
    eapply progresses_trans; [done|]. by split. }
  destruct (ES.is_restart _).
  - destruct Hg as (l' & Hr & ->).
    apply (restart_reinitialize_progresses clock) in Hr.
    eapply progresses_trans; done.
  - by subst r.
Qed.

Lemma turns_progresses n l l' :
  turns clock n l = Some l' →
  progresses clock (R1ES.l_self l) (R1ES.l_self l').
Proof.
  revert l. induction n as [|n IH]; intros l Ht; cbn in Ht.
  { simplify_eq. apply progresses_refl. }
  destruct (R1ES.generation clock l) as [[l1|l1]|] eqn:Hg; [|done..].
  eapply progresses_trans; [|by apply IH].
  by apply generation_progresses in Hg.
Qed.

Lemma generations_progresses fuel l l' :
  R1ES.generations clock fuel l = Returns l' →
  progresses clock (R1ES.l_self l) (R1ES.l_self l').
Proof.
  revert l. induction fuel as [|fuel IH]; intros l Hg; cbn in Hg; [done|].
  destruct (R1ES.generation clock l) as [[l1|l1]|] eqn:Hg1; [..|done].
  - eapply progresses_trans; [|by apply IH].
    by apply generation_progresses in Hg1.
  - simplify_eq. by apply generation_progresses in Hg1.
Qed.

(** A run that returns is some complete turns and then the turn that
    breaks out of the loop. *)
Lemma generations_turns fuel l l' :
  R1ES.generations clock fuel l = Returns l' →
  ∃ n l1, n < fuel ∧ turns clock n l = Some l1
          ∧ R1ES.generation clock l1 = Some (Return l').
Proof.
  revert l. induction fuel as [|fuel IH]; intros l Hg; cbn in Hg; [done|].
  destruct (R1ES.generation clock l) as [[l1|l1]|] eqn:Hg1; [..|done].
  - apply IH in Hg as (n & l2 & Hn & Ht & Hlast).
    exists (S n), l2. cbn. rewrite Hg1. split_and!; [lia|done|done].
  - simplify_eq. exists 0, l. split_and!; [lia|done|done].
Qed.

(** The statements before the loop: the fitness function is installed,
    then [initialize] runs. *)
Lemma prologue_inv self fitness_function l :
  R1ES.prologue self fitness_function = Some l →
  let self0 := R1ES.with_es (λ e, (ES.optimize e fitness_function).2) self in
  let init := R1ES.initialize self0 false in
  R1ES.l_self l = init.1.1.1.1.1
  ∧ R1ES.l_x l = init.1.1.1.1.2
  ∧ R1ES.l_mean l = init.1.1.1.2
  ∧ R1ES.l_p l = init.1.1.2
  ∧ R1ES.l_s l = init.1.2
  ∧ R1ES.l_y l = init.2
  ∧ R1ES.save_first self0 [] init.2 = Some (R1ES.l_fitness l).
Proof.
  intros Hp self0 init. unfold R1ES.prologue in Hp.
  assert (Hopt : ES.optimize (R1ES.es self) fitness_function
                 = ([], (ES.optimize (R1ES.es self) fitness_function).2)).
  { unfold ES.optimize. by destruct fitness_function. }
  rewrite Hopt in Hp. cbn beta iota zeta in Hp.
  change (R1ES.with_es _ self) with self0 in Hp. fold init in Hp.
  destruct (initialize_unfold self0 false) as [g Hg].
  destruct init as [[[[[self1 x1] mean1] p1] s1] y1] eqn:Hinit.
  assert (Hsave : R1ES.save_first self1 [] y1 = R1ES.save_first self0 [] y1).
  { subst init. rewrite Hinit in Hg. by injection Hg as -> _ _ _ _ _. }
  rewrite Hsave in Hp.
  apply bind_Some in Hp as (fitness & Hfit & Hp). injection Hp as <-.
  cbn. split_and!; try done.
  subst init. rewrite Hinit in Hg. by injection Hg as -> _ _ _ _ _.
Qed.

End R1ES_generation.

(** ** R1ES: the statements about single methods *)

Section R1ES_statements.
Context {F G : Type} `{Numeric F} `{RandomSource F G}.
Import Core.
Implicit Types (self : R1ES.R1ES F G) (l : R1ES.locals F G).

(** C9. Every call of [R1ES.initialize], the first one and the one of
    every restart, calls the fitness function exactly once, on the mean it
    returns: the log grows by that one evaluation and by no poll, the
    evaluation counter grows by one, and the fitness vector [y] it returns
    is [n_individuals] copies of the value of the mean. *)
Theorem initialize_evaluates_the_mean_once self (is_restart : bool) :
  let '(self', x, mean, p, s, y) := R1ES.initialize self is_restart in
  mean = (ES._initialize_mean (R1ES.es self) is_restart).1
  ∧ trace (R1ES.core self') = trace (R1ES.core self) ++ [Evaluated mean]
  ∧ evaluations (trace (R1ES.core self'))
    = evaluations (trace (R1ES.core self)) ++ [mean]
  ∧ n_function_evaluations (R1ES.core self')
    = n_function_evaluations (R1ES.core self) + 1
  ∧ y = replicate (ES.n_individuals (R1ES.es self))
          (fitness_function (R1ES.core self) mean)
  ∧ length y = ES.n_individuals (R1ES.es self').
Proof.
  destruct (initialize_unfold self is_restart) as [g ->].
  split_and!; try reflexivity.
  - exact (evaluations_app (trace (R1ES.core self)) [Evaluated _]).
  - apply length_replicate.
Qed.

Lemma mask_select_ranks (P : nat → bool) (r : list nat) (a : nat) :
  mask_select (S <$> seq a (length r)) (P <$> r) = ranks_from P (S a) r.
Proof.
  revert a. induction r as [|i r IH]; intros a; [done|].
  cbn. rewrite IH. by destruct (P i).
Qed.

(** C8. [_update_distribution] smooths the cumulative rank rate towards
    the rank statistic [q] of the previous and the current [n_parents]
    best fitness values, [s' = (1 - c_s)*s + c_s*(q - q_star)], and then
    multiplies the step-size by [exp(s'/d_sigma)]. *)
Theorem step_size_follows_the_rank_rate self x mean p s y y_bak self' mean' p' s' y' :
  R1ES._rr self = Some (S <$> seq 0 (ES.n_parents (R1ES.es self) * 2)) →
  R1ES._update_distribution self x mean p s y y_bak
  = Some (self', mean', p', s', y') →
  let n := ES.n_parents (R1ES.es self) in
  let q := rank_statistic (ES._w (R1ES.es self)) n
             (np_argsort (take n y_bak ++ take n (np_sort y))) in
  s' = fadd (fmul (fsub (fconst 1.0) (R1ES.c_s self)) s)
            (fmul (R1ES.c_s self) (fsub q (R1ES.q_star self)))
  ∧ ES.sigma (R1ES.es self')
    = fmul (ES.sigma (R1ES.es self)) (fexp (fdiv s' (R1ES.d_sigma self)))
  ∧ R1ES.d_sigma self' = R1ES.d_sigma self.
Proof.
  intros Hrr Hu n q.
  pose proof (_update_distribution_unfold _ _ _ _ _ _ _ _ _ _ _ _ Hu) as [_ ->].
  split_and!; try reflexivity.
  unfold R1ES._update_distribution in Hu.
  apply bind_Some in Hu as (mean_w & _ & Hu).
  apply bind_Some in Hu as (p2 & _ & Hu).
  apply bind_Some in Hu as (step & _ & Hu).
  apply bind_Some in Hu as (p1 & _ & Hu).
  apply bind_Some in Hu as (rr & Hranks & Hu).
  apply bind_Some in Hu as (product & [_ ->]%dot_Some & Hu).
  injection Hu as _ _ _ <- _.
  unfold R1ES.rank_differences in Hranks. rewrite Hrr in Hranks.
  cbn [mbind option_bind] in Hranks. case_decide as Hlen; [|done].
  cbn zeta in Hranks. case_decide as Hshape; [|done]. injection Hranks as <-.
  rewrite length_fmap, length_seq in Hlen.
  rewrite <- Hlen, !mask_select_ranks. reflexivity.
Qed.

End R1ES_statements.

(** ** R1ES: what a call of [iterate] does *)

Section R1ES_sampling.
Context {F G : Type} `{Numeric F} `{RandomSource F G}.
Import Core.
Variable clock : nat → nat.
Implicit Types (self : R1ES.R1ES F G) (l : R1ES.locals F G).

Lemma offspring_points_lookup self mean p g j k :
  k < j →
  offspring_points self mean p g j !! k
  = Some (offspring_point self mean p
            (generator_after (ndim_problem (R1ES.core self)) k g)).
Proof.
  intros Hk. unfold offspring_points.
  rewrite list_lookup_fmap, lookup_seq_lt by done. done.
Qed.

Lemma length_offspring_points self mean p g j :
  length (offspring_points self mean p g j) = j.
Proof. unfold offspring_points. by rewrite length_fmap, length_seq. Qed.

Lemma length_stored_points self mean p g x a j :
  length (stored_points self mean p g x a j) = j.
Proof. unfold stored_points. by rewrite length_fmap, length_seq. Qed.

(** What a call of [iterate] that made [j] evaluations did. *)
Lemma iterate_effect self x mean p y self' x' y' :
  R1ES.iterate clock self x mean p y = Some (self', x', y') →
  let o := R1ES.core self in
  ∃ j, let cs := stored_points self mean p (rng_optimization o) x 0 j in
    j ≤ ES.n_individuals (R1ES.es self)
    ∧ n_function_evaluations (R1ES.core self') = n_function_evaluations o + j
    ∧ (∀ i, i < j →
         exhausted clock o (n_function_evaluations o + i) (ticks o + i) = false)
    ∧ (j < ES.n_individuals (R1ES.es self) →
         exhausted clock o (n_function_evaluations o + j) (ticks o + j) = true)
    ∧ trace (R1ES.core self')
      = trace o ++ polled_evaluations cs
        ++ (if decide (j < ES.n_individuals (R1ES.es self))
            then [Polled true] else [])
    ∧ (0 < j → j ≤ length x ∧ j ≤ length y)
    ∧ length x' = length x ∧ length y' = length y
    ∧ (∀ i, i < j → x' !! i = cs !! i
                    ∧ y' !! i = fitness_function o <$> cs !! i)
    ∧ (∀ k, j ≤ k → x' !! k = x !! k ∧ y' !! k = y !! k)
    ∧ (j < ES.n_individuals (R1ES.es self) → spent clock (R1ES.core self'))
    ∧ self' = R1ES.with_core (λ _, R1ES.core self') self.
Proof.
  intros (j & self1 & Hj & Hrun & Hend)%iterate_inv o.
  apply offspring_prefix in Hrun
    as (o1 & -> & Hact & Hn & Ht & Hg & Htr & Hpolls & Hlen & Hlx & Hly
        & Hrows & Hrest).
  fold o in Hact, Hn, Ht, Hg, Htr, Hpolls, Hrows.
  apply actions_frame in Hact as (Hm & Hr & _).
  change (R1ES.core (R1ES.with_core _ self)) with o1 in Hend.
  exists j. cbn zeta. split_and!; try done.
  - destruct Hend as [[_ ->]|(_ & _ & ->)]; exact Hn.
  - intros Hlt. destruct Hend as [[-> _]|(_ & Hstop & _)]; [lia|].
    unfold exhausted in *. by rewrite <- Hm, <- Hr, <- Hn, <- Ht.
  - destruct Hend as [[-> ->]|(Hlt & Hstop & ->)].
    + rewrite decide_False by lia. rewrite app_nil_r. exact Htr.
    + rewrite decide_True by done.
      change (trace (R1ES.core _))
        with (trace o1 ++ [Polled (exhausted clock o1
                (n_function_evaluations o1) (ticks o1))]).
      rewrite Hstop, Htr, <- app_assoc. done.
  - intros k Hk. apply Hrest. lia.
  - intros Hlt. destruct Hend as [[-> _]|(_ & Hstop & ->)]; [lia|].
    by apply exhausted_spent.
  - by destruct Hend as [[_ ->]|(_ & _ & ->)].
Qed.

(** When the budget runs out after [k < n_individuals] offspring of a
    generation — the polls of the first [k] iterations answer false and
    the next one answers true — [iterate] returns having evaluated exactly
    those [k]. *)
Lemma iterate_stops_mid_generation self x mean p y (k : nat) :
  let o := R1ES.core self in
  lawful_normal →
  conformable (ndim_problem o) x mean p →
  k < ES.n_individuals (R1ES.es self) →
  ES.n_individuals (R1ES.es self) ≤ length x →
  ES.n_individuals (R1ES.es self) ≤ length y →
  (∀ i, i < k →
     exhausted clock o (n_function_evaluations o + i) (ticks o + i) = false) →
  exhausted clock o (n_function_evaluations o + k) (ticks o + k) = true →
  ∃ self' x' y',
    R1ES.iterate clock self x mean p y = Some (self', x', y')
    ∧ n_function_evaluations (R1ES.core self') = n_function_evaluations o + k
    ∧ length (evaluations (trace (R1ES.core self')))
      = length (evaluations (trace o)) + k
    ∧ (∀ i, k ≤ i → x' !! i = x !! i ∧ y' !! i = y !! i).
Proof.
  intros o Hnormal Hshape Hk Hx Hy Hpolls Hstop.
  set (n := ES.n_individuals (R1ES.es self)) in *.
  destruct (offspring_prefix_runs clock mean p k 0 self x y)
    as [[[self1 x1] y1] Hrun]; [done|done|lia..|done|].
  pose proof Hrun as Hfacts.
  apply offspring_prefix in Hfacts
    as (o1 & -> & Hact & Hn & Ht & _ & Htr & _ & _ & _ & _ & _ & Hrest).
  fold o in Hact, Hn, Ht, Htr.
  apply actions_frame in Hact as (Hm & Hr & _).
  assert (Hit : R1ES.iterate clock self x mean p y
                = Some (R1ES.with_core (λ _, (_check_terminations clock o1).2) self,
                        x1, y1)).
  { unfold R1ES.iterate. fold n.
    replace n with (k + S (n - S k)) by lia.
    rewrite seq_app, for_each_app, Hrun. cbn [seq for_each].
    rewrite offspring_unfold.
    change (R1ES.core (R1ES.with_core _ self)) with o1.
    unfold exhausted in *. rewrite Hm, Hr, Hn, Ht, Hstop. done. }
  eexists _, _, _. split; [exact Hit|]. split_and!.
  - exact Hn.
  - change (trace (R1ES.core _))
      with (trace o1 ++ [Polled (exhausted clock o1
              (n_function_evaluations o1) (ticks o1))]).
    rewrite Htr, !evaluations_app, evaluations_polled_evaluations.
    rewrite !length_app, length_stored_points. cbn. lia.
  - intros i Hi. apply Hrest. lia.
Qed.

End R1ES_sampling.

(** ** FEP: the store and the inner loop *)

Section FEP_iterate.
Context {F G : Type} `{Numeric F} `{RandomSource F G}.
Import Core.
Implicit Types (self : FEP.FEP F G) (h : FEP.store F) (a : FEP.population).

Lemma set2_inv h r i j v h' :
  FEP.set2 h r i j v = Some h' →
  ∃ m row, FEP.mats h !! r = Some m ∧ m !! i = Some row ∧ j < length row
    ∧ h' = {| FEP.mats := <[r := <[i := <[j := v]> row]> m]> (FEP.mats h);
              FEP.vecs := FEP.vecs h |}.
Proof.
  unfold FEP.set2. intros Hs.
  apply bind_Some in Hs as (m & Hm & Hs).
  apply bind_Some in Hs as (row & Hrow & Hs).
  apply bind_Some in Hs as (row' & [Hj ->]%set_item_Some & Hs).
  simplify_eq. eauto 10.
Qed.

Lemma set2_runs h r i j v m row :
  FEP.mats h !! r = Some m → m !! i = Some row → j < length row →
  FEP.set2 h r i j v
  = Some {| FEP.mats := <[r := <[i := <[j := v]> row]> m]> (FEP.mats h);
            FEP.vecs := FEP.vecs h |}.
Proof.
  intros Hm Hrow Hj. unfold FEP.set2. rewrite Hm. cbn. rewrite Hrow. cbn.
  rewrite set_item_lt by done. done.
Qed.

Lemma set1_inv h r i v h' :
  FEP.set1 h r i v = Some h' →
  ∃ u, FEP.vecs h !! r = Some u ∧ i < length u
    ∧ h' = {| FEP.mats := FEP.mats h;
              FEP.vecs := <[r := <[i := v]> u]> (FEP.vecs h) |}.
Proof.
  unfold FEP.set1. intros Hs.
  apply bind_Some in Hs as (u & Hu & Hs).
  apply bind_Some in Hs as (u' & [Hi ->]%set_item_Some & Hs).
  simplify_eq. eauto.
Qed.

Lemma rows_ok_insert (n d i j : nat) (v : F) (m : list (list F)) (row : list F) :
  rows_ok n d m → m !! i = Some row →
  rows_ok n d (<[i := <[j := v]> row]> m).
Proof.
  intros [Hlen Hrows] Hrow. split; [by rewrite length_insert|].
  intros i' row' Hi' Hlook.
  destruct (decide (i = i')) as [<-|Hne].
  - rewrite list_lookup_insert_eq in Hlook by (by eapply lookup_lt_Some).
    simplify_eq. rewrite length_insert. eauto.
  - rewrite list_lookup_insert_ne in Hlook by done. eauto.
Qed.

(** A write into a 2-d array keeps the shape of the store. *)
Lemma set2_shaped h a n d r i j v h' :
  FEP.set2 h r i j v = Some h' → shaped h a n d → shaped h' a n d.
Proof.
  intros (m & row & Hm & Hrow & Hj & ->)%set2_inv (Hmats & Hoy & Hy).
  split_and!; [|done..]. intros r' Hr'. cbn.
  destruct (decide (r = r')) as [<-|Hne].
  - rewrite lookup_insert_eq. eexists. split; [done|].
    destruct (Hmats r Hr') as (m' & Hm' & Hok). simplify_eq.
    by apply rows_ok_insert.
  - rewrite lookup_insert_ne by done. auto.
Qed.

Lemma set1_shaped h a n d i v h' :
  FEP.set1 h (FEP.offspring_y a) i v = Some h' →
  shaped h a n d → shaped h' a n d.
Proof.
  intros (u & Hu & Hi & ->)%set1_inv (Hmats & (u' & Hu' & Hlen) & Hy).
  simplify_eq. split_and!; [done|..]; cbn.
  - rewrite lookup_insert_eq. eexists. split; [done|].
    by rewrite length_insert.
  - destruct (decide (FEP.offspring_y a = FEP.y a)) as [->|Hne].
    + by rewrite lookup_insert_eq.
    + by rewrite lookup_insert_ne.
Qed.

(** A write into an array of the offspring leaves the parents alone. *)
Lemma set2_same_parents h a r i j v h' :
  separate a → r = FEP.offspring_x a ∨ r = FEP.offspring_sigmas a →
  FEP.set2 h r i j v = Some h' → same_parents a h h'.
Proof.
  intros (? & ? & ? & ? & ?) Hr (m & row & _ & _ & _ & ->)%set2_inv.
  split_and!; cbn; [| |done]; apply lookup_insert_ne;
    destruct Hr as [->| ->]; done.
Qed.

Lemma set1_same_parents h a i v h' :
  separate a →
  FEP.set1 h (FEP.offspring_y a) i v = Some h' → same_parents a h h'.
Proof.
  intros (? & ? & ? & ? & ?) (u & _ & _ & ->)%set1_inv.
  split_and!; cbn; [done..|]. by apply lookup_insert_ne.
Qed.

Lemma same_parents_refl a h : same_parents a h h.
Proof. by split_and!. Qed.

Lemma same_parents_trans a h1 h2 h3 :
  same_parents a h1 h2 → same_parents a h2 h3 → same_parents a h1 h3.
Proof.
  intros (? & ? & ?) (? & ? & ?). split_and!; congruence.
Qed.

(** One turn of the inner loop: two writes into the arrays of the
    offspring and three draws. *)
Lemma mutate_inv a i j h self r :
  FEP.mutate a i j (h, self) = Some r →
  ∃ h1 h' g v1 v2,
    r = Next (h', FEP.with_base (set_rng_optimization g) self)
    ∧ FEP.set2 h (FEP.offspring_x a) i j v1 = Some h1
    ∧ FEP.set2 h1 (FEP.offspring_sigmas a) i j v2 = Some h'.
Proof.
  unfold FEP.mutate. intros Hm.
  destruct (standard_cauchy _) as [n_j g0].
  apply bind_Some in Hm as (x_ij & _ & Hm).
  apply bind_Some in Hm as (s_ij & _ & Hm).
  apply bind_Some in Hm as (h1 & Hset1 & Hm).
  apply bind_Some in Hm as (s_ij' & _ & Hm).
  destruct (standard_normal g0) as [n1 g1].
  destruct (standard_normal g1) as [n2 g2].
  apply bind_Some in Hm as (h2 & Hset2 & Hm).
  simplify_eq. eauto 10.
Qed.

Lemma get2_shaped h a n d r i j :
  shaped h a n d → i < n → j < d →
  r ∈ [FEP.x a; FEP.sigmas a; FEP.offspring_x a; FEP.offspring_sigmas a] →
  is_Some (FEP.get2 h r i j).
Proof.
  intros (Hmats & _) Hi Hj Hr.
  destruct (Hmats r Hr) as (m & Hm & Hlen & Hrows).
  destruct (lookup_lt_is_Some_2 m i ltac:(lia)) as [row Hrow].
  destruct (lookup_lt_is_Some_2 row j) as [v Hv].
  { specialize (Hrows i row Hi Hrow). lia. }
  exists v. unfold FEP.get2. rewrite Hm. cbn. rewrite Hrow. cbn. done.
Qed.

Lemma set2_shaped_runs h a n d r i j v :
  shaped h a n d → i < n → j < d →
  r ∈ [FEP.x a; FEP.sigmas a; FEP.offspring_x a; FEP.offspring_sigmas a] →
  is_Some (FEP.set2 h r i j v).
Proof.
  intros (Hmats & _) Hi Hj Hr.
  destruct (Hmats r Hr) as (m & Hm & Hlen & Hrows).
  destruct (lookup_lt_is_Some_2 m i ltac:(lia)) as [row Hrow].
  erewrite set2_runs; [done..|].
  specialize (Hrows i row Hi Hrow). lia.
Qed.

Lemma mutate_runs a i j h self n d :
  shaped h a n d → i < n → j < d →
  ∃ st, FEP.mutate a i j (h, self) = Some (Next st).
Proof.
  intros Hshape Hi Hj. unfold FEP.mutate.
  destruct (standard_cauchy _) as [n_j g0].
  destruct (get2_shaped h a n d (FEP.x a) i j) as [x_ij ->];
    [done..|set_solver|]. cbn.
  destruct (get2_shaped h a n d (FEP.sigmas a) i j) as [s_ij ->];
    [done..|set_solver|]. cbn.
  destruct (set2_shaped_runs h a n d (FEP.offspring_x a) i j
              (fadd x_ij (fmul s_ij n_j))) as [h1 Hh1];
    [done..|set_solver|].
  rewrite Hh1. cbn.
  pose proof (set2_shaped _ _ _ _ _ _ _ _ _ Hh1 Hshape) as Hshape1.
  destruct (get2_shaped h1 a n d (FEP.sigmas a) i j) as [s_ij' ->];
    [done..|set_solver|]. cbn.
  destruct (standard_normal g0) as [n1 g1].
  destruct (standard_normal g1) as [n2 g2].
  destruct (set2_shaped_runs h1 a n d (FEP.offspring_sigmas a) i j
              (fmul s_ij' (fexp (fadd (fmul (FEP.tau_apostrophe self) n1)
                                      (fmul (FEP.tau self) n2))))) as [h2 Hh2];
    [done..|set_solver|].
  rewrite Hh2. cbn. eauto.
Qed.

(** The inner loop: it only writes into the arrays of the offspring and
    only moves the generator. *)
Lemma mutations_inv a i ks h self r :
  for_each (FEP.mutate a i) ks (h, self) = Some r →
  ∃ h' g, r = Next (h', FEP.with_base (set_rng_optimization g) self)
    ∧ FEP.vecs h' = FEP.vecs h
    ∧ (separate a → same_parents a h h')
    ∧ (∀ n d, shaped h a n d → shaped h' a n d).
Proof.
  intros Hrun.
  set (I := λ st : FEP.store F * FEP.FEP F G,
         ∃ g, st.2 = FEP.with_base (set_rng_optimization g) self
              ∧ FEP.vecs st.1 = FEP.vecs h
              ∧ (separate a → same_parents a h st.1)
              ∧ (∀ n d, shaped h a n d → shaped st.1 a n d)).
  assert (Hres : match r with Next st => I st | Return _ => False end).
  { apply (for_each_rule I (λ _, False) (FEP.mutate a i) ks (h, self));
      [| |done].
    - intros j [h1 self1] r1 _ (g1 & Hs1 & Hv1 & Hp1 & Hsh1) Hbody.
      cbn in Hs1, Hv1, Hp1, Hsh1. subst self1.
      apply mutate_inv in Hbody as (h2 & h3 & g2 & v1 & v2 & -> & Hw1 & Hw2).
      exists g2. cbn. split_and!.
      + reflexivity.
      + apply set2_inv in Hw1 as (? & ? & _ & _ & _ & ->).
        apply set2_inv in Hw2 as (? & ? & _ & _ & _ & ->). done.
      + intros Hsep. eapply same_parents_trans; [by apply Hp1|].
        eapply same_parents_trans.
        * eapply (set2_same_parents _ _ (FEP.offspring_x a));
            [done|by left|exact Hw1].
        * eapply (set2_same_parents _ _ (FEP.offspring_sigmas a));
            [done|by right|exact Hw2].
      + intros n d Hsh. eapply set2_shaped; [done|].
        eapply set2_shaped; [done|]. by apply Hsh1.
    - exists (rng_optimization (FEP.base self)). cbn.
      split_and!; [by destruct self as [[]]|done|
                   by intros; apply same_parents_refl|done]. }
  destruct r as [[h' self']|st]; [|done].
  destruct Hres as (g & Hself & Hvecs & Hsame & Hshape).
  cbn in Hself. subst self'. eauto 10.
Qed.

Lemma mutations_run a i h self n d :
  shaped h a n d → i < n →
  ∃ st, for_each (FEP.mutate a i) (seq 0 d) (h, self) = Some (Next st).
Proof.
  intros Hshape Hi.
  destruct (for_each_runs (λ st, shaped st.1 a n d) (FEP.mutate a i)
              (seq 0 d) (h, self)) as (st & Hrun & _); [done| |eauto].
  intros j [h1 self1] Hj Hsh1. cbn in Hsh1.
  apply elem_of_seq in Hj.
  destruct (mutate_runs a i j h1 self1 n d) as [st Hst]; [done|done|lia|].
  exists st. split; [done|].
  apply mutate_inv in Hst as (h2 & h3 & g2 & v1 & v2 & [= ->] & Hw1 & Hw2).
  cbn. eapply set2_shaped; [done|]. by eapply set2_shaped.
Qed.

End FEP_iterate.

(** ** FEP: the sampling loop *)

Section FEP_offspring.
Context {F G : Type} `{Numeric F} `{RandomSource F G}.
Import Core.
Variable clock : nat → nat.
Implicit Types (self : FEP.FEP F G) (h : FEP.store F) (a : FEP.population).

(** One iteration of the loop of lines 96-105: it returns when the poll
    answers true, and otherwise mutates and evaluates offspring [i]. *)
Lemma fep_offspring_inv a i h self r :
  FEP.offspring clock a i (h, self) = Some r →
  let o := FEP.base self in
  if exhausted clock o (n_function_evaluations o) (ticks o) then
    r = Return (h, FEP.with_base (λ o, (_check_terminations clock o).2) self)
  else
    ∃ h' g c,
      r = Next (h',
                FEP.with_base
                  (λ o, (_evaluate_fitness
                           (set_rng_optimization g (_check_terminations clock o).2)
                           c).2) self)
      ∧ (separate a → same_parents a h h')
      ∧ (∀ n d, shaped h a n d → shaped h' a n d).
Proof.
  intros Hbody o. unfold FEP.offspring in Hbody.
  change (_check_terminations clock (FEP.base self))
    with (exhausted clock o (n_function_evaluations o) (ticks o),
          (_check_terminations clock o).2) in Hbody.
  cbn beta iota zeta in Hbody.
  destruct (exhausted _ _ _ _); [by simplify_eq|].
  apply bind_Some in Hbody as ([h1 self1] & Hloop & Hbody).
  apply fmap_Some in Hloop as (r1 & Hloop & Hr1).
  apply mutations_inv in Hloop as (h1' & g & -> & Hvecs & Hsame & Hshape).
  cbn in Hr1. injection Hr1 as -> ->.
  apply bind_Some in Hbody as (row & Hrow & Hbody).
  destruct (_evaluate_fitness _ row) as [v o'] eqn:Hv.
  apply bind_Some in Hbody as (h2 & Hw & Hbody).
  injection Hbody as <-.
  exists h2, g, row. split_and!.
  - unfold _evaluate_fitness in Hv. injection Hv as _ <-. reflexivity.
  - intros Hsep. eapply same_parents_trans; [by apply Hsame|].
    by eapply set1_same_parents.
  - intros n d Hsh. eapply set1_shaped; [done|]. by apply Hshape.
Qed.

Lemma fep_offspring_runs a i h self n :
  let o := FEP.base self in
  shaped h a n (ndim_problem o) → i < n →
  exhausted clock o (n_function_evaluations o) (ticks o) = false →
  ∃ st, FEP.offspring clock a i (h, self) = Some (Next st).
Proof.
  intros o Hshape Hi Hstop. unfold FEP.offspring.
  change (_check_terminations clock (FEP.base self))
    with (exhausted clock o (n_function_evaluations o) (ticks o),
          (_check_terminations clock o).2).
  cbn beta iota zeta. rewrite Hstop.
  change (ndim_problem (FEP.base (FEP.with_base _ self))) with (ndim_problem o).
  destruct (mutations_run a i h
              (FEP.with_base (λ _, (_check_terminations clock o).2) self)
              n (ndim_problem o)) as [[h1 self1] Hloop]; [done..|].
  rewrite Hloop. cbn.
  apply mutations_inv in Hloop as (h1' & g & [= <- ->] & _ & _ & Hsh).
  destruct (Hsh _ _ Hshape) as (Hmats & (u & Hu & Hlen) & _).
  destruct (Hmats (FEP.offspring_x a)) as (m & Hm & Hrows & _);
    [set_solver|].
  destruct (lookup_lt_is_Some_2 m i ltac:(lia)) as [row Hrow].
  unfold FEP.get_row. rewrite Hm. cbn. rewrite Hrow. cbn.
  unfold FEP.set1. rewrite Hu. cbn.
  rewrite set_item_lt by lia. cbn. eauto.
Qed.

(** [j] iterations that ran to their end. *)
Lemma fep_offspring_prefix a j : ∀ s h self h' self',
  for_each (FEP.offspring clock a) (seq s j) (h, self) = Some (Next (h', self')) →
  let o := FEP.base self in
  ∃ o', self' = FEP.with_base (λ _, o') self
    ∧ rtc (action clock) o o'
    ∧ n_function_evaluations o' = n_function_evaluations o + j
    ∧ ticks o' = ticks o + j
    ∧ length (evaluations (trace o')) = length (evaluations (trace o)) + j
    ∧ (∀ i, i < j →
         exhausted clock o (n_function_evaluations o + i) (ticks o + i) = false)
    ∧ (separate a → same_parents a h h')
    ∧ (∀ n d, shaped h a n d → shaped h' a n d).
Proof.
  induction j as [|j IH]; intros s h self h' self' Hrun o.
  { cbn in Hrun. injection Hrun as <- <-. exists o. subst o.
    split_and!; try done; try lia. by destruct self as [[]]. }
  cbn [seq for_each] in Hrun.
  destruct (FEP.offspring clock a s (h, self)) as [[[h1 self1]|?]|] eqn:Hbody;
    [|done..].
  apply fep_offspring_inv in Hbody. fold o in Hbody.
  destruct (exhausted clock o _ _) eqn:Hstop; [done|].
  destruct Hbody as (h1' & g & c & [= -> ->] & Hsame1 & Hshape1).
  apply IH in Hrun as (o' & -> & Hact & Hn & Ht & Hev & Hpolls & Hsame & Hshape).
  set (o1 := (_evaluate_fitness
                (set_rng_optimization g (_check_terminations clock o).2) c).2) in *.
  change (FEP.base (FEP.with_base _ self)) with o1 in *.
  exists o'. split_and!.
  - reflexivity.
  - eapply rtc_l; [apply action_poll|].
    eapply rtc_l; [apply action_rng_optimization|].
    eapply rtc_l; [apply action_evaluate|]. exact Hact.
  - rewrite Hn. cbn. lia.
  - rewrite Ht. cbn. lia.
  - rewrite Hev.
    change (trace o1)
      with ((trace o ++ [Polled (exhausted clock o (n_function_evaluations o) (ticks o))])
            ++ [Evaluated c]).
    rewrite !evaluations_app, !length_app. cbn. lia.
  - intros [|i] Hi.
    + by rewrite !Nat.add_0_r.
    + specialize (Hpolls i ltac:(lia)). rewrite <- Hpolls.
      unfold exhausted. cbn.
      replace (n_function_evaluations o + 1 + i)
        with (n_function_evaluations o + S i) by lia.
      replace (S (ticks o + i)) with (ticks o + S i) by lia.
      done.
  - intros Hsep. eapply same_parents_trans; [by apply Hsame1|by apply Hsame].
  - intros n d Hsh. by apply Hshape, Hshape1.
Qed.

Lemma fep_offspring_prefix_runs a n j : ∀ s h self,
  let o := FEP.base self in
  s + j ≤ n → shaped h a n (ndim_problem o) →
  (∀ i, i < j →
     exhausted clock o (n_function_evaluations o + i) (ticks o + i) = false) →
  ∃ st, for_each (FEP.offspring clock a) (seq s j) (h, self) = Some (Next st).
Proof.
  induction j as [|j IH]; intros s h self o Hs Hshape Hpolls.
  { by exists (h, self). }
  cbn [seq for_each].
  pose proof (Hpolls 0 ltac:(lia)) as H0'. rewrite !Nat.add_0_r in H0'.
  destruct (fep_offspring_runs a s h self n) as [[h1 self1] Hbody];
    [done|lia|done|].
  rewrite Hbody.
  apply fep_offspring_inv in Hbody. fold o in Hbody. rewrite H0' in Hbody.
  destruct Hbody as (h1' & g & c & [= -> ->] & _ & Hshape1).
  apply IH; [lia|by apply Hshape1|].
  intros i Hi. specialize (Hpolls (S i) ltac:(lia)). rewrite <- Hpolls.
  unfold exhausted. cbn. fold o.
  replace (n_function_evaluations o + 1 + i)
    with (n_function_evaluations o + S i) by lia.
  replace (S (ticks o + i)) with (ticks o + S i) by lia.
  done.
Qed.

(** The budget runs out after [k < n_individuals] offspring: [iterate]
    returns the state of its first loop at that moment. *)
Lemma fep_iterate_stops self a h (k : nat) :
  let o := FEP.base self in
  k < FEP.n_individuals self →
  shaped h a (FEP.n_individuals self) (ndim_problem o) →
  (∀ i, i < k →
     exhausted clock o (n_function_evaluations o + i) (ticks o + i) = false) →
  exhausted clock o (n_function_evaluations o + k) (ticks o + k) = true →
  ∃ h1 self1,
    for_each (FEP.offspring clock a) (seq 0 k) (h, self) = Some (Next (h1, self1))
    ∧ FEP.iterate clock self a h
      = Some (h1, FEP.with_base (λ o, (_check_terminations clock o).2) self1)
    ∧ n_function_evaluations (FEP.base self1) = n_function_evaluations o + k
    ∧ length (evaluations (trace (FEP.base self1)))
      = length (evaluations (trace o)) + k
    ∧ (separate a → same_parents a h h1).
Proof.
  intros o Hk Hshape Hpolls Hstop.
  destruct (fep_offspring_prefix_runs a (FEP.n_individuals self) k 0 h self)
    as [[h1 self1] Hrun]; [lia|done|done|].
  exists h1, self1. split; [done|].
  pose proof Hrun as Hfacts.
  apply fep_offspring_prefix in Hfacts
    as (o1 & -> & Hact & Hn & Ht & Hev & _ & Hsame & _).
  fold o in Hact, Hn, Ht, Hev.
  apply actions_frame in Hact as (Hm & Hr & _).
  change (FEP.base (FEP.with_base _ self)) with o1.
  split_and!; try done.
  unfold FEP.iterate.
  replace (FEP.n_individuals self)
    with (k + S (FEP.n_individuals self - S k)) by lia.
  rewrite seq_app, for_each_app, Hrun. cbn [seq for_each].
  destruct (FEP.offspring clock a _ _) as [r|] eqn:Hbody.
  - apply fep_offspring_inv in Hbody.
    change (FEP.base (FEP.with_base _ self)) with o1 in Hbody.
    unfold exhausted in *. rewrite Hm, Hr, Hn, Ht, Hstop in Hbody.
    by subst r.
  - exfalso. unfold FEP.offspring in Hbody.
    change (_check_terminations clock (FEP.base (FEP.with_base _ self)))
      with (exhausted clock o1 (n_function_evaluations o1) (ticks o1),
            (_check_terminations clock o1).2) in Hbody.
    cbn beta iota zeta in Hbody.
    unfold exhausted in *. by rewrite Hm, Hr, Hn, Ht, Hstop in Hbody.
Qed.

(** A call of [iterate] never lowers the evaluation counter, and never
    takes it beyond a maximum it was within. *)
Lemma fep_iterate_budget self a h h' self' :
  FEP.iterate clock self a h = Some (h', self') →
  let o := FEP.base self in
  let o' := FEP.base self' in
  max_function_evaluations o' = max_function_evaluations o
  ∧ n_function_evaluations o ≤ n_function_evaluations o'
  ∧ ∀ m, max_function_evaluations o = Some m →
         n_function_evaluations o ≤ m → n_function_evaluations o' ≤ m.
Proof.
  intros Hit o o'. unfold FEP.iterate in Hit.
  apply bind_Some in Hit as (r & Hloop & Hit).
  assert (Hprefix : ∃ j h1 o1,
    for_each (FEP.offspring clock a) (seq 0 j) (h, self)
    = Some (Next (h1, FEP.with_base (λ _, o1) self))
    ∧ max_function_evaluations o' = max_function_evaluations o1
    ∧ n_function_evaluations o' = n_function_evaluations o1).
  { destruct r as [[h1 self1]|[h1 self1]].
    - pose proof Hloop as Hfacts.
      apply fep_offspring_prefix in Hfacts as (o1 & -> & _).
      exists (FEP.n_individuals self), h1, o1. split; [done|].
      do 6 (apply bind_Some in Hit as (? & _ & Hit)).
      apply bind_Some in Hit as ([n_win g] & _ & Hit).
      apply bind_Some in Hit as (h2 & _ & Hit).
      injection Hit as _ <-. subst o'. done.
    - injection Hit as -> ->.
      apply for_each_return in Hloop
        as (ks1 & k & ks2 & [h1 self1] & Hks & Hrun & Hk).
      apply seq_split in Hks as (Hks1 & -> & Hlt). rewrite Hks1 in Hrun.
      pose proof Hrun as Hfacts.
      apply fep_offspring_prefix in Hfacts as (o1 & -> & _).
      apply fep_offspring_inv in Hk.
      destruct (exhausted _ _ _ _); [|by destruct Hk as (? & ? & ? & ? & _)].
      injection Hk as _ ->.
      exists (length ks1), h1, o1. subst o'. done. }
  destruct Hprefix as (j & h1 & o1 & Hrun & Hm' & Hn').
  apply fep_offspring_prefix in Hrun as (o1' & Ho1 & Hact & Hn & _ & _ & Hpolls & _).
  assert (o1' = o1) as ->.
  { apply (f_equal FEP.base) in Ho1. cbn in Ho1. done. }
  fold o in Hact, Hn, Hpolls.
  apply actions_frame in Hact as (Hm & _).
  rewrite Hm', Hn', Hm, Hn. split_and!; [done|lia|].
  intros m Hmax Hle. destruct j as [|j]; [lia|].
  specialize (Hpolls j ltac:(lia)). unfold exhausted in Hpolls.
  rewrite Hmax in Hpolls. apply orb_false_iff in Hpolls as [Hpolls _].
  apply reached_false in Hpolls. lia.
Qed.

End FEP_offspring.

(** ** Termination in the middle of a generation *)

Section Mid_generation.
Context {F G : Type} `{Numeric F} `{RandomSource F G}.
Import Core.
Variable clock : nat → nat.

(** C3. When the budget runs out after [k < n_individuals] offspring of a
    generation — the polls of the first [k] iterations answer false and
    the next one answers true — [iterate] returns without evaluating the
    other [n_individuals - k] candidates: the evaluation counter and the
    log of evaluations grow by exactly [k]. This holds for [R1ES.iterate]
    on arrays of the shapes of the problem — [z], [mean] and [p] of
    [ndim_problem] entries and [x] of as many columns, without which line
    132 raises — where moreover the rows from [k] on of [x] and [y] are
    left as they were, and for [FEP.iterate]. *)
Theorem budget_exhausted_mid_generation :
  (∀ (self : R1ES.R1ES F G) (x : list (list F)) (mean p y : list F) (k : nat),
     let o := R1ES.core self in
     lawful_normal →
     conformable (ndim_problem o) x mean p →
     k < ES.n_individuals (R1ES.es self) →
     ES.n_individuals (R1ES.es self) ≤ length x →
     ES.n_individuals (R1ES.es self) ≤ length y →
     (∀ i, i < k →
        exhausted clock o (n_function_evaluations o + i) (ticks o + i) = false) →
     exhausted clock o (n_function_evaluations o + k) (ticks o + k) = true →
     ∃ self' x' y',
       R1ES.iterate clock self x mean p y = Some (self', x', y')
       ∧ n_function_evaluations (R1ES.core self') = n_function_evaluations o + k
       ∧ length (evaluations (trace (R1ES.core self')))
         = length (evaluations (trace o)) + k
       ∧ (∀ i, k ≤ i → x' !! i = x !! i ∧ y' !! i = y !! i))
  ∧ (∀ (self : FEP.FEP F G) (a : FEP.population) (h : FEP.store F) (k : nat),
       let o := FEP.base self in
       k < FEP.n_individuals self →
       shaped h a (FEP.n_individuals self) (ndim_problem o) →
       (∀ i, i < k →
          exhausted clock o (n_function_evaluations o + i) (ticks o + i) = false) →
       exhausted clock o (n_function_evaluations o + k) (ticks o + k) = true →
       ∃ h' self',
         FEP.iterate clock self a h = Some (h', self')
         ∧ n_function_evaluations (FEP.base self') = n_function_evaluations o + k
         ∧ length (evaluations (trace (FEP.base self')))
           = length (evaluations (trace o)) + k).
Proof.
  split.
  - intros self x mean p y k o Hnormal Hshape Hk Hx Hy Hpolls Hstop.
    by apply iterate_stops_mid_generation.
  - intros self a h k o Hk Hshape Hpolls Hstop.
    destruct (fep_iterate_stops clock self a h k)
      as (h1 & self1 & _ & Hit & Hn & Hev & _); [done..|].
    eexists _, _. split; [exact Hit|]. split; [exact Hn|].
    change (trace (FEP.base (FEP.with_base _ self1)))
      with (trace (FEP.base self1)
            ++ [Polled (exhausted clock (FEP.base self1)
                  (n_function_evaluations (FEP.base self1))
                  (ticks (FEP.base self1)))]).
    rewrite evaluations_app, length_app, Hev. subst o. cbn. lia.
Qed.

(** C10. When the termination check fires at offspring index [k] of
    [FEP.iterate] — the polls of the first [k] iterations answer false and
    the next one answers true — the function returns at once: what it
    returns is the store and the optimizer as the [k] complete iterations
    of the sampling loop left them, with nothing but the last poll added,
    so neither the merge nor the tournament nor the selection has run; and
    when the arrays of the parents are not also passed as arrays of the
    offspring, [x], [sigmas] and [y] hold what they held at the call. *)
Theorem early_return_keeps_the_parents (self : FEP.FEP F G)
    (a : FEP.population) (h : FEP.store F) (k : nat) :
  let o := FEP.base self in
  separate a →
  k < FEP.n_individuals self →
  shaped h a (FEP.n_individuals self) (ndim_problem o) →
  (∀ i, i < k →
     exhausted clock o (n_function_evaluations o + i) (ticks o + i) = false) →
  exhausted clock o (n_function_evaluations o + k) (ticks o + k) = true →
  ∃ h1 self1,
    for_each (FEP.offspring clock a) (seq 0 k) (h, self) = Some (Next (h1, self1))
    ∧ FEP.iterate clock self a h
      = Some (h1, FEP.with_base (λ o, (_check_terminations clock o).2) self1)
    ∧ FEP.mats h1 !! FEP.x a = FEP.mats h !! FEP.x a
    ∧ FEP.mats h1 !! FEP.sigmas a = FEP.mats h !! FEP.sigmas a
    ∧ FEP.vecs h1 !! FEP.y a = FEP.vecs h !! FEP.y a.
Proof.
  intros o Hsep Hk Hshape Hpolls Hstop.
  destruct (fep_iterate_stops clock self a h k)
    as (h1 & self1 & Hrun & Hit & _ & _ & Hsame); [done..|].
  destruct (Hsame Hsep) as (Hx & Hs & Hy).
  exists h1, self1. done.
Qed.

End Mid_generation.

(** ** Restarts *)

Section Restarts.
Context {F G : Type} `{Numeric F} `{RandomSource F G}.
Import Core.

(** C6. [DS._initialize_x] with [is_restart=True] returns a fresh draw of
    the initialization generator, uniform between the initial bounds,
    whatever the point [x] the user supplied; that point is returned only
    by the call with [is_restart=False], which draws only when there is no
    such point. *)
Theorem restart_draws_a_fresh_point (self : DS.DS F G) :
  let o := DS.base self in
  let draw := uniform (initial_lower_boundary o) (initial_upper_boundary o)
                (rng_initialization o) in
  let fresh := (draw.1, DS.with_base (set_rng_initialization draw.2) self) in
  DS._initialize_x self true = fresh
  ∧ DS._initialize_x self false
    = match DS.x self with
      | Some x => (x, self)
      | None => fresh
      end.
Proof.
  intros o draw fresh. subst fresh draw o. unfold DS._initialize_x.
  split.
  - cbn. by destruct (uniform _ _ _).
  - destruct (DS.x self) as [x|]; cbn; [done|].
    by destruct (uniform _ _ _).
Qed.

Lemma _initialize_mean_restart (e : ES.ES F G) :
  (ES._initialize_mean e true).1
  = (uniform (initial_lower_boundary (ES.base e))
       (initial_upper_boundary (ES.base e))
       (rng_initialization (ES.base e))).1.
Proof.
  unfold ES._initialize_mean. destruct (ES.mean e); by destruct (uniform _ _ _).
Qed.

Lemma ES_restart_reinitialize_fired (e : ES.ES F G) :
  (ES.restart_reinitialize e).1 = true →
  (ES.restart_reinitialize e).2
  = ES.set__fitness_list [best_so_far_y (ES.base e)]
      (ES.set_sigma (ES._sigma_bak e) (ES.set_n_restart (ES.n_restart e + 1) e)).
Proof. unfold ES.restart_reinitialize. by case_match. Qed.

(** C5. A restart of [R1ES] leaves the generation counter as it is and
    does not reset the evaluation counter, which grows by the one
    evaluation of the new mean; the restart counter grows by one and
    [d_sigma] is doubled; what is reset is the state of the search
    distribution: a mean drawn afresh, the principal direction zero, the
    cumulative rank rate zero, the fitness vector that of the new mean and
    the step-size the one of the construction; the settings stay. When the
    restart controller does not fire, the counters, [d_sigma] and the
    state of the distribution are all left as they are. *)
Theorem restart_keeps_the_counters (l l' : R1ES.locals F G) :
  R1ES.restart_reinitialize l = Some l' →
  let self := R1ES.l_self l in
  let self' := R1ES.l_self l' in
  let o := R1ES.core self in
  if (ES.restart_reinitialize (R1ES.es self)).1 then
    n_function_evaluations (R1ES.core self') = n_function_evaluations o + 1
    ∧ ES._n_generations (R1ES.es self') = ES._n_generations (R1ES.es self)
    ∧ ES.n_restart (R1ES.es self') = ES.n_restart (R1ES.es self) + 1
    ∧ R1ES.d_sigma self' = fmul (R1ES.d_sigma self) (fconst 2.0)
    ∧ R1ES.l_mean l'
      = (uniform (initial_lower_boundary o) (initial_upper_boundary o)
           (rng_initialization o)).1
    ∧ R1ES.l_p l' = np_zeros (ndim_problem o)
    ∧ R1ES.l_s l' = fconst 0.0
    ∧ R1ES.l_y l' = replicate (ES.n_individuals (R1ES.es self))
                      (fitness_function o (R1ES.l_mean l'))
    ∧ ES.sigma (R1ES.es self') = ES._sigma_bak (R1ES.es self)
    ∧ settings self' = settings self
  else
    n_function_evaluations (R1ES.core self') = n_function_evaluations o
    ∧ ES._n_generations (R1ES.es self') = ES._n_generations (R1ES.es self)
    ∧ ES.n_restart (R1ES.es self') = ES.n_restart (R1ES.es self)
    ∧ R1ES.d_sigma self' = R1ES.d_sigma self
    ∧ ES.sigma (R1ES.es self') = ES.sigma (R1ES.es self)
    ∧ R1ES.l_x l' = R1ES.l_x l ∧ R1ES.l_mean l' = R1ES.l_mean l
    ∧ R1ES.l_p l' = R1ES.l_p l ∧ R1ES.l_s l' = R1ES.l_s l
    ∧ R1ES.l_y l' = R1ES.l_y l.
Proof.
  intros Hr self self' o. subst self'.
  destruct (ES.restart_reinitialize (R1ES.es self)).1 eqn:Hfired.
  - apply restart_reinitialize_fired in Hr
      as (-> & _ & -> & -> & -> & -> & _); [|done].
    fold self.
    assert (Hself0 : R1ES.with_es (λ e, (ES.restart_reinitialize e).2) self
              = R1ES.with_es
                  (λ e, ES.set__fitness_list [best_so_far_y (ES.base e)]
                          (ES.set_sigma (ES._sigma_bak e)
                             (ES.set_n_restart (ES.n_restart e + 1) e))) self).
    { unfold R1ES.with_es. by rewrite ES_restart_reinitialize_fired. }
    rewrite Hself0.
    match goal with
    | |- context [R1ES.initialize ?s true] =>
        destruct (initialize_unfold s true) as [g ->]
    end.
    rewrite _initialize_mean_restart. cbn. split_and!; reflexivity.
  - rewrite restart_reinitialize_idle in Hr by done. injection Hr as <-.
    cbn. split_and!; reflexivity.
Qed.

End Restarts.

(** ** R1ES: a whole run *)

Section R1ES_run.
Context {F G : Type} `{Numeric F} `{RandomSource F G}.
Import Core.
Variable clock : nat → nat.
Implicit Types (self : R1ES.R1ES F G) (l : R1ES.locals F G).

Lemma settings_limits self self' :
  settings self' = settings self →
  max_function_evaluations (R1ES.core self')
  = max_function_evaluations (R1ES.core self)
  ∧ max_runtime (R1ES.core self') = max_runtime (R1ES.core self).
Proof. unfold settings. intros Hs. by simplify_eq. Qed.

Lemma core_set_d_sigma v self :
  R1ES.core (R1ES.set_d_sigma v self) = R1ES.core self.
Proof. reflexivity. Qed.

Lemma core_with_core (f : Optimizer F G → Optimizer F G) self :
  R1ES.core (R1ES.with_core f self) = f (R1ES.core self).
Proof. reflexivity. Qed.

Lemma core_set__p_2__rr p2 rr self :
  R1ES.core (R1ES.set__p_2__rr p2 rr self) = R1ES.core self.
Proof. reflexivity. Qed.

Lemma core_ES_restart_reinitialize self :
  R1ES.core (R1ES.with_es (λ e, (ES.restart_reinitialize e).2) self)
  = R1ES.core self.
Proof.
  unfold R1ES.core, R1ES.with_es, ES.restart_reinitialize. cbn.
  by case_match.
Qed.

(** What one turn of the loop does to the attributes of the core: the
    actions of [iterate], the poll of line 174 and, when the loop goes on
    and a restart fires, the evaluation of the new mean. *)
Lemma generation_core l r :
  R1ES.generation clock l = Some r →
  ∃ self1 x1 y1,
    R1ES.iterate clock (R1ES.l_self l) (R1ES.l_x l) (R1ES.l_mean l)
      (R1ES.l_p l) (R1ES.l_y l) = Some (self1, x1, y1)
    ∧ let o1 := R1ES.core self1 in
      let o2 := (_check_terminations clock o1).2 in
      let o' := R1ES.core (R1ES.l_self (flow_state r)) in
      if exhausted clock o1 (n_function_evaluations o1) (ticks o1) then
        (∃ l', r = Return l') ∧ o' = o2
      else
        (∃ l', r = Next l')
        ∧ (o' = o2
           ∨ ∃ g mean, o' = (_evaluate_fitness (set_rng_initialization g o2) mean).2).
Proof.
  intros (self1 & x1 & y1 & Hit & Hg)%generation_inv.
  exists self1, x1, y1. split; [done|]. cbn zeta in *.
  destruct (exhausted _ _ _ _).
  { subst r. split; [eauto|done]. }
  destruct Hg as (self3 & mean3 & p3 & s3 & y3 & Hu & Hg).
  apply _update_distribution_unfold in Hu as [_ ->].
  change (ES.is_restart (R1ES.es (R1ES.with_es _ (R1ES.with_core _ self1))))
    with (ES.is_restart (R1ES.es self1)) in Hg.
  destruct (ES.is_restart _); [|subst r; split; [eauto|by left]].
  destruct Hg as (l' & Hr & ->). split; [eauto|]. cbn [flow_state].
  match type of Hr with R1ES.restart_reinitialize ?l3 = _ => set (l3' := l3) in * end.
  destruct (ES.restart_reinitialize (R1ES.es (R1ES.l_self l3'))).1 eqn:Hfired.
  - apply restart_reinitialize_fired in Hr as (-> & _); [|done].
    match goal with
    | |- context [R1ES.initialize ?s true] =>
        destruct (initialize_unfold s true) as [g ->]
    end.
    right. eexists g, _. cbn [fst snd].
    rewrite core_set_d_sigma, core_with_core, core_set__p_2__rr,
      core_ES_restart_reinitialize.
    reflexivity.
  - rewrite restart_reinitialize_idle in Hr by done. injection Hr as <-.
    by left.
Qed.

(** A turn of the loop keeps the evaluation counter within any bound that
    is at least the maximal number of evaluations. *)
Lemma generation_budget l r (m M : nat) :
  max_function_evaluations (R1ES.core (R1ES.l_self l)) = Some m → m ≤ M →
  n_function_evaluations (R1ES.core (R1ES.l_self l)) ≤ M →
  R1ES.generation clock l = Some r →
  n_function_evaluations (R1ES.core (R1ES.l_self (flow_state r))) ≤ M.
Proof.
  intros Hmax HmM Hn (self1 & x1 & y1 & Hit & Hg)%generation_core.
  cbn zeta in Hg.
  pose proof (iterate_progresses clock _ _ _ _ _ _ _ _ Hit) as [Hset _].
  apply settings_limits in Hset as [Hmax1 _]. rewrite Hmax in Hmax1.
  apply iterate_effect in Hit as (j & _ & Hn1 & Hpolls & _).
  assert (Hn1' : n_function_evaluations (R1ES.core self1) ≤ M).
  { rewrite Hn1. destruct j as [|j]; [lia|].
    specialize (Hpolls j ltac:(lia)). unfold exhausted in Hpolls.
    rewrite Hmax in Hpolls. apply orb_false_iff in Hpolls as [Hpolls _].
    apply reached_false in Hpolls. lia. }
  destruct (exhausted _ _ _ _) eqn:Hstop.
  { destruct Hg as [_ ->]. done. }
  unfold exhausted in Hstop. rewrite Hmax1 in Hstop.
  apply orb_false_iff in Hstop as [Hstop _]. apply reached_false in Hstop.
  destruct Hg as [_ [->|(g & mean & ->)]]; cbn; lia.
Qed.

(** A turn of the loop that starts with a clean log goes on with a clean
    log, or breaks out with a quiet one. *)
Lemma generation_quiet l r :
  (∀ i j, i ≤ j → clock i ≤ clock j) →
  clean (trace (R1ES.core (R1ES.l_self l))) →
  R1ES.generation clock l = Some r →
  match r with
  | Next l' => clean (trace (R1ES.core (R1ES.l_self l')))
  | Return l' => quiet (trace (R1ES.core (R1ES.l_self l')))
  end.
Proof.
  intros Hclock Hclean (self1 & x1 & y1 & Hit & Hg)%generation_core.
  cbn zeta in Hg.
  apply iterate_effect
    in Hit as (j & _ & _ & _ & _ & Htr & _ & _ & _ & _ & _ & Hspent & _).
  set (o1 := R1ES.core self1) in *.
  assert (Ho2 : trace (_check_terminations clock o1).2
                = trace o1 ++ [Polled (exhausted clock o1
                                 (n_function_evaluations o1) (ticks o1))])
    by reflexivity.
  destruct (decide (j < ES.n_individuals (R1ES.es (R1ES.l_self l)))) as [Hj|Hj].
  - (* iterate returned on a poll: the poll of line 174 answers true too *)
    rewrite (spent_exhausted clock o1) in Hg, Ho2 by auto.
    destruct Hg as [[l' ->] Ho']. cbn [flow_state] in Ho'.
    rewrite Ho', Ho2, Htr.
    rewrite <- !app_assoc, (app_assoc (trace _)).
    apply clean_then_silent_quiet; [|done].
    apply clean_app. split; [done|]. apply clean_polled_evaluations.
  - assert (Hclean1 : clean (trace o1)).
    { rewrite Htr, app_nil_r. apply clean_app. split; [done|].
      apply clean_polled_evaluations. }
    destruct (exhausted clock o1 _ _) eqn:Hstop.
    + destruct Hg as [[l' ->] Ho']. cbn [flow_state] in Ho'.
      rewrite Ho', Ho2. by apply clean_then_silent_quiet.
    + assert (Hclean2 : clean (trace (_check_terminations clock o1).2)).
      { rewrite Ho2. apply clean_app. split; [done|].
        unfold clean. by intros ?%list_elem_of_singleton. }
      destruct Hg as [[l' ->] [Ho'|(g & mean & Ho')]]; cbn [flow_state] in Ho';
        rewrite Ho'; [done|].
      change (trace (_evaluate_fitness _ mean).2)
        with (trace (_check_terminations clock o1).2 ++ [Evaluated mean]).
      apply clean_app. split; [done|].
      unfold clean. by intros ?%list_elem_of_singleton.
Qed.

(** What the statements before the loop do to the attributes of the
    core. *)
Lemma prologue_core self fitness l0 :
  R1ES.prologue self fitness = Some l0 →
  let o := R1ES.core self in
  let o0 := R1ES.core (R1ES.l_self l0) in
  n_function_evaluations o0 = n_function_evaluations o + 1
  ∧ trace o0 = trace o ++ [Evaluated (R1ES.l_mean l0)]
  ∧ max_function_evaluations o0 = max_function_evaluations o
  ∧ max_runtime o0 = max_runtime o
  ∧ not_above (best_so_far_y o0) (best_so_far_y o).
Proof.
  intros (Hself & _ & Hmean & _)%prologue_inv o o0. subst o0.
  rewrite Hself, Hmean.
  match goal with
  | |- context [R1ES.initialize ?s false] =>
      destruct (initialize_unfold s false) as [g ->]
  end.
  unfold not_above, R1ES.core, ES.optimize.
  destruct fitness as [f|]; cbn; (split_and!; [reflexivity..|]);
    destruct (fltb _ _) eqn:Hlt; auto.
Qed.

End R1ES_run.

(** ** R1ES: runs under two clocks *)

Section Two_clocks.
Context {F G : Type} `{Numeric F} `{RandomSource F G}.
Import Core.
Variables clock1 clock2 : nat → nat.
Implicit Types (self : R1ES.R1ES F G) (l : R1ES.locals F G).

(** Without a maximal runtime the answer of the termination check does
    not depend on the clock. *)
Lemma _check_terminations_clock (o : Optimizer F G) :
  max_runtime o = None →
  _check_terminations clock1 o = _check_terminations clock2 o.
Proof. intros Hr. unfold _check_terminations. by rewrite Hr. Qed.

Lemma offspring_clock mean p k self x y :
  max_runtime (R1ES.core self) = None →
  R1ES.offspring clock1 mean p k (self, x, y)
  = R1ES.offspring clock2 mean p k (self, x, y).
Proof.
  intros Hr. unfold R1ES.offspring.
  by rewrite (_check_terminations_clock (R1ES.core self)).
Qed.

Lemma iterate_clock self x mean p y :
  max_runtime (R1ES.core self) = None →
  R1ES.iterate clock1 self x mean p y = R1ES.iterate clock2 self x mean p y.
Proof.
  intros Hr. unfold R1ES.iterate. f_equal.
  apply (for_each_ext (λ st, max_runtime (R1ES.core st.1.1) = None)); [..|done].
  - intros k [[self1 x1] y1] Hr1. by apply offspring_clock.
  - intros k [[self1 x1] y1] [[self2 x2] y2] Hr1 Hbody.
    rewrite offspring_unfold in Hbody.
    destruct (exhausted _ _ _ _); [done|].
    destruct (_ ≫= _) as [c|]; [|done]. case_decide; [|done].
    injection Hbody as <- _ _. exact Hr1.
Qed.

Lemma generation_clock l :
  max_runtime (R1ES.core (R1ES.l_self l)) = None →
  R1ES.generation clock1 l = R1ES.generation clock2 l.
Proof.
  intros Hr. unfold R1ES.generation. rewrite iterate_clock by done.
  destruct (R1ES.iterate clock2 _ _ _ _ _) as [[[self1 x1] y1]|] eqn:Hit;
    [|done].
  cbn [mbind option_bind].
  apply (iterate_progresses clock2) in Hit as [Hset _].
  apply settings_limits in Hset as [_ Hr1]. rewrite Hr in Hr1.
  by rewrite (_check_terminations_clock (R1ES.core self1)).
Qed.

Lemma generations_clock fuel l :
  max_runtime (R1ES.core (R1ES.l_self l)) = None →
  R1ES.generations clock1 fuel l = R1ES.generations clock2 fuel l.
Proof.
  revert l. induction fuel as [|fuel IH]; intros l Hr; [done|].
  cbn. rewrite generation_clock by done.
  destruct (R1ES.generation clock2 l) as [[l'|l']|] eqn:Hg; [|done..].
  apply IH.
  apply (generation_progresses clock2) in Hg as [Hset _].
  apply settings_limits in Hset as [_ Hr1]. cbn in Hr1. congruence.
Qed.

(** C4, as amended. When no maximal runtime is set, a run of [optimize]
    is a function of the optimizer it starts from — its configuration and
    the states of its two seeded generators — and of the fitness function
    alone: under any two wall clocks it ends the same way, and returns the
    same results when it returns. *)
Theorem runs_without_time_limit_agree (fuel : nat) self
    (fitness : option (list F → F)) :
  max_runtime (R1ES.core self) = None →
  R1ES.optimize clock1 fuel self fitness = R1ES.optimize clock2 fuel self fitness.
Proof.
  intros Hr. unfold R1ES.optimize.
  destruct (R1ES.prologue self fitness) as [l0|] eqn:Hpro; [|done].
  apply prologue_core in Hpro as (_ & _ & _ & Hr0 & _).
  rewrite generations_clock by congruence. done.
Qed.

End Two_clocks.

(** ** R1ES: the counters and the best value over a run *)

Section R1ES_invariants.
Context {F G : Type} `{Numeric F} `{RandomSource F G}.
Import Core.
Variable clock : nat → nat.
Implicit Types (self : R1ES.R1ES F G) (l : R1ES.locals F G).

Lemma generations_budget fuel l l' (m M : nat) :
  max_function_evaluations (R1ES.core (R1ES.l_self l)) = Some m → m ≤ M →
  n_function_evaluations (R1ES.core (R1ES.l_self l)) ≤ M →
  R1ES.generations clock fuel l = Returns l' →
  n_function_evaluations (R1ES.core (R1ES.l_self l')) ≤ M.
Proof.
  intros Hmax HmM. revert l Hmax.
  induction fuel as [|fuel IH]; intros l Hmax Hn Hrun; cbn in Hrun; [done|].
  destruct (R1ES.generation clock l) as [[l1|l1]|] eqn:Hg; [..|done].
  - apply (IH l1); [| |done].
    + apply generation_progresses in Hg as [Hset _].
      apply settings_limits in Hset as [Hmax1 _]. cbn in Hmax1. congruence.
    + by apply (generation_budget clock l (Next l1) m M).
  - injection Hrun as <-. by apply (generation_budget clock l (Return l1) m M).
Qed.

Lemma generations_quiet fuel l l' :
  (∀ i j, i ≤ j → clock i ≤ clock j) →
  clean (trace (R1ES.core (R1ES.l_self l))) →
  R1ES.generations clock fuel l = Returns l' →
  quiet (trace (R1ES.core (R1ES.l_self l'))).
Proof.
  intros Hclock. revert l.
  induction fuel as [|fuel IH]; intros l Hclean Hrun; cbn in Hrun; [done|].
  destruct (R1ES.generation clock l) as [[l1|l1]|] eqn:Hg; [..|done].
  - apply (IH l1); [|done]. by apply (generation_quiet clock l (Next l1)).
  - injection Hrun as <-. by apply (generation_quiet clock l (Return l1)).
Qed.

(** C1, as amended. The evaluation counter never decreases: not over a
    turn of the loop of [R1ES.optimize], not over a whole run, not over a
    call of [FEP.iterate]. The sampling loops poll the termination check
    before each of their evaluations, so [FEP.iterate] never takes the
    counter beyond a maximum it was within; [initialize] evaluates the
    mean without a poll, so the [n_function_evaluations] that
    [R1ES.optimize] returns is at most the larger of
    [max_function_evaluations] and the count at the call plus one. And
    under a clock that does not run backwards no evaluation follows a
    poll that answered true. *)
Theorem evaluation_counter_within_budget (fuel : nat) self
    (fitness : option (list F → F)) l0 l :
  R1ES.prologue self fitness = Some l0 →
  R1ES.generations clock fuel l0 = Returns l →
  let o := R1ES.core self in
  let o' := R1ES.core (R1ES.l_self l) in
  let returned := ES.r_n_function_evaluations (R1ES.collected (R1ES.epilogue l)) in
  R1ES.optimize clock fuel self fitness = Returns (R1ES.epilogue l)
  ∧ returned = n_function_evaluations o'
  ∧ n_function_evaluations o ≤ returned
  ∧ (∀ m, max_function_evaluations o = Some m →
          returned ≤ Nat.max m (n_function_evaluations o + 1))
  ∧ ((∀ i j, i ≤ j → clock i ≤ clock j) → clean (trace o) → quiet (trace o'))
  ∧ (∀ l1 r, R1ES.generation clock l1 = Some r →
             n_function_evaluations (R1ES.core (R1ES.l_self l1))
             ≤ n_function_evaluations (R1ES.core (R1ES.l_self (flow_state r))))
  ∧ (∀ (fep fep' : FEP.FEP F G) (a : FEP.population) (h h' : FEP.store F),
       FEP.iterate clock fep a h = Some (h', fep') →
       n_function_evaluations (FEP.base fep)
       ≤ n_function_evaluations (FEP.base fep')
       ∧ ∀ m, max_function_evaluations (FEP.base fep) = Some m →
              n_function_evaluations (FEP.base fep) ≤ m →
              n_function_evaluations (FEP.base fep') ≤ m).
Proof.
  intros Hpro Hrun o o' returned.
  pose proof (prologue_core _ _ _ Hpro) as (Hn0 & Htr0 & Hmax0 & _).
  assert (Hret : returned = n_function_evaluations o') by reflexivity.
  clearbody returned. subst returned o o'.
  split_and!.
  - unfold R1ES.optimize. by rewrite Hpro, Hrun.
  - reflexivity.
  - apply generations_progresses in Hrun as [_ Hact].
    apply actions_frame in Hact as (_ & _ & _ & _ & _ & _ & Hle & _). lia.
  - intros m Hmax.
    apply (generations_budget fuel l0 l m); [congruence|lia| |done].
    rewrite Hn0. lia.
  - intros Hclock Hclean.
    apply (generations_quiet fuel l0 l); [done| |done].
    rewrite Htr0. apply clean_app. split; [done|].
    unfold clean. by intros ?%list_elem_of_singleton.
  - intros l1 r Hg. apply generation_progresses in Hg as [_ Hact].
    by apply actions_frame in Hact as (_ & _ & _ & _ & _ & _ & Hle & _).
  - intros fep fep' a h h' Hit.
    apply fep_iterate_budget in Hit as (_ & Hle & Hbound). done.
Qed.

Lemma progresses_not_above self self' :
  (∀ a b c : F, fltb a b = true → fltb b c = true → fltb a c = true) →
  progresses clock self self' →
  not_above (best_so_far_y (R1ES.core self')) (best_so_far_y (R1ES.core self)).
Proof.
  intros Htrans [_ Hact].
  by apply actions_effect in Hact as (_ & _ & _ & _ & _ & _ & _ & _ & Hb).
Qed.

Lemma not_above_trans (a b c : F) :
  (∀ a b c : F, fltb a b = true → fltb b c = true → fltb a c = true) →
  not_above a b → not_above b c → not_above a c.
Proof.
  unfold not_above. intros Htrans [->|Hab] [->|Hbc]; eauto.
Qed.

(** C2. If [<] on the fitness values is transitive, the best-so-far value
    never increases: each value of [best_so_far_y] is the one before or a
    value below it, from the call of [optimize] to the first generation,
    from each generation to the next (across the restart that the turn may
    end with), over a restart by itself, and from the call to the value
    that [optimize] returns. *)
Theorem best_so_far_never_increases :
  (∀ a b c : F, fltb a b = true → fltb b c = true → fltb a c = true) →
  (∀ self fitness l0,
     R1ES.prologue self fitness = Some l0 →
     not_above (best_so_far_y (R1ES.core (R1ES.l_self l0)))
       (best_so_far_y (R1ES.core self)))
  ∧ (∀ l r,
       R1ES.generation clock l = Some r →
       not_above (best_so_far_y (R1ES.core (R1ES.l_self (flow_state r))))
         (best_so_far_y (R1ES.core (R1ES.l_self l))))
  ∧ (∀ l l',
       R1ES.restart_reinitialize l = Some l' →
       not_above (best_so_far_y (R1ES.core (R1ES.l_self l')))
         (best_so_far_y (R1ES.core (R1ES.l_self l))))
  ∧ (∀ fuel self fitness res,
       R1ES.optimize clock fuel self fitness = Returns res →
       not_above (ES.r_best_so_far_y (R1ES.collected res))
         (best_so_far_y (R1ES.core self))).
Proof.
  intros Htrans. split_and!.
  - intros self fitness l0 Hpro.
    by apply prologue_core in Hpro as (_ & _ & _ & _ & Hb).
  - intros l r Hg. apply progresses_not_above; [done|].
    by apply generation_progresses.
  - intros l l' Hr. apply progresses_not_above; [done|].
    by apply restart_reinitialize_progresses.
  - intros fuel self fitness res Hopt. unfold R1ES.optimize in Hopt.
    destruct (R1ES.prologue self fitness) as [l0|] eqn:Hpro; [|done].
    destruct (R1ES.generations clock fuel l0) as [l| |] eqn:Hrun; [|done..].
    injection Hopt as <-. cbn.
    eapply not_above_trans; [done| |].
    + apply progresses_not_above; [done|]. by eapply generations_progresses.
    + by apply prologue_core in Hpro as (_ & _ & _ & _ & Hb).
Qed.

End R1ES_invariants.

(** ** R1ES: the rank differences of the step-size rule *)

Section R1ES_ranks.
Context {F G : Type} `{Numeric F} `{RandomSource F G}.
Import Core.

Lemma length_ranks_from (P : nat → bool) (a : nat) (r : list nat) :
  length (ranks_from P a r) = length (filter (λ i, P i = true) r).
Proof.
  revert a. induction r as [|i r IH]; intros a; [done|].
  cbn [ranks_from]. rewrite filter_cons. destruct (P i) eqn:HP.
  - rewrite decide_True by done. cbn. by rewrite IH.
  - rewrite decide_False by congruence. apply IH.
Qed.

(** The rank of the [k]-th entry that satisfies [P] is [k] plus the
    number of entries before it that do not. *)
Lemma ranks_from_bounds (P : nat → bool) (r : list nat) : ∀ (a k pos : nat),
  ranks_from P a r !! k = Some pos →
  a + k ≤ pos ∧ pos ≤ a + k + length (filter (λ i, P i = false) r).
Proof.
  induction r as [|i r IH]; intros a k pos Hpos; [done|].
  cbn [ranks_from] in Hpos. rewrite filter_cons. destruct (P i) eqn:HP.
  - rewrite decide_False by congruence. destruct k as [|k].
    + injection Hpos as <-. lia.
    + apply IH in Hpos. lia.
  - rewrite decide_True by done. apply IH in Hpos. cbn. lia.
Qed.

Lemma filter_below_seq (n : nat) :
  length (filter (λ i, bool_decide (i < n) = true) (seq 0 (n + n))) = n
  ∧ length (filter (λ i, bool_decide (i < n) = false) (seq 0 (n + n))) = n.
Proof.
  rewrite seq_app, !filter_app, !length_app. cbn [plus].
  assert (∀ a m, a + m ≤ n →
            filter (λ i, bool_decide (i < n) = true) (seq a m) = seq a m
            ∧ filter (λ i, bool_decide (i < n) = false) (seq a m) = []) as Hlow.
  { intros a m. revert a. induction m as [|m IH]; intros a Ha; [done|].
    cbn [seq]. rewrite !filter_cons.
    rewrite (bool_decide_eq_true_2 (a < n)) by lia.
    rewrite decide_True, decide_False by done.
    destruct (IH (S a)) as [-> ->]; [lia|done]. }
  assert (∀ a m, n ≤ a →
            filter (λ i, bool_decide (i < n) = true) (seq a m) = []
            ∧ filter (λ i, bool_decide (i < n) = false) (seq a m) = seq a m) as Hhigh.
  { intros a m. revert a. induction m as [|m IH]; intros a Ha; [done|].
    cbn [seq]. rewrite !filter_cons.
    rewrite (bool_decide_eq_false_2 (a < n)) by lia.
    rewrite decide_False, decide_True by done.
    destruct (IH (S a)) as [-> ->]; [lia|done]. }
  destruct (Hlow 0 n) as [-> ->]; [lia|].
  destruct (Hhigh n n) as [-> ->]; [lia|].
  rewrite !length_seq. cbn. lia.
Qed.

(** In an order of [2n] values, [n] entries are indices of the first
    half and [n] of the second. *)
Lemma filter_below_order (n : nat) (r : list nat) :
  r ≡ₚ seq 0 (n + n) →
  length (filter (λ i, bool_decide (i < n) = true) r) = n
  ∧ length (filter (λ i, bool_decide (i < n) = false) r) = n.
Proof. intros ->. apply filter_below_seq. Qed.

Lemma filter_not_below (n : nat) (r : list nat) :
  filter (λ i, bool_decide (n ≤ i) = true) r
  = filter (λ i, bool_decide (i < n) = false) r
  ∧ filter (λ i, bool_decide (n ≤ i) = false) r
    = filter (λ i, bool_decide (i < n) = true) r.
Proof.
  split; apply list_filter_iff; intros i;
    rewrite ?bool_decide_eq_true, ?bool_decide_eq_false; lia.
Qed.

(** On an order of [2n] values the two masks of line 147 select [n]
    ranks each, and the subtraction is elementwise. *)
Lemma rank_differences_order (self : R1ES.R1ES F G) (r : list nat) :
  let n := ES.n_parents (R1ES.es self) in
  r ≡ₚ seq 0 (n + n) →
  R1ES._rr self = Some (S <$> seq 0 (n * 2)) →
  let previous := ranks_from (λ i, bool_decide (i < n)) 1 r in
  let current := ranks_from (λ i, bool_decide (n ≤ i)) 1 r in
  R1ES.rank_differences self r
  = Some (zip_with Z.sub (Z.of_nat <$> previous) (Z.of_nat <$> current))
  ∧ length previous = n ∧ length current = n.
Proof.
  intros n Hr Hrr previous current.
  assert (length r = n * 2) as Hlen.
  { rewrite Hr, length_seq. lia. }
  destruct (filter_below_order n r Hr) as [Hlow Hhigh].
  destruct (filter_not_below n r) as [Hge Hnge].
  assert (length previous = n) as Hprevious.
  { subst previous. by rewrite length_ranks_from. }
  assert (length current = n) as Hcurrent.
  { subst current. rewrite length_ranks_from. cbn beta. by rewrite Hge. }
  split; [|done].
  unfold R1ES.rank_differences. rewrite Hrr. cbn [mbind option_bind].
  rewrite decide_True by (by rewrite length_fmap, length_seq).
  cbn zeta. change (ES.n_parents (R1ES.es self)) with n.
  rewrite <- Hlen, !mask_select_ranks. fold previous current.
  rewrite decide_True by (left; rewrite !length_fmap; congruence).
  rewrite broadcast_same by (rewrite !length_fmap; congruence). done.
Qed.

(** The rank differences of line 147 are well formed and bounded: when
    [argsort] returns a permutation, each of the two masks selects
    [n_parents] ranks, so that the subtraction is one of two arrays of
    [n_parents] entries, and every difference lies between [-n_parents]
    and [n_parents]. *)
Theorem rank_differences_bounded (self : R1ES.R1ES F G) (y_bak y : list F) :
  let n := ES.n_parents (R1ES.es self) in
  argsort_permutes →
  R1ES._rr self = Some (S <$> seq 0 (n * 2)) →
  n ≤ length y_bak → n ≤ length y →
  ∃ rr,
    R1ES.rank_differences self (np_argsort (take n y_bak ++ take n y)) = Some rr
    ∧ length rr = n
    ∧ ∀ d, d ∈ rr → (- Z.of_nat n ≤ d ≤ Z.of_nat n)%Z.
Proof.
  intros n Hperm Hrr Hbak Hy.
  set (r := np_argsort (take n y_bak ++ take n y)).
  assert (r ≡ₚ seq 0 (n + n)) as Hr.
  { subst r. rewrite Hperm, length_app, !length_take.
    by replace (n `min` length y_bak + n `min` length y) with (n + n) by lia. }
  destruct (filter_below_order n r Hr) as [Hlow Hhigh].
  destruct (filter_not_below n r) as [Hge Hnge].
  destruct (rank_differences_order self r Hr Hrr) as (-> & Hprevious & Hcurrent).
  eexists. split; [done|].
  split.
  - rewrite length_zip_with, !length_fmap, Hprevious, Hcurrent.
    subst n. lia.
  - intros d (k & Hd)%list_elem_of_lookup_1.
    apply lookup_zip_with_Some in Hd as (a & b & -> & Ha & Hb).
    apply list_lookup_fmap_Some in Ha as (pa & -> & Ha).
    apply list_lookup_fmap_Some in Hb as (pb & -> & Hb).
    apply ranks_from_bounds in Ha, Hb. cbn beta in Ha, Hb.
    fold n in Ha, Hb.
    rewrite Hhigh in Ha. rewrite Hnge, Hlow in Hb. lia.
Qed.

End R1ES_ranks.

(** ** R1ES: the shapes of the local variables *)

Section R1ES_shapes.
Context {F G : Type} `{Numeric F} `{RandomSource F G}.
Import Core.
Variable clock : nat → nat.
Implicit Types (self : R1ES.R1ES F G) (l : R1ES.locals F G).

Lemma stored_point_length self mean p g row c :
  stored_point self mean p g row = Some c → length c = length row.
Proof.
  unfold stored_point. destruct (samples _ _) as [z r].
  intros Hs. apply bind_Some in Hs as (direction & _ & Hs).
  apply bind_Some in Hs as (candidate & _ & Hs).
  by apply length_np_assign in Hs.
Qed.

(** The assignment of line 132 keeps the shape of [x]. *)
Lemma offspring_columns mean p k self x y r (d : nat) :
  (∀ i row, x !! i = Some row → length row = d) →
  R1ES.offspring clock mean p k (self, x, y) = Some r →
  ∀ i row, (flow_state r).1.2 !! i = Some row → length row = d.
Proof.
  intros Hrows Hr. rewrite offspring_unfold in Hr.
  destruct (exhausted _ _ _ _). { by simplify_eq. }
  destruct (x !! k) as [row0|] eqn:Hk; [|done].
  cbn [mbind option_bind] in Hr.
  destruct (stored_point _ _ _ _ _) as [c|] eqn:Hc; [|done].
  case_decide; [|done]. simplify_eq. cbn.
  apply stored_point_length in Hc.
  intros i row Hi. destruct (decide (i = k)) as [Hik|Hne].
  - subst i. rewrite list_lookup_insert_eq in Hi by (by eapply lookup_lt_Some).
    simplify_eq. rewrite Hc. eauto.
  - rewrite list_lookup_insert_ne in Hi by done. eauto.
Qed.

Lemma iterate_columns self x mean p y self' x' y' (d : nat) :
  R1ES.iterate clock self x mean p y = Some (self', x', y') →
  (∀ i row, x !! i = Some row → length row = d) →
  ∀ i row, x' !! i = Some row → length row = d.
Proof.
  unfold R1ES.iterate. intros (r & Hrun & Hr)%fmap_Some Hrows.
  assert (Hinv : ∀ i row, (flow_state r).1.2 !! i = Some row → length row = d).
  { refine (for_each_invariant
              (λ st : R1ES.R1ES F G * list (list F) * list F,
                 ∀ i row, st.1.2 !! i = Some row → length row = d)
              _ _ _ _ _ Hrows Hrun).
    intros k [[self1 x1] y1] r1 _ Hrows1 Hbody.
    exact (offspring_columns _ _ _ _ _ _ _ _ Hrows1 Hbody). }
  by rewrite <- Hr in Hinv.
Qed.

(** [iterate] changes of [self] only the attributes of the core, and
    keeps the sizes of [x] and [y]. *)
Lemma iterate_self self x mean p y self' x' y' :
  R1ES.iterate clock self x mean p y = Some (self', x', y') →
  (∃ o', self' = R1ES.with_core (λ _, o') self)
  ∧ length x' = length x ∧ length y' = length y.
Proof.
  intros (j & self1 & _ & Hrun & Hend)%iterate_inv.
  apply offspring_prefix in Hrun
    as (o1 & -> & _ & _ & _ & _ & _ & _ & _ & Hx & Hy & _).
  split; [|done].
  destruct Hend as [[_ ->]|(_ & _ & ->)]; [by eexists|].
  rewrite with_core_with_core. by eexists.
Qed.

(** [iterate] does not raise when [x] and [y] have a row for every
    offspring and the arrays have the shapes of the problem. *)
Lemma iterate_total self x mean p y :
  lawful_normal →
  conformable (ndim_problem (R1ES.core self)) x mean p →
  ES.n_individuals (R1ES.es self) ≤ length x →
  ES.n_individuals (R1ES.es self) ≤ length y →
  is_Some (R1ES.iterate clock self x mean p y).
Proof.
  intros Hnormal Hshape Hx Hy. unfold R1ES.iterate.
  set (n := ES.n_individuals (R1ES.es self)) in *.
  set (d := ndim_problem (R1ES.core self)) in *.
  destruct (for_each_total
              (λ st : R1ES.R1ES F G * list (list F) * list F,
                 n ≤ length st.1.2 ∧ n ≤ length st.2
                 ∧ ndim_problem (R1ES.core st.1.1) = d
                 ∧ conformable d st.1.2 mean p)
              (R1ES.offspring clock mean p) (seq 0 n) (self, x, y))
    as (r & -> & _); [done| |done].
  intros k [[self1 x1] y1] Hk%elem_of_seq (Hx1 & Hy1 & Hd1 & Hshape1).
  cbn [fst snd] in Hx1, Hy1, Hd1, Hshape1.
  rewrite offspring_unfold.
  destruct (exhausted _ _ _ _); [by eexists|].
  destruct (lookup_lt_is_Some_2 x1 k ltac:(lia)) as [row Hrow].
  rewrite Hrow. cbn [mbind option_bind].
  rewrite <- Hd1 in Hshape1.
  destruct (stored_point_conformable self1 x1 mean p
              (rng_optimization (R1ES.core self1)) row) as [-> Hc]; try done.
  { destruct Hshape1 as (_ & _ & Hrows). eauto. }
  rewrite decide_True by lia. eexists. split; [done|].
  cbn [flow_state fst snd]. rewrite !length_insert.
  split_and!; [done|done|done|].
  rewrite Hd1 in Hshape1, Hc. by apply conformable_insert.
Qed.

(** The loop of lines 140-141 keeps the shape of [mean_w]. *)
Lemma recombine_length self (x : list (list F)) (order : list nat)
    (ks : list nat) (m : list F) r :
  for_each (R1ES.recombine self x order) ks m = Some r →
  length (flow_state r) = length m.
Proof.
  intros Hrun.
  refine (for_each_invariant (λ m' : list F, length m' = length m)
            _ _ _ _ _ eq_refl Hrun).
  intros k m1 r1 _ Hm1 Hbody. unfold R1ES.recombine in Hbody.
  apply bind_Some in Hbody as (w & _ & Hbody).
  apply bind_Some in Hbody as (i & _ & Hbody).
  apply bind_Some in Hbody as (row & _ & Hbody).
  apply fmap_Some in Hbody as (m2 & Hadd%length_np_iadd & ->).
  cbn. congruence.
Qed.

(** [_update_distribution] returns a mean and a direction of the
    dimension of the problem. *)
Lemma _update_distribution_shapes self (x : list (list F)) mean p s
    (y y_bak : list F) self' mean' p' s' y' :
  R1ES._update_distribution self x mean p s y y_bak
  = Some (self', mean', p', s', y') →
  length mean = ndim_problem (R1ES.core self) →
  length p = ndim_problem (R1ES.core self) →
  length mean' = ndim_problem (R1ES.core self)
  ∧ length p' = ndim_problem (R1ES.core self).
Proof.
  unfold R1ES._update_distribution. intros Hu Hmean Hp.
  apply bind_Some in Hu as (mean_w & (r & Hloop & ->)%fmap_Some & Hu).
  apply recombine_length in Hloop.
  unfold np_zeros in Hloop. rewrite length_replicate in Hloop.
  apply bind_Some in Hu as (p2 & _ & Hu).
  apply bind_Some in Hu as (step & ->%np_sub_Some & Hu).
  apply bind_Some in Hu as (p1 & ->%np_add_Some & Hu).
  apply bind_Some in Hu as (rr & _ & Hu).
  apply bind_Some in Hu as (product & _ & Hu).
  injection Hu as _ <- <- _ _. split; [done|].
  rewrite length_vadd; rewrite ?length_vscale, ?length_vdivs, ?length_vscale,
    ?length_vsub; congruence.
Qed.

(** The attributes that fix the sizes are among the settings. *)
Lemma settings_sizes self self' :
  settings self' = settings self →
  ES.n_individuals (R1ES.es self') = ES.n_individuals (R1ES.es self)
  ∧ ES.n_parents (R1ES.es self') = ES.n_parents (R1ES.es self)
  ∧ ES.mean (R1ES.es self') = ES.mean (R1ES.es self)
  ∧ ES._w (R1ES.es self') = ES._w (R1ES.es self)
  ∧ ndim_problem (R1ES.core self') = ndim_problem (R1ES.core self)
  ∧ initial_lower_boundary (R1ES.core self')
    = initial_lower_boundary (R1ES.core self)
  ∧ initial_upper_boundary (R1ES.core self')
    = initial_upper_boundary (R1ES.core self).
Proof. unfold settings. intros Hs. by simplify_eq. Qed.

Lemma runnable_settings self self' :
  settings self' = settings self → runnable self → runnable self'.
Proof.
  intros (Hn & Hpar & Hmean & Hw & Hd & Hlo & Hup)%settings_sizes.
  unfold runnable. cbn zeta. by rewrite Hn, Hpar, Hmean, Hw, Hd, Hlo, Hup.
Qed.

(** The mean that [_initialize_mean] returns is of the dimension of the
    problem. *)
Lemma _initialize_mean_length self (restart : bool) :
  lawful_shapes → runnable self →
  length (ES._initialize_mean (R1ES.es self) restart).1
  = ndim_problem (R1ES.core self).
Proof.
  intros (_ & _ & _ & Huniform) (_ & _ & _ & Hlo & Hup & Hmean).
  unfold ES._initialize_mean.
  assert (length (uniform (initial_lower_boundary (R1ES.core self))
                    (initial_upper_boundary (R1ES.core self))
                    (rng_initialization (R1ES.core self))).1
          = ndim_problem (R1ES.core self)) as Hdraw.
  { rewrite Huniform by congruence. done. }
  unfold R1ES.core in *.
  destruct restart, (ES.mean (R1ES.es self)) as [m|] eqn:Hm;
    try (destruct (uniform _ _ _) as [m' g]; exact Hdraw).
  cbn. by apply Hmean.
Qed.

(** The local variables that [initialize] returns are of the right
    sizes. *)
Lemma initialize_sized self (is_restart : bool) (fitness : list F) :
  lawful_shapes → runnable self →
  let init := R1ES.initialize self is_restart in
  sized {| R1ES.l_self := init.1.1.1.1.1; R1ES.l_x := init.1.1.1.1.2;
           R1ES.l_mean := init.1.1.1.2; R1ES.l_p := init.1.1.2;
           R1ES.l_s := init.1.2; R1ES.l_y := init.2;
           R1ES.l_fitness := fitness |}.
Proof.
  intros Hlaws Hrun init. subst init.
  pose proof (_initialize_mean_length self is_restart Hlaws Hrun) as Hmean.
  destruct Hlaws as (_ & Hempty & _).
  destruct (Hempty (ES.n_individuals (R1ES.es self))
              (ndim_problem (R1ES.core self))) as [Hrows Hcolumns].
  destruct (initialize_unfold self is_restart) as [g ->].
  unfold sized. cbn [R1ES.l_self R1ES.l_x R1ES.l_mean R1ES.l_p R1ES.l_y fst snd].
  split_and!.
  - revert Hrun. by apply runnable_settings.
  - by eexists.
  - done.
  - exact Hrows.
  - apply length_replicate.
  - split_and!; [exact Hmean|apply length_replicate|exact Hcolumns].
Qed.

(** The sizes are those of the attributes that no step of a turn
    assigns. *)
Lemma sized_frame l self' x' mean' p' s' y' fitness' :
  sized l →
  settings self' = settings (R1ES.l_self l) →
  R1ES._p_2 self' = R1ES._p_2 (R1ES.l_self l) →
  R1ES._rr self' = R1ES._rr (R1ES.l_self l) →
  length x' = length (R1ES.l_x l) → length y' = length (R1ES.l_y l) →
  conformable (ndim_problem (R1ES.core (R1ES.l_self l))) x' mean' p' →
  sized {| R1ES.l_self := self'; R1ES.l_x := x'; R1ES.l_mean := mean';
           R1ES.l_p := p'; R1ES.l_s := s'; R1ES.l_y := y';
           R1ES.l_fitness := fitness' |}.
Proof.
  intros (Hrun & Hp & Hr & Hx & Hy & _) Hset Hp2 Hrr Hx' Hy' Hshape.
  pose proof (runnable_settings _ _ Hset Hrun) as Hrun'.
  apply settings_sizes in Hset as (Hn & Hpar & _ & _ & Hd & _).
  unfold sized. cbn [R1ES.l_self R1ES.l_x R1ES.l_mean R1ES.l_p R1ES.l_y].
  rewrite Hn, Hpar, Hp2, Hrr, Hx', Hy', Hd. done.
Qed.

Lemma save_first_total self (fitness y : list F) :
  0 < length y → is_Some (R1ES.save_first self fitness y).
Proof.
  intros Hy. unfold R1ES.save_first. destruct (ES.saving_fitness _); [|done].
  destruct (lookup_lt_is_Some_2 y 0 Hy) as [y0 ->]. by eexists.
Qed.

(** [restart_reinitialize] does not raise, and keeps the sizes. *)
Lemma restart_reinitialize_total l :
  lawful_shapes → sized l →
  ∃ l', R1ES.restart_reinitialize l = Some l' ∧ sized l'.
Proof.
  intros Hlaws Hsized.
  destruct (ES.restart_reinitialize (R1ES.es (R1ES.l_self l))).1 eqn:Hfired.
  - set (self0 := R1ES.with_es (λ e, (ES.restart_reinitialize e).2) (R1ES.l_self l)).
    assert (runnable self0) as Hrun.
    { destruct Hsized as (Hrun & _). revert Hrun. apply runnable_settings.
      apply (ES_restart_reinitialize_progresses clock). }
    pose proof (initialize_sized self0 true (R1ES.l_fitness l) Hlaws Hrun)
      as Hinit. cbn zeta in Hinit.
    unfold R1ES.restart_reinitialize.
    destruct (ES.restart_reinitialize (R1ES.es (R1ES.l_self l)))
      as [fired e] eqn:Hrestart. cbn in Hfired. subst fired.
    assert (self0 = R1ES.with_es (λ _, e) (R1ES.l_self l)) as <-.
    { subst self0. unfold R1ES.with_es. by rewrite Hrestart. }
    destruct (R1ES.initialize self0 true)
      as [[[[[self1 x1] mean1] p1] s1] y1] eqn:Hini.
    cbn [fst snd] in Hinit.
    destruct (save_first_total self1 (R1ES.l_fitness l) y1) as [fit Hfit].
    { destruct Hinit as ((? & _) & _ & _ & _ & Hy & _). cbn in *. lia. }
    rewrite Hfit. cbn. eexists. split; [done|].
    apply (sized_frame _ _ _ _ _ _ _ _ Hinit); try done.
    by destruct Hinit as (_ & _ & _ & _ & _ & ?).
  - rewrite (restart_reinitialize_idle _ Hfired). eexists. split; [done|].
    apply (sized_frame l); try done.
    by destruct Hsized as (_ & _ & _ & _ & _ & ?).
Qed.

(** One turn of the loop keeps the sizes. *)
Lemma generation_sized l r :
  lawful_shapes → sized l →
  R1ES.generation clock l = Some r → sized (flow_state r).
Proof.
  intros Hlaws Hsized (self1 & x1 & y1 & Hit & Hg)%generation_inv.
  cbn zeta in Hg.
  pose proof Hsized as (_ & _ & _ & _ & _ & Hmean & Hp & Hrows).
  pose proof (iterate_progresses clock _ _ _ _ _ _ _ _ Hit) as [Hset1 _].
  pose proof (iterate_columns _ _ _ _ _ _ _ _ _ Hit Hrows) as Hrows1.
  apply iterate_self in Hit as ([o1 ->] & Hx1 & Hy1).
  pose proof Hset1 as (_ & _ & _ & _ & Hd1 & _)%settings_sizes.
  destruct (exhausted _ _ _ _).
  { subst r. by apply (sized_frame l). }
  destruct Hg as (self3 & mean3 & p3 & s3 & y3 & Hupd & Hg).
  pose proof (_update_distribution_shapes _ _ _ _ _ _ _ _ _ _ _ _ Hupd)
    as [Hmean3 Hp3]; [by rewrite Hmean, <- Hd1|by rewrite Hp, <- Hd1|].
  apply _update_distribution_unfold in Hupd as [-> ->]. cbn zeta in Hg.
  set (l3 := {| R1ES.l_self := _ |}) in Hg.
  assert (sized l3) as Hsized3.
  { apply (sized_frame l); try done.
    - destruct Hlaws as (Hsort & _). by rewrite Hsort.
    - split_and!; [by rewrite Hmean3, <- Hd1|by rewrite Hp3, <- Hd1|done]. }
  destruct (ES.is_restart _).
  - destruct Hg as (l' & Hr & ->).
    destruct (restart_reinitialize_total l3 Hlaws Hsized3) as (l'' & Hr' & ?).
    cbn. congruence.
  - by subst r.
Qed.

Lemma turns_sized n l l' :
  lawful_shapes → sized l → turns clock n l = Some l' → sized l'.
Proof.
  intros Hlaws. revert l. induction n as [|n IH]; intros l Hsized Ht;
    cbn in Ht.
  { by simplify_eq. }
  destruct (R1ES.generation clock l) as [[l1|l1]|] eqn:Hg; [|done..].
  apply (IH l1); [|done].
  by apply (generation_sized l (Next l1)).
Qed.

(** The statements of [optimize] before its loop do not raise, and leave
    local variables of the right sizes. *)
Lemma prologue_total self (fitness : option (list F → F)) :
  lawful_shapes → runnable self →
  ∃ l0, R1ES.prologue self fitness = Some l0 ∧ sized l0.
Proof.
  intros Hlaws Hrun. unfold R1ES.prologue.
  destruct (ES.optimize (R1ES.es self) fitness) as [fit e] eqn:Hopt.
  set (self0 := R1ES.with_es (λ _, e) self).
  assert (runnable self0) as Hrun0.
  { unfold runnable in *. subst self0. unfold ES.optimize in Hopt.
    destruct fitness; injection Hopt as _ <-; done. }
  pose proof (initialize_sized self0 false [] Hlaws Hrun0) as Hinit.
  cbn zeta in Hinit.
  destruct (R1ES.initialize self0 false)
    as [[[[[self1 x1] mean1] p1] s1] y1] eqn:Hini.
  cbn [fst snd] in Hinit.
  destruct (save_first_total self1 fit y1) as [fit' Hfit].
  { destruct Hinit as ((? & _) & _ & _ & _ & Hy & _). cbn in *. lia. }
  rewrite Hfit. cbn. eexists. split; [done|].
  apply (sized_frame _ _ _ _ _ _ _ _ Hinit); try done.
  by destruct Hinit as (_ & _ & _ & _ & _ & ?).
Qed.

End R1ES_shapes.

(** ** R1ES: the offspring of a generation *)

Section R1ES_offspring.
Context {F G : Type} `{Numeric F} `{RandomSource F G}.
Import Core.
Variable clock : nat → nat.
Implicit Types (self : R1ES.R1ES F G) (l : R1ES.locals F G).

(** C7. In every generation of a run of [R1ES] — after any number of
    complete turns of the loop of an optimizer that [__init__] built with
    weights, bounds and mean of the sizes of its population and of its
    problem — [iterate] returns, having sampled and evaluated one
    offspring for every poll that answered false before the first one
    that answered true, [n_individuals] of them when none did. Offspring
    [k] is [mean + sigma*(sqrt(1 - c_cov)*z + sqrt(c_cov)*r*p)], where [z]
    and [r] are the vector and the scalar drawn for it from the generator
    of the optimization, which moves on with every offspring, and [p] is
    the principal search direction; the point is stored as row [k] of
    [x], its value as [y[k]], the evaluation counter grows by the number
    of offspring, and the evaluations the core logs for the generation
    are exactly these rows, in order. *)
Theorem offspring_are_rank_one_samples (e : ES.ES F G) (options : gmap string F)
    (fitness : option (list F → F)) (n : nat) l0 l :
  lawful_shapes →
  runnable (R1ES.__init__ e options) →
  R1ES.prologue (R1ES.__init__ e options) fitness = Some l0 →
  turns clock n l0 = Some l →
  let self := R1ES.l_self l in
  let o := R1ES.core self in
  ∃ self' x' y' (evaluated : nat),
    R1ES.iterate clock self (R1ES.l_x l) (R1ES.l_mean l) (R1ES.l_p l)
      (R1ES.l_y l) = Some (self', x', y')
    ∧ evaluated ≤ ES.n_individuals (R1ES.es self)
    ∧ (∀ k, k < evaluated →
         exhausted clock o (n_function_evaluations o + k) (ticks o + k) = false)
    ∧ (evaluated < ES.n_individuals (R1ES.es self) →
         exhausted clock o (n_function_evaluations o + evaluated)
           (ticks o + evaluated) = true)
    ∧ n_function_evaluations (R1ES.core self')
      = n_function_evaluations o + evaluated
    ∧ (∀ k, k < evaluated →
         let g := generator_after (ndim_problem o) k (rng_optimization o) in
         let '(z, r) := samples (ndim_problem o) g in
         let candidate :=
           vadd (R1ES.l_mean l)
             (vscale (ES.sigma (R1ES.es self))
                (vadd (vscale (fsqrt (fsub (fconst 1.0) (R1ES.c_cov self))) z)
                      (vscale (fmul (fsqrt (R1ES.c_cov self)) r) (R1ES.l_p l)))) in
         x' !! k = Some candidate
         ∧ y' !! k = Some (fitness_function o candidate))
    ∧ evaluations (trace (R1ES.core self'))
      = evaluations (trace o) ++ take evaluated x'.
Proof.
  intros Hlaws Hrunnable Hpro Hturns self o.
  (* the coefficients of line 132 are the square roots set by __init__ *)
  assert (Hcoeff : R1ES._x_1 self = fsqrt (fsub (fconst 1.0) (R1ES.c_cov self))
                   ∧ R1ES._x_2 self = fsqrt (R1ES.c_cov self)).
  { pose proof Hpro as (Hself0 & _)%prologue_inv.
    pose proof (initialize_progresses clock
      (R1ES.with_es (λ e, (ES.optimize e fitness).2) (R1ES.__init__ e options))
      false) as [Hs0 _].
    rewrite <- Hself0 in Hs0.
    pose proof Hturns as [Hs _]%turns_progresses. fold self in Hs.
    rewrite Hs0 in Hs. unfold settings in Hs. cbn in Hs.
    injection Hs as Hc _ _ _ Hx1 Hx2 _.
    rewrite Hx1, Hx2, Hc. done. }
  destruct Hcoeff as [Hx1 Hx2].
  (* the local variables have the shapes of the problem *)
  assert (sized l) as Hsized.
  { destruct (prologue_total (R1ES.__init__ e options) fitness Hlaws Hrunnable)
      as (l0' & Hpro' & Hsized0).
    rewrite Hpro in Hpro'. injection Hpro' as <-.
    by apply (turns_sized clock n l0 l). }
  destruct Hsized as (_ & _ & _ & Hx & Hy & Hshape).
  fold self o in Hx, Hy, Hshape.
  pose proof Hlaws as (_ & _ & Hnormal & _).
  destruct (iterate_total clock self (R1ES.l_x l) (R1ES.l_mean l)
              (R1ES.l_p l) (R1ES.l_y l)) as [[[self' x'] y'] Hit];
    [done|done|lia..|].
  exists self', x', y'.
  pose proof (iterate_effect clock _ _ _ _ _ _ _ _ Hit)
    as (j & Hj & Hn & Hfalse & Htrue & Htr & Hlen & Hlx & _ & Hrows & _ & _ & _).
  fold self o in Hj, Hn, Hfalse, Htrue, Htr, Hrows.
  rewrite (stored_points_conformable self) in Htr, Hrows
    by (try done; fold self; lia).
  exists j. split_and!; try done.
  - intros k Hk. destruct (Hrows k Hk) as [Hxk Hyk].
    rewrite offspring_points_lookup in Hxk, Hyk by done.
    unfold offspring_point in Hxk, Hyk. fold o in Hxk, Hyk.
    rewrite Hx1, Hx2 in Hxk, Hyk. cbn zeta.
    destruct (samples (ndim_problem o) _) as [z r]. done.
  - rewrite Htr, !evaluations_app, evaluations_polled_evaluations.
    replace (evaluations (if decide _ then _ else _)) with (@nil (list F))
      by (by case_decide).
    rewrite app_nil_r. f_equal.
    apply list_eq. intros i.
    destruct (decide (i < j)) as [Hi|Hi].
    + rewrite lookup_take_lt by done. symmetry. by apply Hrows.
    + rewrite lookup_take_ge by lia.
      apply lookup_ge_None. rewrite length_offspring_points. lia.
Qed.

End R1ES_offspring.

(** ** R1ES: a run returns *)

Section R1ES_returns.
Context {F G : Type} `{Numeric F} `{RandomSource F G}.
Import Core.
Variable clock : nat → nat.
Implicit Types (self : R1ES.R1ES F G) (l : R1ES.locals F G).

Lemma recombine_total self (x : list (list F)) (order : list nat) (n d : nat)
    (mean_w : list F) :
  n ≤ length (ES._w (R1ES.es self)) → n ≤ length order →
  (∀ i, i ∈ order → i < length x) →
  (∀ i row, x !! i = Some row → length row = d) →
  length mean_w = d →
  is_Some (for_each (R1ES.recombine self x order) (seq 0 n) mean_w).
Proof.
  intros Hw Ho Hx Hrows Hmean.
  destruct (for_each_total (λ m : list F, length m = d)
              (R1ES.recombine self x order) (seq 0 n) mean_w)
    as (r & -> & _); [done| |done].
  intros k m Hk%elem_of_seq Hm. unfold R1ES.recombine.
  destruct (lookup_lt_is_Some_2 (ES._w (R1ES.es self)) k ltac:(lia)) as [w ->].
  destruct (lookup_lt_is_Some_2 order k ltac:(lia)) as [i Hi]. rewrite Hi.
  cbn [mbind option_bind].
  destruct (lookup_lt_is_Some_2 x i) as [row Hrow].
  { apply Hx. by eapply list_elem_of_lookup_2. }
  rewrite Hrow. cbn [mbind option_bind].
  rewrite np_iadd_same by (rewrite length_vscale, Hm; eauto).
  eexists. split; [done|]. cbn.
  rewrite length_vadd; rewrite ?length_vscale; [done|].
  rewrite Hm. symmetry. eauto.
Qed.

(** [_update_distribution] does not raise on local variables of the
    right sizes. *)
Lemma _update_distribution_total self (x : list (list F)) mean p s (y y_bak : list F) :
  lawful_shapes → argsort_permutes →
  ES.n_parents (R1ES.es self) ≤ ES.n_individuals (R1ES.es self) →
  length (ES._w (R1ES.es self)) = ES.n_parents (R1ES.es self) →
  is_Some (R1ES._p_2 self) →
  R1ES._rr self = Some (S <$> seq 0 (ES.n_parents (R1ES.es self) * 2)) →
  length x = ES.n_individuals (R1ES.es self) →
  length y = ES.n_individuals (R1ES.es self) →
  length y_bak = ES.n_individuals (R1ES.es self) →
  conformable (ndim_problem (R1ES.core self)) x mean p →
  is_Some (R1ES._update_distribution self x mean p s y y_bak).
Proof.
  intros (Hsort & _) Hperm Hparents Hw [p2 Hp2] Hrr Hx Hy Hbak
    (Hmean & Hp & Hrows).
  set (n := ES.n_parents (R1ES.es self)) in *.
  unfold R1ES._update_distribution. fold n.
  destruct (recombine_total self x (np_argsort y) n
              (ndim_problem (R1ES.core self))
              (np_zeros (ndim_problem (R1ES.core self)))) as [r Hloop].
  { lia. }
  { rewrite Hperm, length_seq. lia. }
  { intros i Hi. rewrite Hperm in Hi. apply elem_of_seq in Hi. lia. }
  { done. }
  { apply length_replicate. }
  pose proof (recombine_length _ _ _ _ _ _ Hloop) as Hmean_w.
  unfold np_zeros in Hmean_w. rewrite length_replicate in Hmean_w.
  rewrite Hloop. cbn [fmap option_fmap option_map mbind option_bind].
  rewrite Hp2. cbn [mbind option_bind].
  rewrite np_sub_same by congruence. cbn [mbind option_bind].
  rewrite np_add_same
    by (rewrite length_vscale, length_vdivs, length_vscale, length_vsub;
        congruence).
  cbn [mbind option_bind].
  set (r' := np_argsort _).
  assert (r' ≡ₚ seq 0 (n + n)) as Hr'.
  { subst r'. rewrite Hperm, length_app, !length_take, Hsort.
    by replace (n `min` length y_bak + n `min` length y) with (n + n) by lia. }
  destruct (rank_differences_order self r' Hr' Hrr)
    as (-> & Hprevious & Hcurrent).
  cbn [mbind option_bind].
  rewrite dot_same; [by eexists|].
  rewrite length_fmap, length_zip_with, !length_fmap, Hprevious, Hcurrent.
  fold n. lia.
Qed.

(** One turn of the loop does not raise, and keeps the sizes. *)
Lemma generation_total l :
  lawful_shapes → argsort_permutes → sized l →
  ∃ r, R1ES.generation clock l = Some r ∧ sized (flow_state r).
Proof.
  intros Hlaws Hperm Hsized.
  enough (is_Some (R1ES.generation clock l)) as [r Hr].
  { exists r. split; [done|]. by apply (generation_sized clock l r). }
  pose proof Hsized as ((Hn & Hpar & Hw & _) & Hp2 & Hrr & Hx & Hy & Hshape).
  pose proof Hlaws as (_ & _ & Hnormal & _).
  destruct (iterate_total clock (R1ES.l_self l) (R1ES.l_x l) (R1ES.l_mean l)
              (R1ES.l_p l) (R1ES.l_y l)) as [[[self1 x1] y1] Hit];
    [done|done|lia..|].
  unfold R1ES.generation. rewrite Hit.
  cbn -[_check_terminations R1ES._update_distribution R1ES.restart_reinitialize].
  pose proof (iterate_progresses clock _ _ _ _ _ _ _ _ Hit) as [Hset1 _].
  pose proof Hshape as (Hmean & Hp & Hrows).
  pose proof (iterate_columns clock _ _ _ _ _ _ _ _ _ Hit Hrows) as Hrows1.
  apply iterate_self in Hit as ([o1 ->] & Hx1 & Hy1).
  set (self1 := R1ES.with_core (λ _, o1) (R1ES.l_self l)) in *.
  change (_check_terminations clock (R1ES.core self1))
    with (exhausted clock (R1ES.core self1)
            (n_function_evaluations (R1ES.core self1))
            (ticks (R1ES.core self1)),
          (_check_terminations clock (R1ES.core self1)).2).
  cbn beta iota zeta.
  destruct (exhausted _ _ _ _); [by eexists|].
  set (self2 := R1ES.with_core (λ _, (_check_terminations clock _).2) self1).
  assert (settings self2 = settings (R1ES.l_self l)) as Hset2.
  { by rewrite <- Hset1. }
  pose proof Hset2 as (Hn2 & Hpar2 & _ & Hw2 & Hd2 & _)%settings_sizes.
  destruct (_update_distribution_total self2 x1 (R1ES.l_mean l) (R1ES.l_p l)
              (R1ES.l_s l) y1 (R1ES.l_y l))
    as [[[[[self3 mean3] p3] s3] y3] Hupd]; try done;
    rewrite ?Hn2, ?Hpar2, ?Hw2, ?Hd2; try done; try lia.
  rewrite Hupd.
  cbn -[_check_terminations R1ES._update_distribution R1ES.restart_reinitialize].
  destruct (ES.is_restart _); [|by eexists].
  set (l3 := {| R1ES.l_self := _ |}).
  assert (sized l3) as Hsized3.
  { pose proof (_update_distribution_shapes _ _ _ _ _ _ _ _ _ _ _ _ Hupd)
      as [Hmean3 Hp3]; [by rewrite Hd2..|].
    apply _update_distribution_unfold in Hupd as [-> ->].
    apply (sized_frame l); try done.
    - destruct Hlaws as (Hsort & _). by rewrite Hsort.
    - split_and!; [by rewrite Hmean3|by rewrite Hp3|done]. }
  destruct (restart_reinitialize_total clock l3 Hlaws Hsized3) as (l' & -> & ?).
  by eexists.
Qed.

(** The evaluations of one turn that does not end the loop: at least one,
    within the budget before the restart. *)
Lemma generation_advances l l' (m : nat) :
  (∀ i j, i ≤ j → clock i ≤ clock j) →
  1 ≤ ES.n_individuals (R1ES.es (R1ES.l_self l)) →
  max_function_evaluations (R1ES.core (R1ES.l_self l)) = Some m →
  R1ES.generation clock l = Some (Next l') →
  m - n_function_evaluations (R1ES.core (R1ES.l_self l'))
  < m - n_function_evaluations (R1ES.core (R1ES.l_self l)).
Proof.
  intros Hclock Hn Hm Hgen.
  apply generation_core in Hgen as (self1 & x1 & y1 & Hit & Hcore).
  cbn zeta in Hcore.
  pose proof (iterate_progresses _ _ _ _ _ _ _ _ _ Hit) as [Hset Hact].
  apply settings_limits in Hset as [Hmax _].
  destruct (exhausted clock (R1ES.core self1) _ _) eqn:Hstop.
  { by destruct Hcore as [[l1 ?] _]. }
  destruct Hcore as [_ Hcore]. cbn [flow_state] in Hcore.
  assert (n_function_evaluations (R1ES.core self1) < m) as Hbelow.
  { apply reached_false. unfold exhausted in Hstop.
    rewrite Hmax, Hm in Hstop. by apply orb_false_elim in Hstop as [? _]. }
  assert (n_function_evaluations (R1ES.core (R1ES.l_self l))
          < n_function_evaluations (R1ES.core self1)) as Hgrown.
  { apply iterate_inv in Hit as (j & selfj & Hj & Hrun & Hend).
    apply offspring_prefix in Hrun
      as (oj & -> & _ & Hcount & _ & _ & _ & _ & _ & _ & _ & _).
    destruct Hend as [[-> ->]|(_ & Hspent & ->)].
    { rewrite core_with_core. lia. }
    apply exhausted_spent, (spent_exhausted _ _ Hclock) in Hspent.
    rewrite core_with_core in Hstop. congruence. }
  assert (n_function_evaluations (R1ES.core self1)
          ≤ n_function_evaluations (R1ES.core (R1ES.l_self l'))) as Hkept.
  { destruct Hcore as [->|(g & mean & ->)]; cbn; lia. }
  lia.
Qed.

(** With a finite budget of evaluations and a clock that does not run
    backwards, the loop ends: every turn that does not end it evaluates
    at least one offspring. *)
Lemma generations_return (m : nat) : ∀ fuel l,
  lawful_shapes → argsort_permutes →
  (∀ i j, i ≤ j → clock i ≤ clock j) →
  sized l →
  max_function_evaluations (R1ES.core (R1ES.l_self l)) = Some m →
  m - n_function_evaluations (R1ES.core (R1ES.l_self l)) < fuel →
  ∃ l', R1ES.generations clock fuel l = Returns l'.
Proof.
  induction fuel as [|fuel IH]; intros l Hlaws Hperm Hclock Hsized Hm Hfuel;
    [lia|].
  destruct (generation_total l Hlaws Hperm Hsized) as (r & Hgen & Hsized').
  cbn. rewrite Hgen. destruct r as [l1|l1]; [|by eexists].
  apply IH; try done.
  - pose proof (generation_progresses _ _ _ Hgen) as [Hset _].
    apply settings_limits in Hset as [Hmax _]. cbn in Hmax. congruence.
  - pose proof (generation_advances l l1 m Hclock) as Hadv.
    destruct Hsized as ((? & _) & _). specialize (Hadv ltac:(done) Hm Hgen). lia.
Qed.

(** With a finite budget of [m] evaluations and a clock that does not run
    backwards, [optimize] returns, after at most [m + 1] turns of its loop;
    it raises no exception on the way. This is so for an optimizer whose
    weights, bounds and mean have the sizes of its population and of its
    problem, where numpy's routines return arrays of the shapes they
    document and [np.argsort] a permutation. *)
Theorem optimize_returns self (fitness : option (list F → F)) (m : nat) :
  lawful_shapes → argsort_permutes →
  (∀ i j, i ≤ j → clock i ≤ clock j) →
  runnable self →
  max_function_evaluations (R1ES.core self) = Some m →
  ∃ l0 l,
    R1ES.prologue self fitness = Some l0
    ∧ R1ES.generations clock (S m) l0 = Returns l
    ∧ R1ES.optimize clock (S m) self fitness = Returns (R1ES.epilogue l).
Proof.
  intros Hlaws Hperm Hclock Hrun Hm.
  destruct (prologue_total self fitness Hlaws Hrun) as (l0 & Hpro & Hsized).
  pose proof (prologue_core _ _ _ Hpro) as (Hcount & _ & Hmax & _).
  cbn zeta in Hcount, Hmax.
  destruct (generations_return m (S m) l0) as [l Hgens]; try done.
  { congruence. } { lia. }
  exists l0, l. split_and!; try done.
  unfold R1ES.optimize. by rewrite Hpro, Hgens.
Qed.

End R1ES_returns.

(** ** R1ES: the counter counts the evaluations *)

Section R1ES_counting.
Context {F G : Type} `{Numeric F} `{RandomSource F G}.
Import Core.
Variable clock : nat → nat.

Lemma action_counts (o o' : Optimizer F G) :
  action clock o o' →
  n_function_evaluations o' + length (evaluations (trace o))
  = n_function_evaluations o + length (evaluations (trace o')).
Proof.
  intros [o1|o1 x|o1 g|o1 g]; cbn [_check_terminations _evaluate_fitness snd
    n_function_evaluations trace set_rng_optimization set_rng_initialization];
    rewrite ?evaluations_app, ?length_app; cbn; lia.
Qed.

Lemma actions_count (o o' : Optimizer F G) :
  rtc (action clock) o o' →
  n_function_evaluations o' + length (evaluations (trace o))
  = n_function_evaluations o + length (evaluations (trace o')).
Proof.
  induction 1 as [o|o1 o2 o3 Hstep _ IH]; [done|].
  apply action_counts in Hstep. lia.
Qed.

(** When the counter of the optimizer that [optimize] is called on is
    the number of evaluations so far, as it is for a new optimizer, the
    [n_function_evaluations] of the results is the number of calls of the
    fitness function, all made through [_evaluate_fitness]. *)
Theorem returned_counter_counts_the_evaluations (fuel : nat)
    (self : R1ES.R1ES F G) (fitness : option (list F → F)) l0 l :
  R1ES.prologue self fitness = Some l0 →
  R1ES.generations clock fuel l0 = Returns l →
  n_function_evaluations (R1ES.core self)
  = length (evaluations (trace (R1ES.core self))) →
  R1ES.optimize clock fuel self fitness = Returns (R1ES.epilogue l)
  ∧ ES.r_n_function_evaluations (R1ES.collected (R1ES.epilogue l))
    = length (evaluations (trace (R1ES.core (R1ES.l_self l)))).
Proof.
  intros Hpro Hgen Hfresh. split.
  { unfold R1ES.optimize. by rewrite Hpro, Hgen. }
  apply prologue_core in Hpro as (Hcount & Htrace & _). cbn zeta in Hcount, Htrace.
  apply generations_progresses in Hgen as [_ Hact].
  apply actions_count in Hact.
  rewrite Htrace, evaluations_app, length_app in Hact. cbn in Hact.
  change (ES.r_n_function_evaluations (R1ES.collected (R1ES.epilogue l)))
    with (n_function_evaluations (R1ES.core (R1ES.l_self l))).
  lia.
Qed.

End R1ES_counting.

(** ** R1ES: the recombination and the principal search direction *)

Section R1ES_recombination.
Context {F G : Type} `{Numeric F} `{RandomSource F G}.
Import Core.
Variable clock : nat → nat.
Implicit Types (self : R1ES.R1ES F G) (l : R1ES.locals F G).

(** The loop of lines 140-141 adds the weighted rows of [x] in the order
    [order], one for each weight it reads. *)
Lemma recombine_sum self (x : list (list F)) (order : list nat) (n : nat) :
  ∀ (a : nat) (m : list F) r,
    for_each (R1ES.recombine self x order) (seq a n) m = Some r →
    ∃ rows,
      r = Next (foldl (λ acc wr, vadd acc (vscale wr.1 wr.2)) m
                  (zip (take n (drop a (ES._w (R1ES.es self)))) rows))
      ∧ Forall2 (λ i row, x !! i = Some row) (take n (drop a order)) rows
      ∧ length rows = n
      ∧ (0 < n → a + n ≤ length (ES._w (R1ES.es self)) ∧ a + n ≤ length order).
Proof.
  induction n as [|n IH]; intros a m r Hrun.
  { cbn in Hrun. injection Hrun as <-. exists []. split_and!; [done| |done|lia].
    rewrite take_0. constructor. }
  cbn [seq for_each] in Hrun. unfold R1ES.recombine at 1 in Hrun.
  destruct (ES._w (R1ES.es self) !! a) as [w|] eqn:Hw; [|done].
  destruct (order !! a) as [i|] eqn:Hi; [|done]. cbn in Hrun.
  destruct (x !! i) as [row|] eqn:Hrow; [|done]. cbn in Hrun.
  destruct (np_iadd m (vscale w row)) as [m'|] eqn:Hadd; [|done].
  apply np_iadd_Some in Hadd as ->. cbn in Hrun.
  apply IH in Hrun as (rows & -> & Hrows & Hlen & Hbound).
  exists (row :: rows).
  rewrite (drop_S _ _ _ Hw), (drop_S _ _ _ Hi). cbn.
  split_and!; [done|by constructor|by rewrite Hlen|].
  intros _. apply lookup_lt_Some in Hw, Hi. destruct n; [lia|].
  destruct Hbound; lia.
Qed.

Lemma zip_take_length {A B : Type} (w : list A) (rows : list B) :
  zip (take (length rows) w) rows = zip w rows.
Proof.
  revert w. induction rows as [|row rows IH]; intros [|v w]; cbn; try done.
  by rewrite IH.
Qed.

(** [_update_distribution] moves the mean to the weighted sum of the
    [n_parents] rows of [x] with the smallest values of [y], taken in
    ascending order of [y], and the principal search direction to
    [(1 - c)*p + sqrt(c*(2 - c)*_mu_eff)*(mean' - mean)/sigma], with the
    step-size [sigma] as it is before its own update; the [y] it leaves
    to the caller is sorted. *)
Theorem mean_and_direction_follow_the_best self (x : list (list F))
    (mean p : list F) (s : F) (y y_bak : list F) self' mean' p' s' y' :
  initialized self →
  R1ES._update_distribution self x mean p s y y_bak
  = Some (self', mean', p', s', y') →
  let n := ES.n_parents (R1ES.es self) in
  ∃ rows,
    Forall2 (λ i row, x !! i = Some row) (take n (np_argsort y)) rows
    ∧ length rows = n
    ∧ mean' = weighted_sum (ndim_problem (R1ES.core self))
                (ES._w (R1ES.es self)) rows
    ∧ p' = vadd (vscale (fsub (fconst 1.0) (R1ES.c self)) p)
             (vdivs
                (vscale
                   (fsqrt (fmul (fmul (R1ES.c self)
                                   (fsub (fconst 2.0) (R1ES.c self)))
                             (ES._mu_eff (R1ES.es self))))
                   (vsub mean' mean))
                (ES.sigma (R1ES.es self)))
    ∧ y' = np_sort y.
Proof.
  intros (Hp1 & Hp2 & _) Hupd n. subst n.
  unfold R1ES._update_distribution in Hupd.
  apply bind_Some in Hupd as (mean_w & Hloop & Hupd).
  apply fmap_Some in Hloop as (r & Hloop & ->).
  apply recombine_sum in Hloop as (rows & -> & Hrows & Hlen & Hbound).
  rewrite Hp2 in Hupd. cbn [mbind option_bind flow_state] in Hupd.
  apply bind_Some in Hupd as (step & ->%np_sub_Some & Hupd).
  apply bind_Some in Hupd as (p1 & ->%np_add_Some & Hupd).
  apply bind_Some in Hupd as (rr & _ & Hupd).
  apply bind_Some in Hupd as (product & _ & Hupd).
  injection Hupd as <- <- <- <- <-.
  rewrite drop_0 in Hrows. rewrite drop_0.
  assert (zip (take (ES.n_parents (R1ES.es self)) (ES._w (R1ES.es self))) rows
          = zip (ES._w (R1ES.es self)) rows) as ->.
  { rewrite <- Hlen. apply zip_take_length. }
  exists rows. unfold weighted_sum. split_and!; try done.
  by rewrite Hp1.
Qed.

(** *** The attributes of [initialize] along a run *)

Lemma initialize_initialized self (is_restart : bool) :
  R1ES._p_1 self = fsub (fconst 1.0) (R1ES.c self) →
  initialized (R1ES.initialize self is_restart).1.1.1.1.1.
Proof.
  intros Hp1. destruct (initialize_unfold self is_restart) as [g ->].
  unfold initialized. cbn. done.
Qed.

Lemma restart_reinitialize_initialized l l' :
  R1ES.restart_reinitialize l = Some l' →
  initialized (R1ES.l_self l) → initialized (R1ES.l_self l').
Proof.
  intros Hrestart Hinit.
  destruct (ES.restart_reinitialize (R1ES.es (R1ES.l_self l))).1 eqn:Hfired.
  - apply restart_reinitialize_fired in Hrestart as (-> & _); [|done].
    cbn zeta.
    set (self0 := R1ES.with_es _ (R1ES.l_self l)).
    pose proof (initialize_initialized self0 true) as Hini.
    destruct (initialize_unfold self0 true) as [g Hunf].
    rewrite Hunf in Hini |- *. cbn [fst snd] in Hini |- *.
    apply Hini. subst self0. cbn. by destruct Hinit as (Hp1 & _).
  - rewrite (restart_reinitialize_idle _ Hfired) in Hrestart.
    injection Hrestart as <-. exact Hinit.
Qed.

Lemma generation_initialized l r :
  R1ES.generation clock l = Some r →
  initialized (R1ES.l_self l) → initialized (R1ES.l_self (flow_state r)).
Proof.
  intros Hgen Hinit.
  apply generation_inv in Hgen as (self1 & x1 & y1 & Hit & Hgen).
  apply iterate_self in Hit as ([o1 ->] & _). cbn zeta in Hgen.
  destruct (exhausted clock _ _ _).
  { subst r. exact Hinit. }
  destruct Hgen as (self3 & mean3 & p3 & s3 & y3 & Hupd & Hgen).
  apply _update_distribution_unfold in Hupd as [_ ->]. cbn zeta in Hgen.
  match type of Hgen with
  | if ?b then _ else _ => destruct b
  end.
  - destruct Hgen as (l' & Hrestart & ->). cbn [flow_state].
    apply (restart_reinitialize_initialized _ _ Hrestart). exact Hinit.
  - subst r. exact Hinit.
Qed.

Lemma turns_initialized n : ∀ l l',
  turns clock n l = Some l' →
  initialized (R1ES.l_self l) → initialized (R1ES.l_self l').
Proof.
  induction n as [|n IH]; intros l l' Hturns Hinit; cbn in Hturns.
  { by injection Hturns as <-. }
  destruct (R1ES.generation clock l) as [[l1|l1]|] eqn:Hgen; [|done..].
  eapply IH; [done|]. by apply (generation_initialized _ _ Hgen).
Qed.

(** The states of a run of an optimizer that [__init__] built have the
    attributes of [initialize]. *)
Lemma run_initialized (e : ES.ES F G) (options : gmap string F)
    (fitness : option (list F → F)) (n : nat) l0 l :
  R1ES.prologue (R1ES.__init__ e options) fitness = Some l0 →
  turns clock n l0 = Some l →
  initialized (R1ES.l_self l).
Proof.
  intros Hpro Hturns. apply (turns_initialized _ _ _ Hturns).
  apply prologue_inv in Hpro as (-> & _). cbn zeta.
  apply initialize_initialized. unfold ES.optimize.
  destruct fitness; done.
Qed.

End R1ES_recombination.

(** ** R1ES: what the results count and what the last generation leaves *)

Section R1ES_results.
Context {F G : Type} `{Numeric F} `{RandomSource F G}.
Import Core.
Variable clock : nat → nat.
Implicit Types (self : R1ES.R1ES F G) (l : R1ES.locals F G).

Lemma restart_reinitialize_generations l l' :
  R1ES.restart_reinitialize l = Some l' →
  ES._n_generations (R1ES.es (R1ES.l_self l'))
  = ES._n_generations (R1ES.es (R1ES.l_self l)).
Proof.
  intros Hrestart.
  destruct (ES.restart_reinitialize (R1ES.es (R1ES.l_self l))).1 eqn:Hfired.
  - apply restart_reinitialize_fired in Hrestart as (-> & _); [|done].
    cbn zeta.
    set (self0 := R1ES.with_es _ (R1ES.l_self l)).
    destruct (initialize_unfold self0 true) as [g ->]. subst self0. cbn.
    by rewrite (ES_restart_reinitialize_fired _ Hfired).
  - rewrite (restart_reinitialize_idle _ Hfired) in Hrestart.
    by injection Hrestart as <-.
Qed.

(** A complete turn of the loop counts as one generation; the turn that
    ends the loop counts as none, and leaves the distribution as it
    is. *)
Lemma generation_counted l r :
  R1ES.generation clock l = Some r →
  match r with
  | Next l' =>
      ES._n_generations (R1ES.es (R1ES.l_self l'))
      = ES._n_generations (R1ES.es (R1ES.l_self l)) + 1
  | Return l' =>
      ES._n_generations (R1ES.es (R1ES.l_self l'))
      = ES._n_generations (R1ES.es (R1ES.l_self l))
      ∧ ES.n_restart (R1ES.es (R1ES.l_self l'))
        = ES.n_restart (R1ES.es (R1ES.l_self l))
      ∧ ES.sigma (R1ES.es (R1ES.l_self l'))
        = ES.sigma (R1ES.es (R1ES.l_self l))
      ∧ R1ES.d_sigma (R1ES.l_self l') = R1ES.d_sigma (R1ES.l_self l)
      ∧ R1ES.l_mean l' = R1ES.l_mean l
      ∧ R1ES.l_p l' = R1ES.l_p l
      ∧ R1ES.l_s l' = R1ES.l_s l
  end.
Proof.
  intros Hgen.
  apply generation_inv in Hgen as (self1 & x1 & y1 & Hit & Hgen).
  apply iterate_self in Hit as ([o1 ->] & _). cbn zeta in Hgen.
  destruct (exhausted clock _ _ _).
  { subst r. done. }
  destruct Hgen as (self3 & mean3 & p3 & s3 & y3 & Hupd & Hgen).
  apply _update_distribution_unfold in Hupd as [_ ->]. cbn zeta in Hgen.
  match type of Hgen with
  | if ?b then _ else _ => destruct b
  end.
  - destruct Hgen as (l' & Hrestart & ->).
    by rewrite (restart_reinitialize_generations _ _ Hrestart).
  - by subst r.
Qed.

Lemma turns_counted n : ∀ l l',
  turns clock n l = Some l' →
  ES._n_generations (R1ES.es (R1ES.l_self l'))
  = ES._n_generations (R1ES.es (R1ES.l_self l)) + n.
Proof.
  induction n as [|n IH]; intros l l' Hturns; cbn in Hturns.
  { injection Hturns as <-. lia. }
  destruct (R1ES.generation clock l) as [[l1|l1]|] eqn:Hgen; [|done..].
  apply generation_counted in Hgen. apply IH in Hturns. lia.
Qed.

(** The [_n_generations] that [optimize] returns has grown by the number
    of complete turns of the loop: the generation in which the
    termination check fired is not counted, and the mean, the step-size
    and the keys [p] and [s] of the results are those of the last
    complete turn, whatever that last generation sampled. *)
Theorem interrupted_generation_is_not_counted (fuel : nat) self
    (fitness : option (list F → F)) l0 l :
  R1ES.prologue self fitness = Some l0 →
  R1ES.generations clock fuel l0 = Returns l →
  ∃ n l1,
    n < fuel
    ∧ turns clock n l0 = Some l1
    ∧ R1ES.generation clock l1 = Some (Return l)
    ∧ R1ES.optimize clock fuel self fitness = Returns (R1ES.epilogue l)
    ∧ ES.r__n_generations (R1ES.collected (R1ES.epilogue l))
      = ES._n_generations (R1ES.es self) + n
    ∧ ES.r_mean (R1ES.collected (R1ES.epilogue l)) = R1ES.l_mean l1
    ∧ ES.r_sigma (R1ES.collected (R1ES.epilogue l))
      = ES.sigma (R1ES.es (R1ES.l_self l1))
    ∧ R1ES.res_p (R1ES.epilogue l) = R1ES.l_p l1
    ∧ R1ES.res_s (R1ES.epilogue l) = R1ES.l_s l1.
Proof.
  intros Hpro Hgens.
  pose proof (generations_turns _ _ _ _ Hgens) as (n & l1 & Hn & Hturns & Hlast).
  exists n, l1. split_and!; try done.
  { unfold R1ES.optimize. by rewrite Hpro, Hgens. }
  all: pose proof (generation_counted _ _ Hlast)
         as (Hcount & _ & Hsigma & _ & Hmean & Hp & Hs); cbn; try done.
  rewrite Hcount, (turns_counted _ _ _ Hturns).
  apply prologue_inv in Hpro as (-> & _). cbn zeta.
  set (self0 := R1ES.with_es _ self).
  destruct (initialize_unfold self0 false) as [g ->]. subst self0. cbn.
  unfold ES.optimize. by destruct fitness.
Qed.

End R1ES_results.

(** ** R1ES: the fitness history *)

Section R1ES_history.
Context {F G : Type} `{Numeric F} `{RandomSource F G}.
Import Core.
Variable clock : nat → nat.
Implicit Types (self : R1ES.R1ES F G) (l : R1ES.locals F G).

(** A restart adds to the history the one value it evaluates. *)
Lemma restart_reinitialize_history l l' :
  R1ES.restart_reinitialize l = Some l' →
  ES.saving_fitness (R1ES.es (R1ES.l_self l'))
  = ES.saving_fitness (R1ES.es (R1ES.l_self l))
  ∧ ∃ b, b ≤ 1
      ∧ n_function_evaluations (R1ES.core (R1ES.l_self l'))
        = n_function_evaluations (R1ES.core (R1ES.l_self l)) + b
      ∧ length (R1ES.l_fitness l')
        = length (R1ES.l_fitness l)
          + (if ES.saving_fitness (R1ES.es (R1ES.l_self l)) then b else 0).
Proof.
  intros Hrestart.
  destruct (ES.restart_reinitialize (R1ES.es (R1ES.l_self l))).1 eqn:Hfired.
  - apply restart_reinitialize_fired in Hrestart
      as (-> & _ & _ & _ & _ & Hy & Hsave); [|done].
    cbn zeta in Hy, Hsave |- *.
    set (self0 := R1ES.with_es _ (R1ES.l_self l)) in *.
    assert (ES.saving_fitness (R1ES.es self0)
            = ES.saving_fitness (R1ES.es (R1ES.l_self l))) as Hsaving.
    { subst self0. cbn. by rewrite (ES_restart_reinitialize_fired _ Hfired). }
    assert (R1ES.core self0 = R1ES.core (R1ES.l_self l)) as Hcore
      by apply core_ES_restart_reinitialize.
    destruct (initialize_unfold self0 true) as [g Hunf].
    rewrite Hunf in Hy, Hsave |- *. cbn [fst snd] in Hy, Hsave |- *.
    split; [cbn; exact Hsaving|]. exists 1. split; [done|]. split.
    { rewrite core_set_d_sigma, core_with_core, core_set__p_2__rr, Hcore.
      done. }
    unfold R1ES.save_first in Hsave. rewrite Hsaving in Hsave.
    destruct (ES.saving_fitness _).
    + apply bind_Some in Hsave as (y0 & _ & Hsave). injection Hsave as <-.
      rewrite length_app. cbn. lia.
    + injection Hsave as <-. lia.
  - rewrite (restart_reinitialize_idle _ Hfired) in Hrestart.
    injection Hrestart as <-. cbn. split; [done|]. exists 0.
    unfold R1ES.core. split_and!; [lia..|].
    destruct (ES.saving_fitness _); lia.
Qed.

(** What one turn of the loop adds to the history: the whole of [y]
    after the sampling, however many of its entries the sampling has
    evaluated, and the value of the new mean when the turn ends with a
    restart. *)
Lemma generation_history l r :
  R1ES.generation clock l = Some r →
  let saving := ES.saving_fitness (R1ES.es (R1ES.l_self l)) in
  let l' := flow_state r in
  ES.saving_fitness (R1ES.es (R1ES.l_self l')) = saving
  ∧ ∃ j b,
      j ≤ ES.n_individuals (R1ES.es (R1ES.l_self l)) ∧ b ≤ 1
      ∧ (0 < j → j ≤ length (R1ES.l_y l))
      ∧ n_function_evaluations (R1ES.core (R1ES.l_self l'))
        = n_function_evaluations (R1ES.core (R1ES.l_self l)) + j + b
      ∧ length (R1ES.l_fitness l')
        = length (R1ES.l_fitness l)
          + (if saving then length (R1ES.l_y l) + b else 0).
Proof.
  intros Hgen saving l'. subst saving l'.
  apply generation_inv in Hgen as (self1 & x1 & y1 & Hit & Hgen).
  pose proof (iterate_effect _ _ _ _ _ _ _ _ _ Hit)
    as (j & Hj & Hcount & _ & _ & _ & Hlen & _ & Hy1 & _).
  cbn zeta in Hcount, Hgen.
  assert (0 < j → j ≤ length (R1ES.l_y l)) as Hlen'
    by (intros Hpos; by apply Hlen).
  apply iterate_self in Hit as ([o1 ->] & _).
  rewrite core_with_core in Hcount.
  change (ES.saving_fitness (R1ES.es (R1ES.with_core (λ _, o1) (R1ES.l_self l))))
    with (ES.saving_fitness (R1ES.es (R1ES.l_self l))) in Hgen.
  destruct (exhausted clock _ _ _).
  { subst r. cbn [flow_state R1ES.l_self R1ES.l_fitness].
    split; [done|]. exists j, 0. split_and!; try done; try lia.
    - rewrite !core_with_core. cbn. lia.
    - destruct (ES.saving_fitness _); rewrite ?length_app; lia. }
  destruct Hgen as (self3 & mean3 & p3 & s3 & y3 & Hupd & Hgen).
  apply _update_distribution_unfold in Hupd as [_ ->]. cbn zeta in Hgen.
  match type of Hgen with
  | if ?b then _ else _ => destruct b
  end.
  - destruct Hgen as (l' & Hrestart & ->).
    apply restart_reinitialize_history in Hrestart
      as (Hsaving & b & Hb & Hcount' & Hhistory).
    cbn [flow_state]. split; [by rewrite Hsaving|].
    exists j, b. split_and!; try done.
    + rewrite Hcount'. cbn. lia.
    + rewrite Hhistory. cbn.
      destruct (ES.saving_fitness (R1ES.es (R1ES.l_self l)));
        rewrite ?length_app; lia.
  - subst r. cbn [flow_state R1ES.l_self R1ES.l_fitness].
    split; [done|]. exists j, 0. split_and!; try done; try lia.
    + cbn. lia.
    + destruct (ES.saving_fitness _); rewrite ?length_app; lia.
Qed.

Lemma generations_history fuel : ∀ l l',
  R1ES.generations clock fuel l = Returns l' →
  ES.saving_fitness (R1ES.es (R1ES.l_self l')) 
  = ES.saving_fitness (R1ES.es (R1ES.l_self l))
  ∧ if ES.saving_fitness (R1ES.es (R1ES.l_self l)) then
      n_function_evaluations (R1ES.core (R1ES.l_self l'))
      + length (R1ES.l_fitness l)
      ≤ n_function_evaluations (R1ES.core (R1ES.l_self l))
        + length (R1ES.l_fitness l')
    else length (R1ES.l_fitness l') = length (R1ES.l_fitness l).
Proof.
  induction fuel as [|fuel IH]; intros l l' Hgens; [done|].
  cbn in Hgens.
  destruct (R1ES.generation clock l) as [r|] eqn:Hgen; [|done].
  apply generation_history in Hgen
    as (Hsaving & j & b & _ & _ & Hj & Hcount & Hhistory).
  cbn zeta in Hsaving, Hcount, Hhistory.
  assert (if ES.saving_fitness (R1ES.es (R1ES.l_self l)) then
            n_function_evaluations (R1ES.core (R1ES.l_self (flow_state r)))
            + length (R1ES.l_fitness l)
            ≤ n_function_evaluations (R1ES.core (R1ES.l_self l))
              + length (R1ES.l_fitness (flow_state r))
          else length (R1ES.l_fitness (flow_state r))
               = length (R1ES.l_fitness l)) as Hstep.
  { destruct (ES.saving_fitness (R1ES.es (R1ES.l_self l))); lia. }
  destruct r as [l1|l1]; cbn [flow_state] in *.
  - apply IH in Hgens as [Hsaving' Hrest]. rewrite Hsaving in Hsaving', Hrest.
    split; [done|].
    destruct (ES.saving_fitness (R1ES.es (R1ES.l_self l))); lia.
  - injection Hgens as <-. done.
Qed.

(** With [saving_fitness], the fitness history that [optimize] hands to
    [_collect_results] has at least one entry for every evaluation of
    the run, and the two numbers differ by the entries of [y] that the
    sampling loops left unevaluated: every turn of the loop appends the
    whole array [y], also the turn in which the sampling was cut short.
    Without [saving_fitness] no turn adds to the history. *)
Theorem history_covers_the_evaluations (fuel : nat) self
    (fitness : option (list F → F)) l0 l :
  R1ES.prologue self fitness = Some l0 →
  R1ES.generations clock fuel l0 = Returns l →
  (if ES.saving_fitness (R1ES.es self) then
     n_function_evaluations (R1ES.core (R1ES.l_self l))
     ≤ n_function_evaluations (R1ES.core self) + length (R1ES.l_fitness l)
   else R1ES.l_fitness l0 = [] ∧ length (R1ES.l_fitness l) = 0)
  ∧ ∀ l1 r,
      R1ES.generation clock l1 = Some r →
      ∃ j b,
        j ≤ ES.n_individuals (R1ES.es (R1ES.l_self l1)) ∧ b ≤ 1
        ∧ (0 < j → j ≤ length (R1ES.l_y l1))
        ∧ n_function_evaluations (R1ES.core (R1ES.l_self (flow_state r)))
          = n_function_evaluations (R1ES.core (R1ES.l_self l1)) + j + b
        ∧ length (R1ES.l_fitness (flow_state r))
          = length (R1ES.l_fitness l1)
            + (if ES.saving_fitness (R1ES.es (R1ES.l_self l1))
               then length (R1ES.l_y l1) + b else 0).
Proof.
  intros Hpro Hgens. split.
  - pose proof (prologue_core _ _ _ Hpro) as (Hcount & _). cbn zeta in Hcount.
    apply generations_history in Hgens as [_ Hrun].
    apply prologue_inv in Hpro as (Hself & _ & _ & _ & _ & Hy & Hsave).
    cbn zeta in Hself, Hy, Hsave.
    set (self0 := R1ES.with_es _ self) in *.
    assert (ES.saving_fitness (R1ES.es self0)
            = ES.saving_fitness (R1ES.es self)) as Hsaving0.
    { subst self0. cbn. unfold ES.optimize. by destruct fitness. }
    assert (ES.saving_fitness (R1ES.es (R1ES.l_self l0))
            = ES.saving_fitness (R1ES.es self)) as Hsaving.
    { rewrite Hself, <- Hsaving0.
      destruct (initialize_unfold self0 false) as [g ->]. done. }
    rewrite Hsaving in Hrun.
    unfold R1ES.save_first in Hsave. rewrite Hsaving0 in Hsave.
    destruct (ES.saving_fitness (R1ES.es self)).
    + apply bind_Some in Hsave as (y0 & _ & Hsave).
      injection Hsave as Hsave. rewrite <- Hsave in Hrun. cbn in Hrun. lia.
    + injection Hsave as Hsave. rewrite <- Hsave in Hrun |- *. done.
  - intros l1 r Hgen. apply generation_history in Hgen as (_ & Hgen).
    exact Hgen.
Qed.

End R1ES_history.

(** ** FEP: a complete generation *)

Section FEP_generation.
Context {F G : Type} `{Numeric F} `{RandomSource F G}.
Import Core.
Variable clock : nat → nat.
Implicit Types (self : FEP.FEP F G) (h : FEP.store F) (a : FEP.population).

(** *** Reads after writes *)

Lemma set_row_inv h r i row h' :
  FEP.set_row h r i row = Some h' →
  ∃ m, FEP.mats h !! r = Some m ∧ i < length m
    ∧ h' = {| FEP.mats := <[r := <[i := row]> m]> (FEP.mats h);
              FEP.vecs := FEP.vecs h |}.
Proof.
  unfold FEP.set_row. intros Hs.
  apply bind_Some in Hs as (m & Hm & Hs).
  apply bind_Some in Hs as (m' & [Hi ->]%set_item_Some & Hs).
  simplify_eq. eauto.
Qed.

Lemma get_row_insert h r (m : list (list F)) r' i' :
  FEP.get_row {| FEP.mats := <[r := m]> (FEP.mats h); FEP.vecs := FEP.vecs h |}
    r' i'
  = if decide (r' = r) then m !! i' else FEP.get_row h r' i'.
Proof.
  unfold FEP.get_row. cbn. case_decide as Hr.
  - subst r'. by rewrite lookup_insert_eq.
  - by rewrite lookup_insert_ne.
Qed.

Lemma get_row_set2 h r i j v h' r' i' :
  FEP.set2 h r i j v = Some h' → r' ≠ r ∨ i' ≠ i →
  FEP.get_row h' r' i' = FEP.get_row h r' i'.
Proof.
  intros (m & row & Hm & Hrow & Hj & ->)%set2_inv Hne.
  rewrite get_row_insert. case_decide as Hr; [|done]. subst r'.
  destruct Hne as [?|Hi]; [done|].
  rewrite list_lookup_insert_ne by done. unfold FEP.get_row. by rewrite Hm.
Qed.

Lemma get_row_set_row h r i row h' :
  FEP.set_row h r i row = Some h' →
  FEP.get_row h' r i = Some row
  ∧ ∀ r' i', r' ≠ r ∨ i' ≠ i → FEP.get_row h' r' i' = FEP.get_row h r' i'.
Proof.
  intros (m & Hm & Hi & ->)%set_row_inv. split.
  - rewrite get_row_insert, decide_True by done.
    by apply list_lookup_insert_eq.
  - intros r' i' Hne. rewrite get_row_insert. case_decide as Hr; [|done].
    subst r'. destruct Hne as [?|Hi']; [done|].
    rewrite list_lookup_insert_ne by done. unfold FEP.get_row. by rewrite Hm.
Qed.

Lemma get_row_set1 h r i v h' r' i' :
  FEP.set1 h r i v = Some h' → FEP.get_row h' r' i' = FEP.get_row h r' i'.
Proof. by intros (u & _ & _ & ->)%set1_inv. Qed.

Lemma get1_set2 h r i j v h' r' i' :
  FEP.set2 h r i j v = Some h' → get1 h' r' i' = get1 h r' i'.
Proof. by intros (m & row & _ & _ & _ & ->)%set2_inv. Qed.

Lemma get1_set_row h r i row h' r' i' :
  FEP.set_row h r i row = Some h' → get1 h' r' i' = get1 h r' i'.
Proof. by intros (m & _ & _ & ->)%set_row_inv. Qed.

Lemma get1_set1 h r i v h' :
  FEP.set1 h r i v = Some h' →
  get1 h' r i = Some v
  ∧ ∀ r' i', r' ≠ r ∨ i' ≠ i → get1 h' r' i' = get1 h r' i'.
Proof.
  intros (u & Hu & Hi & ->)%set1_inv. unfold get1. cbn. split.
  - rewrite lookup_insert_eq. cbn. by apply list_lookup_insert_eq.
  - intros r' i' Hne. destruct (decide (r' = r)) as [->|Hr].
    + rewrite lookup_insert_eq, Hu. cbn.
      destruct Hne as [?|Hi']; [done|]. by apply list_lookup_insert_ne.
    + by rewrite lookup_insert_ne.
Qed.

(** *** Writes keep the shapes *)

Lemma matrix_insert (n d i : nat) (m : list (list F)) (row : list F) :
  matrix n d m → length row = d → matrix n d (<[i := row]> m).
Proof.
  intros [Hlen Hrows] Hrow. split; [by rewrite length_insert|].
  intros i' row' Hlook. destruct (decide (i = i')) as [<-|Hne].
  - apply list_lookup_insert_Some in Hlook as [(_ & <- & _)|[? _]]; done.
  - rewrite list_lookup_insert_ne in Hlook by done. eauto.
Qed.

Lemma populated_mats h a n d r (m : list (list F)) :
  populated h a n d → matrix n d m →
  populated {| FEP.mats := <[r := m]> (FEP.mats h); FEP.vecs := FEP.vecs h |}
    a n d.
Proof.
  intros [Hmats Hvecs] Hm. split; [|done]. intros r' Hr'. cbn.
  destruct (decide (r' = r)) as [->|Hne].
  - rewrite lookup_insert_eq. eauto.
  - rewrite lookup_insert_ne by done. auto.
Qed.

Lemma populated_vecs h a n d r (u : list F) :
  populated h a n d → length u = n →
  populated {| FEP.mats := FEP.mats h; FEP.vecs := <[r := u]> (FEP.vecs h) |}
    a n d.
Proof.
  intros [Hmats Hvecs] Hu. split; [done|]. intros r' Hr'. cbn.
  destruct (decide (r' = r)) as [->|Hne].
  - rewrite lookup_insert_eq. eauto.
  - rewrite lookup_insert_ne by done. auto.
Qed.

Lemma set2_populated h a n d r i j v h' :
  r ∈ [FEP.x a; FEP.sigmas a; FEP.offspring_x a; FEP.offspring_sigmas a] →
  FEP.set2 h r i j v = Some h' → populated h a n d → populated h' a n d.
Proof.
  intros Hr (m & row & Hm & Hrow & Hj & ->)%set2_inv Hpop.
  apply populated_mats; [done|].
  destruct Hpop as [Hmats _]. destruct (Hmats r Hr) as (m' & Hm' & Hmat).
  simplify_eq. apply matrix_insert; [done|].
  rewrite length_insert. destruct Hmat as [_ Hrows]. eauto.
Qed.

Lemma set_row_populated h a n d r i row h' :
  r ∈ [FEP.x a; FEP.sigmas a; FEP.offspring_x a; FEP.offspring_sigmas a] →
  length row = d →
  FEP.set_row h r i row = Some h' → populated h a n d → populated h' a n d.
Proof.
  intros Hr Hrow (m & Hm & Hi & ->)%set_row_inv Hpop.
  apply populated_mats; [done|].
  destruct Hpop as [Hmats _]. destruct (Hmats r Hr) as (m' & Hm' & Hmat).
  simplify_eq. by apply matrix_insert.
Qed.

Lemma set1_populated h a n d r i v h' :
  r ∈ [FEP.y a; FEP.offspring_y a] →
  FEP.set1 h r i v = Some h' → populated h a n d → populated h' a n d.
Proof.
  intros Hr (u & Hu & Hi & ->)%set1_inv Hpop.
  apply populated_vecs; [done|].
  destruct Hpop as [_ Hvecs]. destruct (Hvecs r Hr) as (u' & Hu' & Hlen).
  simplify_eq. by rewrite length_insert.
Qed.

Lemma populated_shaped h a n d : populated h a n d → shaped h a n d.
Proof.
  intros [Hmats Hvecs]. split_and!.
  - intros r Hr. destruct (Hmats r Hr) as (m & Hm & Hlen & Hrows).
    exists m. split; [done|]. split; [lia|].
    intros i row _ Hrow. apply Hrows in Hrow. lia.
  - destruct (Hvecs (FEP.offspring_y a)) as (u & Hu & Hlen); [set_solver|].
    exists u. split; [done|lia].
  - destruct (Hvecs (FEP.y a)) as (u & Hu & Hlen); [set_solver|]. by eexists.
Qed.

Lemma populated_get_row h a n d r i :
  populated h a n d → i < n →
  r ∈ [FEP.x a; FEP.sigmas a; FEP.offspring_x a; FEP.offspring_sigmas a] →
  ∃ row, FEP.get_row h r i = Some row ∧ length row = d.
Proof.
  intros [Hmats _] Hi Hr. destruct (Hmats r Hr) as (m & Hm & Hlen & Hrows).
  destruct (lookup_lt_is_Some_2 m i ltac:(lia)) as [row Hrow].
  exists row. unfold FEP.get_row. rewrite Hm. cbn. eauto.
Qed.

Lemma populated_get1 h a n d r i :
  populated h a n d → i < n → r ∈ [FEP.y a; FEP.offspring_y a] →
  is_Some (get1 h r i).
Proof.
  intros [_ Hvecs] Hi Hr. destruct (Hvecs r Hr) as (u & Hu & Hlen).
  unfold get1. rewrite Hu. cbn. apply lookup_lt_is_Some_2. lia.
Qed.

(** *** The sampling loop *)

(** The inner loop writes row [i] of the two 2-d arrays of the offspring
    and nothing else. *)
Lemma mutations_rows a i ks h self r n d :
  distinct a → populated h a n d →
  for_each (FEP.mutate a i) ks (h, self) = Some r →
  ∃ h' g,
    r = Next (h', FEP.with_base (set_rng_optimization g) self)
    ∧ populated h' a n d
    ∧ (∀ i', parent h' a i' = parent h a i')
    ∧ (∀ i', i' ≠ i → child h' a i' = child h a i')
    ∧ (∀ i', get1 h' (FEP.offspring_y a) i' = get1 h (FEP.offspring_y a) i').
Proof.
  intros (Hxs & Hxox & Hxos & Hsox & Hsos & Hoxos & Hy) Hpop Hrun.
  set (I := λ st : FEP.store F * FEP.FEP F G,
         ∃ g, st.2 = FEP.with_base (set_rng_optimization g) self
              ∧ populated st.1 a n d
              ∧ (∀ i', parent st.1 a i' = parent h a i')
              ∧ (∀ i', i' ≠ i → child st.1 a i' = child h a i')
              ∧ (∀ i', get1 st.1 (FEP.offspring_y a) i'
                       = get1 h (FEP.offspring_y a) i')).
  assert (Hres : match r with Next st => I st | Return _ => False end).
  { apply (for_each_rule I (λ _, False) (FEP.mutate a i) ks (h, self));
      [| |done].
    - intros j [h1 self1] r1 _ (g1 & Hs1 & Hpop1 & Hpar1 & Hch1 & Hoy1) Hbody.
      cbn in Hs1, Hpop1, Hpar1, Hch1, Hoy1. subst self1.
      apply mutate_inv in Hbody as (h2 & h3 & g2 & v1 & v2 & -> & Hw1 & Hw2).
      exists g2. cbn. split_and!.
      + reflexivity.
      + eapply set2_populated; [|exact Hw2|]; [set_solver|].
        eapply set2_populated; [|exact Hw1|]; [set_solver|done].
      + intros i'. rewrite <- Hpar1. unfold parent, individual.
        rewrite (get_row_set2 _ _ _ _ _ _ (FEP.x a) i' Hw2) by (by left).
        rewrite (get_row_set2 _ _ _ _ _ _ (FEP.x a) i' Hw1) by (by left).
        rewrite (get_row_set2 _ _ _ _ _ _ (FEP.sigmas a) i' Hw2) by (by left).
        rewrite (get_row_set2 _ _ _ _ _ _ (FEP.sigmas a) i' Hw1) by (by left).
        by rewrite (get1_set2 _ _ _ _ _ _ _ _ Hw2), (get1_set2 _ _ _ _ _ _ _ _ Hw1).
      + intros i' Hi'. rewrite <- Hch1 by done. unfold child, individual.
        rewrite (get_row_set2 _ _ _ _ _ _ (FEP.offspring_x a) i' Hw2) by (by right).
        rewrite (get_row_set2 _ _ _ _ _ _ (FEP.offspring_x a) i' Hw1) by (by right).
        rewrite (get_row_set2 _ _ _ _ _ _ (FEP.offspring_sigmas a) i' Hw2)
          by (by right).
        rewrite (get_row_set2 _ _ _ _ _ _ (FEP.offspring_sigmas a) i' Hw1)
          by (by right).
        by rewrite (get1_set2 _ _ _ _ _ _ _ _ Hw2), (get1_set2 _ _ _ _ _ _ _ _ Hw1).
      + intros i'. rewrite <- Hoy1.
        by rewrite (get1_set2 _ _ _ _ _ _ _ _ Hw2), (get1_set2 _ _ _ _ _ _ _ _ Hw1).
    - exists (rng_optimization (FEP.base self)). cbn.
      split_and!; try done. by destruct self as [[]]. }
  destruct r as [[h' self']|st]; [|done].
  destruct Hres as (g & Hself & Hrest). cbn in Hself. subst self'. eauto 10.
Qed.

(** One offspring that is sampled and evaluated: its row of the three
    arrays of the offspring is written, with the value of the fitness
    function at its point as its fitness; the other offspring and the
    parents stay. *)
Lemma fep_offspring_step a i h self h1 self1 n d :
  distinct a → populated h a n d →
  FEP.offspring clock a i (h, self) = Some (Next (h1, self1)) →
  populated h1 a n d
  ∧ fitness_function (FEP.base self1) = fitness_function (FEP.base self)
  ∧ (∀ i', parent h1 a i' = parent h a i')
  ∧ (∃ row s,
       child h1 a i = Some (row, s, fitness_function (FEP.base self) row))
  ∧ (∀ i', i' ≠ i → child h1 a i' = child h a i').
Proof.
  intros Hdistinct Hpop Hbody.
  pose proof Hdistinct as (Hxs & Hxox & Hxos & Hsox & Hsos & Hoxos & Hy).
  unfold FEP.offspring in Hbody.
  set (o := FEP.base self) in *.
  change (_check_terminations clock o)
    with (exhausted clock o (n_function_evaluations o) (ticks o),
          (_check_terminations clock o).2) in Hbody.
  cbn beta iota zeta in Hbody.
  destruct (exhausted _ _ _ _); [done|].
  apply bind_Some in Hbody as ([h2x self2] & Hloop & Hbody).
  apply fmap_Some in Hloop as (r1 & Hloop & Hr1).
  apply (mutations_rows _ _ _ _ _ _ n d Hdistinct Hpop) in Hloop
    as (h2 & g & -> & Hpop2 & Hpar2 & Hch2 & Hoy2).
  cbn in Hr1. injection Hr1 as -> ->.
  apply bind_Some in Hbody as (row & Hrow & Hbody).
  destruct (_evaluate_fitness _ row) as [v o'] eqn:Hv.
  apply bind_Some in Hbody as (h3 & Hw & Hbody).
  injection Hbody as <- <-.
  unfold _evaluate_fitness in Hv. injection Hv as <- <-.
  pose proof (set1_inv _ _ _ _ _ Hw) as (u & Hu & Hi & _).
  assert (i < n) as Hin.
  { destruct Hpop2 as [_ Hvecs].
    destruct (Hvecs (FEP.offspring_y a)) as (u' & Hu' & Hlen); [set_solver|].
    simplify_eq. lia. }
  destruct (get1_set1 _ _ _ _ _ Hw) as [Hnew Hold].
  split_and!.
  - eapply set1_populated; [|exact Hw|done]. set_solver.
  - done.
  - intros i'. rewrite <- Hpar2. unfold parent, individual.
    rewrite !(get_row_set1 _ _ _ _ _ _ _ Hw).
    rewrite (Hold (FEP.y a) i') by (by left). done.
  - destruct (populated_get_row h2 a n d (FEP.offspring_sigmas a) i)
      as (s & Hs & _); [done|done|set_solver|].
    exists row, s. unfold child, individual.
    rewrite !(get_row_set1 _ _ _ _ _ _ _ Hw), Hrow, Hs, Hnew. done.
  - intros i' Hi'. rewrite <- Hch2 by done. unfold child, individual.
    rewrite !(get_row_set1 _ _ _ _ _ _ _ Hw).
    rewrite (Hold (FEP.offspring_y a) i') by (by right). done.
Qed.

(** The offspring [s], ..., [s + j - 1] sampled and evaluated. *)
Lemma fep_sampling a n d j : ∀ s h self h' self',
  distinct a → populated h a n d →
  for_each (FEP.offspring clock a) (seq s j) (h, self) = Some (Next (h', self')) →
  populated h' a n d
  ∧ fitness_function (FEP.base self') = fitness_function (FEP.base self)
  ∧ (∀ i, parent h' a i = parent h a i)
  ∧ (∀ i, s ≤ i < s + j →
       ∃ row sg,
         child h' a i = Some (row, sg, fitness_function (FEP.base self) row))
  ∧ (∀ i, ¬ (s ≤ i < s + j) → child h' a i = child h a i).
Proof.
  induction j as [|j IH]; intros s h self h' self' Hdistinct Hpop Hrun.
  { cbn in Hrun. injection Hrun as <- <-. split_and!; try done. lia. }
  cbn [seq for_each] in Hrun.
  destruct (FEP.offspring clock a s (h, self)) as [[[h1 self1]|?]|] eqn:Hbody;
    [|done..].
  apply (fep_offspring_step _ _ _ _ _ _ n d Hdistinct Hpop) in Hbody
    as (Hpop1 & Hf1 & Hpar1 & (row & sg & Hnew1) & Hold1).
  apply (IH _ _ _ _ _ Hdistinct Hpop1) in Hrun
    as (Hpop' & Hf' & Hpar' & Hnew' & Hold').
  split_and!.
  - done.
  - congruence.
  - intros i. by rewrite Hpar', Hpar1.
  - intros i Hi. destruct (decide (i = s)) as [->|Hne].
    + exists row, sg. rewrite Hold' by lia. done.
    + destruct (Hnew' i) as (row' & sg' & Hrow'); [lia|].
      exists row', sg'. by rewrite Hrow', Hf1.
  - intros i Hi. rewrite Hold' by lia. apply Hold1. lia.
Qed.

(** *** The tournament *)

Lemma duels_run (new_y : list F) (i : nat) (opponents : list nat)
    (n_win : list F) :
  i < length new_y → length n_win = length new_y →
  Forall (λ j, j < length new_y) opponents →
  ∃ n_win', for_each (FEP.duel new_y i) opponents n_win = Some (Next n_win')
            ∧ length n_win' = length new_y.
Proof.
  intros Hi Hlen Hopp.
  apply (for_each_runs (λ w : list F, length w = length new_y)); [done|].
  intros j w Hj Hw. rewrite Forall_forall in Hopp. apply Hopp in Hj.
  unfold FEP.duel.
  destruct (lookup_lt_is_Some_2 new_y i Hi) as [yi ->].
  destruct (lookup_lt_is_Some_2 new_y j Hj) as [yj ->]. cbn.
  destruct (fleb yi yj); [|by eexists].
  destruct (lookup_lt_is_Some_2 w i ltac:(lia)) as [wi ->]. cbn.
  rewrite set_item_lt by lia. cbn. eexists. split; [done|].
  by rewrite length_insert.
Qed.

Lemma tournament_runs self (new_y n_win : list F) (g : G) :
  lawful_choice →
  length new_y = 2 * FEP.n_individuals self →
  length n_win = 2 * FEP.n_individuals self →
  ∃ n_win' g',
    for_each (FEP.tournament self new_y) (seq 0 (2 * FEP.n_individuals self))
      (n_win, g) = Some (Next (n_win', g'))
    ∧ length n_win' = 2 * FEP.n_individuals self.
Proof.
  intros Hchoice Hy Hw.
  destruct (for_each_runs
              (λ st : list F * G, length st.1 = 2 * FEP.n_individuals self)
              (FEP.tournament self new_y)
              (seq 0 (2 * FEP.n_individuals self)) (n_win, g))
    as ([n_win' g'] & Hrun & Hlen); [done| |by eauto].
  intros i [w g1] Hi%elem_of_seq Hlen. cbn in Hlen.
  unfold FEP.tournament.
  pose proof (Hchoice (2 * FEP.n_individuals self) (FEP.q self) g1
                ltac:(lia)) as Hopp.
  destruct (choice _ _ g1) as [opponents g2]. cbn in Hopp.
  destruct (duels_run new_y i opponents w) as (w' & -> & Hw');
    [lia|lia|by rewrite Hy|].
  cbn. eexists. split; [done|]. cbn. lia.
Qed.

(** *** The selection *)

(** One turn of the loop of lines 115-118: individual [order[i]] of the
    merged population becomes parent [i], whole; the other parents and
    the offspring stay. *)
Lemma survive_step a (new_x new_sigmas : list (list F)) (new_y : list F)
    (order : list nat) (i k : nat) h n d (row sg : list F) (v : F) :
  distinct a → populated h a n d → i < n →
  order !! i = Some k →
  new_x !! k = Some row → new_sigmas !! k = Some sg → new_y !! k = Some v →
  length row = d → length sg = d →
  ∃ h',
    FEP.survive a new_x new_sigmas new_y order i h = Some (Next h')
    ∧ populated h' a n d
    ∧ parent h' a i = Some (row, sg, v)
    ∧ (∀ i', i' ≠ i → parent h' a i' = parent h a i')
    ∧ (∀ i', child h' a i' = child h a i').
Proof.
  intros (Hxs & Hxox & Hxos & Hsox & Hsos & Hoxos & Hy) Hpop Hi Hk
    Hrow Hsg Hv Hlrow Hlsg.
  unfold FEP.survive. rewrite Hk. cbn. rewrite Hrow. cbn.
  assert (∀ h0 r row0, populated h0 a n d →
            r ∈ [FEP.x a; FEP.sigmas a; FEP.offspring_x a;
                 FEP.offspring_sigmas a] →
            ∃ h1, FEP.set_row h0 r i row0 = Some h1) as Hset.
  { intros h0 r row0 [Hmats _] Hr.
    destruct (Hmats r Hr) as (m & Hm & Hlen & _).
    unfold FEP.set_row. rewrite Hm. cbn. rewrite set_item_lt by lia.
    cbn. eauto. }
  destruct (Hset h (FEP.x a) row Hpop) as [h1 Hw1]; [set_solver|].
  rewrite Hw1. cbn. rewrite Hsg. cbn.
  pose proof (set_row_populated h a n d (FEP.x a) i row h1
                ltac:(set_solver) Hlrow Hw1 Hpop) as Hpop1.
  destruct (Hset h1 (FEP.sigmas a) sg Hpop1) as [h2 Hw2]; [set_solver|].
  rewrite Hw2. cbn. rewrite Hv. cbn.
  pose proof (set_row_populated h1 a n d (FEP.sigmas a) i sg h2
                ltac:(set_solver) Hlsg Hw2 Hpop1) as Hpop2.
  assert (∃ h3, FEP.set1 h2 (FEP.y a) i v = Some h3) as [h3 Hw3].
  { destruct Hpop2 as [_ Hvecs].
    destruct (Hvecs (FEP.y a)) as (u & Hu & Hlen); [set_solver|].
    unfold FEP.set1. rewrite Hu. cbn. rewrite set_item_lt by lia.
    cbn. eauto. }
  rewrite Hw3. cbn. exists h3. split; [done|].
  destruct (get_row_set_row _ _ _ _ _ Hw1) as [Hx1 Hother1].
  destruct (get_row_set_row _ _ _ _ _ Hw2) as [Hs2 Hother2].
  destruct (get1_set1 _ _ _ _ _ Hw3) as [Hy3 Hother3].
  split_and!.
  - eapply set1_populated; [|exact Hw3|done]. set_solver.
  - unfold parent, individual.
    rewrite !(get_row_set1 _ _ _ _ _ _ _ Hw3).
    rewrite (Hother2 (FEP.x a) i) by (by left).
    rewrite Hx1, Hs2, Hy3. done.
  - intros i' Hi'. unfold parent, individual.
    rewrite !(get_row_set1 _ _ _ _ _ _ _ Hw3).
    rewrite (Hother2 (FEP.x a) i') by (by left).
    rewrite (Hother1 (FEP.x a) i') by (by right).
    rewrite (Hother2 (FEP.sigmas a) i') by (by right).
    rewrite (Hother1 (FEP.sigmas a) i') by (by left).
    rewrite (Hother3 (FEP.y a) i') by (by right).
    by rewrite (get1_set_row _ _ _ _ _ _ _ Hw2), (get1_set_row _ _ _ _ _ _ _ Hw1).
  - intros i'. unfold child, individual.
    rewrite !(get_row_set1 _ _ _ _ _ _ _ Hw3).
    rewrite (Hother2 (FEP.offspring_x a) i') by (by left).
    rewrite (Hother1 (FEP.offspring_x a) i') by (by left).
    rewrite (Hother2 (FEP.offspring_sigmas a) i') by (by left).
    rewrite (Hother1 (FEP.offspring_sigmas a) i') by (by left).
    rewrite (Hother3 (FEP.offspring_y a) i') by (left; congruence).
    by rewrite (get1_set_row _ _ _ _ _ _ _ Hw2), (get1_set_row _ _ _ _ _ _ _ Hw1).
Qed.

(** The individual [k] of [new_x], [new_sigmas], [new_y]. *)
Lemma survivors a (new_x new_sigmas : list (list F)) (new_y : list F)
    (order : list nat) (n d N : nat) (j : nat) : ∀ s h,
  distinct a → populated h a n d → s + j ≤ n →
  n ≤ length order → Forall (λ k, k < N) order →
  matrix N d new_x → matrix N d new_sigmas → length new_y = N →
  ∃ h',
    for_each (FEP.survive a new_x new_sigmas new_y order) (seq s j) h
    = Some (Next h')
    ∧ populated h' a n d
    ∧ (∀ i, s ≤ i < s + j →
         ∃ k row sg v,
           order !! i = Some k ∧ new_x !! k = Some row
           ∧ new_sigmas !! k = Some sg ∧ new_y !! k = Some v
           ∧ parent h' a i = Some (row, sg, v))
    ∧ (∀ i, ¬ (s ≤ i < s + j) → parent h' a i = parent h a i)
    ∧ (∀ i, child h' a i = child h a i).
Proof.
  induction j as [|j IH];
    intros s h Hdistinct Hpop Hs Horder Hbound Hx Hsg Hy.
  { exists h. split_and!; try done. lia. }
  cbn [seq for_each].
  destruct (lookup_lt_is_Some_2 order s ltac:(lia)) as [k Hk].
  assert (k < N) as HkN.
  { rewrite Forall_forall in Hbound. apply Hbound.
    by eapply list_elem_of_lookup_2. }
  destruct Hx as [Hxlen Hxrows]. destruct Hsg as [Hsglen Hsgrows].
  destruct (lookup_lt_is_Some_2 new_x k ltac:(lia)) as [row Hrow].
  destruct (lookup_lt_is_Some_2 new_sigmas k ltac:(lia)) as [sg Hsgk].
  destruct (lookup_lt_is_Some_2 new_y k ltac:(lia)) as [v Hv].
  destruct (survive_step a new_x new_sigmas new_y order s k h n d row sg v)
    as (h1 & -> & Hpop1 & Hnew1 & Hold1 & Hch1); eauto; [lia|].
  destruct (IH (S s) h1) as (h' & Hrun & Hpop' & Hnew' & Hold' & Hch');
    try done; [lia|].
  exists h'. split_and!; try done.
  - intros i Hi. destruct (decide (i = s)) as [->|Hne].
    + exists k, row, sg, v. rewrite Hold' by lia. done.
    + apply Hnew'. lia.
  - intros i Hi. rewrite Hold' by lia. apply Hold1. lia.
  - intros i. by rewrite Hch', Hch1.
Qed.

(** *** The generation *)

Lemma merged_individual h a n d (k : nat) (ox px os ps : list (list F))
    (oy py : list F) :
  populated h a n d →
  FEP.mats h !! FEP.offspring_x a = Some ox → FEP.mats h !! FEP.x a = Some px →
  FEP.mats h !! FEP.offspring_sigmas a = Some os →
  FEP.mats h !! FEP.sigmas a = Some ps →
  FEP.vecs h !! FEP.offspring_y a = Some oy → FEP.vecs h !! FEP.y a = Some py →
  (row ← (ox ++ px) !! k; sg ← (os ++ ps) !! k; v ← (oy ++ py) !! k;
   Some (row, sg, v))
  = if decide (k < n) then child h a k else parent h a (k - n).
Proof.
  intros [Hmats Hvecs] Hox Hpx Hos Hps Hoy Hpy.
  assert (length ox = n ∧ length os = n ∧ length oy = n) as (Hlx & Hls & Hly).
  { destruct (Hmats (FEP.offspring_x a)) as (? & ? & ? & _); [set_solver|].
    destruct (Hmats (FEP.offspring_sigmas a)) as (? & ? & ? & _); [set_solver|].
    destruct (Hvecs (FEP.offspring_y a)) as (? & ? & ?); [set_solver|].
    by simplify_eq. }
  unfold child, parent, individual, FEP.get_row, get1.
  rewrite Hox, Hpx, Hos, Hps, Hoy, Hpy. cbn.
  case_decide as Hk.
  - by rewrite !lookup_app_l by lia.
  - rewrite !lookup_app_r by lia. by rewrite Hlx, Hls, Hly.
Qed.

(** A generation that the budget does not cut short. [FEP.iterate]
    evaluates [n_individuals] offspring, each stored with the value of
    the fitness function at its point, and returns without an exception.
    Every new parent is one individual of the merged population, whole:
    its point, its step-sizes and its fitness are those of one offspring
    of this generation or of one parent of the last, and no individual
    is selected twice when [argsort] returns a permutation. So parents
    that carried the fitness of their points at the call carry it at
    the return. *)
Theorem selection_keeps_individuals_whole self a h :
  let o := FEP.base self in
  let n := FEP.n_individuals self in
  let d := ndim_problem o in
  distinct a → populated h a n d → lawful_arrays → lawful_choice →
  (∀ i, i < n →
     exhausted clock o (n_function_evaluations o + i) (ticks o + i) = false) →
  ∃ h' self' order,
    FEP.iterate clock self a h = Some (h', self')
    ∧ n_function_evaluations (FEP.base self') = n_function_evaluations o + n
    ∧ populated h' a n d
    ∧ attached (fitness_function o) (child h' a) n
    ∧ length order = 2 * n
    ∧ (argsort_permutes → NoDup order)
    ∧ (∀ i, i < n →
         ∃ k, order !! i = Some k ∧ k < 2 * n
              ∧ is_Some (parent h' a i)
              ∧ parent h' a i
                = if decide (k < n) then child h' a k else parent h a (k - n))
    ∧ (attached (fitness_function o) (parent h a) n →
       attached (fitness_function o) (parent h' a) n).
Proof.
  intros o n d Hdistinct Hpop (Hlen_argsort & Hin_argsort & _) Hchoice Hpolls.
  destruct (fep_offspring_prefix_runs clock a n n 0 h self)
    as [[h1 self1] Hrun]; [lia|by apply populated_shaped|done|].
  pose proof (fep_offspring_prefix _ _ _ _ _ _ _ _ Hrun)
    as (o1 & -> & _ & Hcount & _).
  pose proof (fep_sampling _ _ _ _ _ _ _ _ _ Hdistinct Hpop Hrun)
    as (Hpop1 & Hf & Hpar1 & Hnew1 & _).
  fold o in Hcount, Hf, Hnew1.
  pose proof Hpop1 as [Hmats1 Hvecs1].
  destruct (Hmats1 (FEP.offspring_x a)) as (ox & Hox & Hoxm); [set_solver|].
  destruct (Hmats1 (FEP.x a)) as (px & Hpx & Hpxm); [set_solver|].
  destruct (Hmats1 (FEP.offspring_sigmas a)) as (os & Hos & Hosm); [set_solver|].
  destruct (Hmats1 (FEP.sigmas a)) as (ps & Hps & Hpsm); [set_solver|].
  destruct (Hvecs1 (FEP.offspring_y a)) as (oy & Hoy & Hoyl); [set_solver|].
  destruct (Hvecs1 (FEP.y a)) as (py & Hpy & Hpyl); [set_solver|].
  assert (∀ m1 m2 : list (list F),
            matrix n d m1 → matrix n d m2 → matrix (2 * n) d (m1 ++ m2))
    as Hmerge.
  { intros m1 m2 [Hl1 Hr1] [Hl2 Hr2]. split; [rewrite length_app; lia|].
    intros i row [?|[_ ?]]%lookup_app_Some; eauto. }
  destruct (tournament_runs (FEP.with_base (λ _, o1) self) (oy ++ py)
              (np_zeros (2 * n)) (rng_optimization o1)) as (n_win & g & Hduel & Hwin);
    [done|rewrite length_app; cbn; lia|
     by unfold np_zeros; rewrite length_replicate|].
  change (FEP.n_individuals (FEP.with_base (λ _, o1) self)) with n in Hduel, Hwin.
  set (order := reverse (np_argsort n_win)).
  assert (length order = 2 * n) as Horder.
  { subst order. by rewrite length_reverse, Hlen_argsort. }
  assert (Forall (λ k, k < 2 * n) order) as Hbound.
  { apply Forall_forall. intros k Hk. subst order.
    apply elem_of_reverse, Hin_argsort in Hk. lia. }
  destruct (survivors a (ox ++ px) (os ++ ps) (oy ++ py) order n d (2 * n) n 0 h1)
    as (h' & Hsurvive & Hpop' & Hnew' & _ & Hch');
    [done|done|lia|lia|done|by apply Hmerge|by apply Hmerge|
     rewrite length_app; lia|].
  exists h', (FEP.with_base (set_rng_optimization g) (FEP.with_base (λ _, o1) self)),
    order.
  assert (∀ i, i < n →
            ∃ k, order !! i = Some k ∧ k < 2 * n
                 ∧ is_Some (parent h' a i)
                 ∧ parent h' a i
                   = if decide (k < n) then child h' a k else parent h a (k - n))
    as Hselected.
  { intros i Hi. destruct (Hnew' i) as (k & row & sg & v & Hk & Hrow & Hsg & Hv & Hp);
      [lia|].
    exists k. split; [done|]. split.
    { rewrite Forall_forall in Hbound. apply Hbound.
      by eapply list_elem_of_lookup_2. }
    split; [by rewrite Hp|].
    rewrite Hp, Hch', <- Hpar1.
    rewrite <- (merged_individual h1 a n d k ox px os ps oy py) by done.
    by rewrite Hrow, Hsg, Hv. }
  split_and!.
  - unfold FEP.iterate. fold n. rewrite Hrun. cbn -[FEP.tournament FEP.survive Nat.mul np_zeros].
    rewrite Hox, Hpx, Hos, Hps, Hoy, Hpy. cbn -[FEP.tournament FEP.survive Nat.mul np_zeros].
    fold n. rewrite Hduel. cbn -[FEP.tournament FEP.survive Nat.mul np_zeros].
    fold order. fold n. rewrite Hsurvive. done.
  - cbn. exact Hcount.
  - done.
  - intros i Hi. rewrite Hch'. apply Hnew1. lia.
  - done.
  - intros Hperm. subst order.
    rewrite reverse_Permutation, (Hperm n_win). apply NoDup_seq.
  - done.
  - intros Hattached i Hi.
    destruct (Hselected i Hi) as (k & _ & Hk & _ & ->).
    case_decide as Hkn.
    + rewrite Hch'. apply Hnew1. lia.
    + apply Hattached. lia.
Qed.

End FEP_generation.

(** ** R1ES: the damping factor across restarts *)

Section R1ES_damping.
Context {F G : Type} `{Numeric F} `{RandomSource F G}.
Import Core.
Variable clock : nat → nat.
Implicit Types (self : R1ES.R1ES F G) (l : R1ES.locals F G).

(** [d_sigma] after [k] more restarts. *)
Lemma restart_reinitialize_damping l l' :
  R1ES.restart_reinitialize l = Some l' →
  ∃ k, k ≤ 1
    ∧ ES.n_restart (R1ES.es (R1ES.l_self l'))
      = ES.n_restart (R1ES.es (R1ES.l_self l)) + k
    ∧ R1ES.d_sigma (R1ES.l_self l')
      = Nat.iter k (λ d, fmul d (fconst 2.0)) (R1ES.d_sigma (R1ES.l_self l)).
Proof.
  intros Hrestart.
  destruct (ES.restart_reinitialize (R1ES.es (R1ES.l_self l))).1 eqn:Hfired.
  - apply restart_reinitialize_fired in Hrestart as (-> & _); [|done].
    cbn zeta. exists 1. split; [done|].
    set (self0 := R1ES.with_es _ (R1ES.l_self l)).
    destruct (initialize_unfold self0 true) as [g ->]. subst self0. cbn.
    by rewrite (ES_restart_reinitialize_fired _ Hfired).
  - rewrite (restart_reinitialize_idle _ Hfired) in Hrestart.
    injection Hrestart as <-. exists 0. cbn. split_and!; [lia..|done].
Qed.

Lemma generation_damping l r :
  R1ES.generation clock l = Some r →
  ∃ k, k ≤ 1
    ∧ ES.n_restart (R1ES.es (R1ES.l_self (flow_state r)))
      = ES.n_restart (R1ES.es (R1ES.l_self l)) + k
    ∧ R1ES.d_sigma (R1ES.l_self (flow_state r))
      = Nat.iter k (λ d, fmul d (fconst 2.0)) (R1ES.d_sigma (R1ES.l_self l)).
Proof.
  intros Hgen.
  apply generation_inv in Hgen as (self1 & x1 & y1 & Hit & Hgen).
  apply iterate_self in Hit as ([o1 ->] & _). cbn zeta in Hgen.
  destruct (exhausted clock _ _ _).
  { subst r. exists 0. cbn. split_and!; [lia..|done]. }
  destruct Hgen as (self3 & mean3 & p3 & s3 & y3 & Hupd & Hgen).
  apply _update_distribution_unfold in Hupd as [_ ->]. cbn zeta in Hgen.
  match type of Hgen with
  | if ?b then _ else _ => destruct b
  end.
  - destruct Hgen as (l' & Hrestart & ->).
    apply restart_reinitialize_damping in Hrestart. exact Hrestart.
  - subst r. exists 0. cbn. split_and!; [lia..|done].
Qed.

Lemma generations_damping fuel : ∀ l l',
  R1ES.generations clock fuel l = Returns l' →
  ∃ k,
    ES.n_restart (R1ES.es (R1ES.l_self l'))
    = ES.n_restart (R1ES.es (R1ES.l_self l)) + k
    ∧ R1ES.d_sigma (R1ES.l_self l')
      = Nat.iter k (λ d, fmul d (fconst 2.0)) (R1ES.d_sigma (R1ES.l_self l)).
Proof.
  induction fuel as [|fuel IH]; intros l l' Hgens; [done|].
  cbn in Hgens.
  destruct (R1ES.generation clock l) as [r|] eqn:Hgen; [|done].
  apply generation_damping in Hgen as (k1 & _ & Hn1 & Hd1).
  destruct r as [l1|l1]; cbn [flow_state] in *.
  - apply IH in Hgens as (k & Hn & Hd). exists (k + k1).
    split; [lia|]. rewrite Hd, Hd1. by rewrite Nat.iter_add.
  - injection Hgens as <-. eauto.
Qed.

(** The damping factor of the step-size rule after a run is the one
    [__init__] set, the option [d_sigma] or 1.0, doubled once for every
    restart of the run: [d_sigma * 2^k] after [k] restarts, [k] being the
    growth of [n_restart]. *)
Theorem damping_doubles_with_every_restart (fuel : nat) (e : ES.ES F G)
    (options : gmap string F) (fitness : option (list F → F)) l0 l :
  R1ES.prologue (R1ES.__init__ e options) fitness = Some l0 →
  R1ES.generations clock fuel l0 = Returns l →
  ∃ k,
    ES.r_n_restart (R1ES.collected (R1ES.epilogue l)) = ES.n_restart e + k
    ∧ R1ES.d_sigma (R1ES.l_self l)
      = Nat.iter k (λ d, fmul d (fconst 2.0))
          (default (fconst 1.0) (options !! "d_sigma")).
Proof.
  intros Hpro Hgens.
  apply generations_damping in Hgens as (k & Hn & Hd). exists k.
  apply prologue_inv in Hpro as (Hself & _). cbn zeta in Hself.
  set (self0 := R1ES.with_es _ _) in Hself.
  destruct (initialize_unfold self0 false) as [g Hunf].
  rewrite Hunf in Hself. cbn [fst] in Hself.
  rewrite Hself in Hn, Hd. subst self0. cbn in Hn, Hd.
  split; [|exact Hd].
  change (ES.r_n_restart (R1ES.collected (R1ES.epilogue l)))
    with (ES.n_restart (R1ES.es (R1ES.l_self l))).
  rewrite Hn. unfold ES.optimize. by destruct fitness.
Qed.

End R1ES_damping.

(** ** The constructors *)

Section Constructors.
Context {F G : Type} `{Numeric F} `{RandomSource F G}.
Import Core.

(** A rank-one strategy has to be initialized before its distribution is
    updated: on the optimizer that [__init__] returns,
    [_update_distribution] raises an exception, whatever its arguments. *)
Theorem update_before_initialize_raises (e : ES.ES F G)
    (options : gmap string F) (x : list (list F)) (mean p : list F) (s : F)
    (y y_bak : list F) :
  R1ES._update_distribution (R1ES.__init__ e options) x mean p s y y_bak = None.
Proof.
  unfold R1ES._update_distribution.
  destruct (for_each _ _ _) as [r|]; [|done]. done.
Qed.

(** [DS.__init__] sets the counters of generations and of restarts to
    zero and keeps the step-size for the restarts; the maximal stagnation
    is the option ['stagnation'] when it is given and
    [max(32, ndim_problem)] when it is not, with the dimension that the
    constructor of the core class has set from the same options; the
    starting point of the first initialization is the option ['x'] when it
    is given, and no random number is drawn for it; without it, and for
    every restart, the starting point is drawn uniformly within the
    bounds. *)
Theorem direct_search_starts_from_the_options
    (optimizer_init : DS.Options F → Optimizer F G) (options : DS.Options F) :
  let self := DS.__init__ optimizer_init options in
  let o := optimizer_init options in
  DS.r_n_restart (DS._collect_results self []) = 0
  ∧ DS.r__n_generations (DS._collect_results self []) = 0
  ∧ DS.r_sigma (DS._collect_results self []) = DS.opt_sigma options
  ∧ DS._sigma_bak self = DS.sigma self
  ∧ (DS.opt_stagnation options = None →
     DS.stagnation self = Nat.max 32 (ndim_problem o))
  ∧ (∀ n, DS.opt_stagnation options = Some n → DS.stagnation self = n)
  ∧ (∀ x0, DS.opt_x options = Some x0 →
       DS._initialize_x self false = (x0, self))
  ∧ (DS.opt_x options = None →
     (DS._initialize_x self false).1
     = (uniform (initial_lower_boundary o) (initial_upper_boundary o)
          (rng_initialization o)).1)
  ∧ (DS._initialize_x self true).1
    = (uniform (initial_lower_boundary o) (initial_upper_boundary o)
         (rng_initialization o)).1.
Proof.
  intros self o. subst self o. unfold DS.__init__.
  split_and!; try done.
  - by intros ->.
  - by intros n ->.
  - intros x0 Hx. unfold DS._initialize_x. cbn. by rewrite Hx.
  - intros Hx. unfold DS._initialize_x. cbn. rewrite Hx. cbn.
    by destruct (uniform _ _ _).
  - unfold DS._initialize_x. cbn. by destruct (uniform _ _ _).
Qed.

End Constructors.

(** ** FEP: the mutation *)

Section FEP_mutation.
Context {F G : Type} `{Numeric F} `{RandomSource F G}.
Import Core.
Variable clock : nat → nat.
Implicit Types (self : FEP.FEP F G) (h : FEP.store F) (a : FEP.population).

Lemma get2_set2 h r i j v h' :
  FEP.set2 h r i j v = Some h' →
  FEP.get2 h' r i j = Some v
  ∧ ∀ r' i' j', r' ≠ r ∨ i' ≠ i ∨ j' ≠ j →
                FEP.get2 h' r' i' j' = FEP.get2 h r' i' j'.
Proof.
  intros (m & row & Hm & Hrow & Hj & ->)%set2_inv.
  pose proof (lookup_lt_Some _ _ _ Hrow) as Hi.
  unfold FEP.get2. cbn. split.
  - rewrite lookup_insert_eq. cbn. rewrite list_lookup_insert_eq by done. cbn.
    by apply list_lookup_insert_eq.
  - intros r' i' j' Hne. destruct (decide (r' = r)) as [->|Hr].
    + rewrite lookup_insert_eq, Hm. cbn.
      destruct (decide (i' = i)) as [->|Hi'].
      * rewrite list_lookup_insert_eq, Hrow by done. cbn.
        apply list_lookup_insert_ne. by destruct Hne as [?|[?|?]].
      * by rewrite list_lookup_insert_ne.
    + by rewrite lookup_insert_ne.
Qed.

(** One coordinate of one offspring. *)
Lemma mutate_formula a i j h self h' self' :
  distinct a →
  FEP.mutate a i j (h, self) = Some (Next (h', self')) →
  let g := rng_optimization (FEP.base self) in
  self' = FEP.with_base (set_rng_optimization (after_mutation g)) self
  ∧ FEP.get2 h' (FEP.offspring_x a) i j
    = (x_ij ← FEP.get2 h (FEP.x a) i j;
       s_ij ← FEP.get2 h (FEP.sigmas a) i j;
       Some (mutated_point x_ij s_ij g))
  ∧ FEP.get2 h' (FEP.offspring_sigmas a) i j
    = (s_ij ← FEP.get2 h (FEP.sigmas a) i j; Some (mutated_step self s_ij g))
  ∧ (∀ r' i' j',
       (r' ≠ FEP.offspring_x a ∧ r' ≠ FEP.offspring_sigmas a) ∨ i' ≠ i ∨ j' ≠ j →
       FEP.get2 h' r' i' j' = FEP.get2 h r' i' j').
Proof.
  intros (Hxs & Hxox & Hxos & Hsox & Hsos & Hoxos & Hy) Hm g.
  unfold FEP.mutate in Hm. fold g in Hm.
  unfold after_mutation, mutated_point, mutated_step.
  destruct (standard_cauchy g) as [n_j g0]. cbn [fst snd].
  apply bind_Some in Hm as (x_ij & Hx & Hm).
  apply bind_Some in Hm as (s_ij & Hs & Hm).
  apply bind_Some in Hm as (h1 & Hw1 & Hm).
  apply bind_Some in Hm as (s_ij' & Hs' & Hm).
  destruct (standard_normal g0) as [n1 g1]. cbn [fst snd].
  destruct (standard_normal g1) as [n2 g2]. cbn [fst snd].
  apply bind_Some in Hm as (h2 & Hw2 & Hm).
  injection Hm as <- <-.
  destruct (get2_set2 _ _ _ _ _ _ Hw1) as [Hnew1 Hold1].
  destruct (get2_set2 _ _ _ _ _ _ Hw2) as [Hnew2 Hold2].
  rewrite (Hold1 (FEP.sigmas a) i j) in Hs' by (by left).
  assert (s_ij' = s_ij) as -> by congruence.
  rewrite Hx, Hs. cbn.
  split_and!; try done.
  - rewrite (Hold2 (FEP.offspring_x a) i j) by (by left). done.
  - intros r' i' j' Hne.
    rewrite Hold2, Hold1; [done|..]; destruct Hne as [[? ?]|[?|?]]; auto.
Qed.

(** The coordinates [s], ..., [s + m - 1] of one offspring, with three
    draws each. *)
Lemma mutations_formula a i m : ∀ s h self h' self',
  distinct a →
  for_each (FEP.mutate a i) (seq s m) (h, self) = Some (Next (h', self')) →
  let g := rng_optimization (FEP.base self) in
  self' = FEP.with_base (set_rng_optimization (Nat.iter m after_mutation g)) self
  ∧ (∀ j, s ≤ j < s + m →
       let g_j := Nat.iter (j - s) after_mutation g in
       FEP.get2 h' (FEP.offspring_x a) i j
       = (x_ij ← FEP.get2 h (FEP.x a) i j;
          s_ij ← FEP.get2 h (FEP.sigmas a) i j;
          Some (mutated_point x_ij s_ij g_j))
       ∧ FEP.get2 h' (FEP.offspring_sigmas a) i j
         = (s_ij ← FEP.get2 h (FEP.sigmas a) i j;
            Some (mutated_step self s_ij g_j)))
  ∧ (∀ r' i' j',
       (r' ≠ FEP.offspring_x a ∧ r' ≠ FEP.offspring_sigmas a)
       ∨ i' ≠ i ∨ ¬ (s ≤ j' < s + m) →
       FEP.get2 h' r' i' j' = FEP.get2 h r' i' j').
Proof.
  induction m as [|m IH]; intros s h self h' self' Hdistinct Hrun g.
  { cbn in Hrun. injection Hrun as <- <-. split_and!; try done.
    - subst g. by destruct self as [[]].
    - lia. }
  cbn [seq for_each] in Hrun.
  destruct (FEP.mutate a i s (h, self)) as [[[h1 self1]|?]|] eqn:Hbody;
    [|done..].
  apply (mutate_formula _ _ _ _ _ _ _ Hdistinct) in Hbody
    as (-> & Hx1 & Hs1 & Hold1).
  apply (IH _ _ _ _ _ Hdistinct) in Hrun as (-> & Hnew & Hold).
  cbn zeta in Hnew. fold g in Hx1, Hs1. cbn in Hnew.
  pose proof Hdistinct as (Hxs & Hxox & Hxos & Hsox & Hsos & Hoxos & Hy).
  split_and!.
  - rewrite Nat.iter_succ_r. reflexivity.
  - intros j Hj. cbn zeta. destruct (decide (j = s)) as [->|Hne].
    + rewrite !Hold by (right; right; lia).
      rewrite Nat.sub_diag. cbn. done.
    + destruct (Hnew j ltac:(lia)) as [Hxj Hsj].
      rewrite Hxj, Hsj.
      rewrite !(Hold1 (FEP.x a)) by (left; by split).
      rewrite !(Hold1 (FEP.sigmas a)) by (left; by split).
      fold g.
      replace (j - s) with (S (j - S s)) by lia.
      rewrite <- !Nat.iter_succ_r. done.
  - intros r' i' j' Hne. rewrite Hold, Hold1; [done|..];
      destruct Hne as [[? ?]|[?|?]]; auto; right; right; lia.
Qed.

(** Offspring [i] of [FEP.iterate], when the poll before it answers
    false: coordinate [j] of its point is the parent's coordinate plus
    the parent's step-size times a Cauchy sample, and coordinate [j] of
    its step-sizes is the parent's step-size times
    [exp(tau_apostrophe*n1 + tau*n2)] for two normal samples; the three
    samples of coordinate [j] are the draws [3j], [3j + 1], [3j + 2] of
    the generator of the optimization, which has moved on by these
    [3*ndim_problem] draws at the end, and the fitness of the offspring
    is evaluated at the mutated point. *)
Theorem offspring_is_a_cauchy_mutation a i h self h1 self1 n :
  let o := FEP.base self in
  let g := rng_optimization o in
  distinct a → populated h a n (ndim_problem o) →
  FEP.offspring clock a i (h, self) = Some (Next (h1, self1)) →
  (∀ j, j < ndim_problem o →
     let g_j := Nat.iter j after_mutation g in
     ∃ x_ij s_ij,
       FEP.get2 h (FEP.x a) i j = Some x_ij
       ∧ FEP.get2 h (FEP.sigmas a) i j = Some s_ij
       ∧ FEP.get2 h1 (FEP.offspring_x a) i j
         = Some (mutated_point x_ij s_ij g_j)
       ∧ FEP.get2 h1 (FEP.offspring_sigmas a) i j
         = Some (mutated_step self s_ij g_j))
  ∧ rng_optimization (FEP.base self1)
    = Nat.iter (ndim_problem o) after_mutation g
  ∧ (∃ row s,
       child h1 a i = Some (row, s, fitness_function o row)
       ∧ n_function_evaluations (FEP.base self1)
         = n_function_evaluations o + 1).
Proof.
  intros o g Hdistinct Hpop Hbody.
  pose proof (fep_offspring_step clock _ _ _ _ _ _ _ _ Hdistinct Hpop Hbody)
    as (Hpop1 & _ & _ & (row & s & Hchild) & _).
  assert (i < n) as Hin.
  { destruct Hpop1 as [_ Hvecs].
    destruct (Hvecs (FEP.offspring_y a)) as (u & Hu & Hlen); [set_solver|].
    unfold child, individual in Hchild.
    apply bind_Some in Hchild as (? & _ & Hchild).
    apply bind_Some in Hchild as (? & _ & Hchild).
    apply bind_Some in Hchild as (v & Hv & _).
    unfold get1 in Hv. rewrite Hu in Hv. cbn in Hv.
    apply lookup_lt_Some in Hv. lia. }
  unfold FEP.offspring in Hbody.
  change (_check_terminations clock (FEP.base self))
    with (exhausted clock o (n_function_evaluations o) (ticks o),
          (_check_terminations clock o).2) in Hbody.
  cbn beta iota zeta in Hbody.
  destruct (exhausted _ _ _ _); [done|].
  apply bind_Some in Hbody as ([h2 self2] & Hloop & Hbody).
  apply fmap_Some in Hloop as ([[h2' self2']|?] & Hloop & Hr1);
    [|by apply mutations_inv in Hloop as (? & ? & ? & _)].
  cbn in Hr1. injection Hr1 as -> ->.
  change (ndim_problem (FEP.base (FEP.with_base _ self)))
    with (ndim_problem o) in Hloop.
  apply (mutations_formula _ _ _ _ _ _ _ _ Hdistinct) in Hloop
    as (-> & Hnew & _).
  apply bind_Some in Hbody as (row' & Hrow & Hbody).
  destruct (_evaluate_fitness _ row') as [v o'] eqn:Hv.
  apply bind_Some in Hbody as (h3 & Hw & Hbody).
  injection Hbody as <- <-.
  unfold _evaluate_fitness in Hv. injection Hv as <- <-.
  split_and!.
  - intros j Hj. cbn zeta.
    destruct (Hnew j ltac:(lia)) as [Hxj Hsj]. rewrite Nat.sub_0_r in Hxj, Hsj.
    cbn in Hxj, Hsj.
    destruct (get2_shaped h a n (ndim_problem o) (FEP.x a) i j)
      as [x_ij Hx]; [by apply populated_shaped|done|done|by repeat constructor|].
    destruct (get2_shaped h a n (ndim_problem o) (FEP.sigmas a) i j)
      as [s_ij Hs]; [by apply populated_shaped|done|done|by repeat constructor|].
    rewrite Hx, Hs in Hxj. rewrite Hs in Hsj. cbn in Hxj, Hsj.
    apply set1_inv in Hw as (u & Hu & Hi & ->).
    exists x_ij, s_ij. split_and!; [done|done|exact Hxj|exact Hsj].
  - done.
  - exists row, s. split; [done|]. cbn. done.
Qed.

End FEP_mutation.

(** ** The statements on the executable instance *)

Section Instances.
Import Core Demo.

(** The array routines of the instance are lawful. *)
Lemma insert_by_length v i acc : length (insert_by v i acc) = S (length acc).
Proof.
  induction acc as [|[w j] acc IH]; cbn; [done|].
  destruct (v <? w)%Z; cbn; [done|]. by rewrite IH.
Qed.

Lemma insert_by_elem_of v i acc p :
  p ∈ insert_by v i acc → p = (v, i) ∨ p ∈ acc.
Proof.
  induction acc as [|[w j] acc IH]; cbn.
  { intros ->%list_elem_of_singleton. by left. }
  destruct (v <? w)%Z.
  - intros [->|Hin]%elem_of_cons; [by left|by right].
  - intros [->|Hin]%elem_of_cons; [right; by left|].
    destruct (IH Hin) as [->|?]; [by left|right; by right].
Qed.

Lemma sort_indexed_length l : length (sort_indexed l) = length l.
Proof.
  unfold sort_indexed.
  assert (∀ ps : list (Z * nat),
            length (foldr (λ vi acc, insert_by vi.1 vi.2 acc) [] ps)
            = length ps) as Hfold.
  { induction ps as [|p ps IH]; cbn; [done|]. by rewrite insert_by_length, IH. }
  rewrite Hfold, length_zip, length_seq. lia.
Qed.

Lemma sort_indexed_elem_of l p :
  p ∈ sort_indexed l → p ∈ zip l (seq 0 (length l)).
Proof.
  unfold sort_indexed. generalize (zip l (seq 0 (length l))) as ps.
  induction ps as [|q ps IH]; cbn; [done|].
  intros [->|Hin]%insert_by_elem_of.
  - destruct q. by left.
  - right. by apply IH.
Qed.

Lemma Z_numeric_lawful : lawful_arrays (F := Z).
Proof.
  split_and!.
  - intros l. cbn. by rewrite length_fmap, sort_indexed_length.
  - intros l i. cbn. intros ([v j] & -> & Hin%sort_indexed_elem_of)%list_elem_of_fmap.
    apply elem_of_zip_r, elem_of_seq in Hin. cbn. lia.
  - intros l. cbn. by rewrite length_fmap, sort_indexed_length.
  - intros rows columns. cbn. by rewrite length_replicate.
Qed.

Lemma insert_by_Permutation v i acc : insert_by v i acc ≡ₚ (v, i) :: acc.
Proof.
  induction acc as [|[w j] acc IH]; cbn; [done|].
  destruct (v <? w)%Z; [done|]. rewrite IH. apply Permutation_swap.
Qed.

Lemma sort_indexed_Permutation l :
  sort_indexed l ≡ₚ zip l (seq 0 (length l)).
Proof.
  unfold sort_indexed. generalize (zip l (seq 0 (length l))) as ps.
  induction ps as [|[v i] ps IH]; cbn; [done|].
  by rewrite insert_by_Permutation, IH.
Qed.

Lemma Z_numeric_permutes : argsort_permutes (F := Z).
Proof.
  intros l. cbn. rewrite sort_indexed_Permutation.
  rewrite snd_zip by (by rewrite length_seq). done.
Qed.

Lemma counter_source_lawful : lawful_choice (F := Z) (G := nat).
Proof.
  intros a size g Ha. cbn. apply Forall_fmap, Forall_forall.
  intros i _. cbn. apply Nat.mod_upper_bound. lia.
Qed.

Lemma counter_source_normal : lawful_normal (F := Z) (G := nat).
Proof. intros n g. cbn. by rewrite length_fmap, length_seq. Qed.

Lemma Z_numeric_shapes : lawful_shapes (F := Z) (G := nat).
Proof.
  split_and!.
  - intros l. cbn. by rewrite length_fmap, sort_indexed_length.
  - intros rows columns. cbn. split; [by rewrite length_replicate|].
    intros i row [-> _]%lookup_replicate. by rewrite length_replicate.
  - exact counter_source_normal.
  - intros low high g Hlen. cbn. rewrite length_zip_with. lia.
Qed.

Lemma r1es_runnable (max_evaluations max_time : option nat) :
  runnable (r1es max_evaluations max_time).
Proof.
  unfold runnable. cbn. split_and!; try done; try lia.
  by intros m [= <-].
Qed.

(** The claim C1 as it stands fails for a budget of zero evaluations: the
    run returns with one evaluation made, that of the initial mean. *)
Lemma budget_of_zero_is_exceeded :
  max_function_evaluations (R1ES.core (r1es (Some 0) None)) = Some 0
  ∧ returned_evaluations
      (R1ES.optimize frozen_clock 1 (r1es (Some 0) None) None) = Some 1.
Proof. split; vm_compute; reflexivity. Qed.

Lemma evaluation_counter_within_budget_witness :
  ∃ l0 l,
    R1ES.prologue (r1es (Some 7) None) None = Some l0
    ∧ R1ES.generations steady_clock 3 l0 = Returns l
    ∧ n_function_evaluations (R1ES.core (R1ES.l_self l)) ≤ 7
    ∧ quiet (trace (R1ES.core (R1ES.l_self l))).
Proof.
  assert (Hrun : is_Some
            (l0 ← R1ES.prologue (r1es (Some 7) None) None;
             match R1ES.generations steady_clock 3 l0 with
             | Returns l => Some l
             | Raises | OutOfFuel => None
             end))
    by (vm_compute; eexists; reflexivity).
  destruct Hrun as [l Hrun].
  apply bind_Some in Hrun as (l0 & Hpro & Hrun).
  destruct (R1ES.generations steady_clock 3 l0) as [l'| |] eqn:Hgen;
    [|discriminate..].
  injection Hrun as ->.
  exists l0, l. split; [exact Hpro|]. split; [exact Hgen|].
  destruct (evaluation_counter_within_budget steady_clock 3 _ None l0 l Hpro Hgen)
    as (_ & _ & _ & Hbound & Hquiet & _).
  split.
  - exact (Hbound 7 eq_refl).
  - apply Hquiet.
    + unfold steady_clock. intros i j Hij. exact Hij.
    + unfold clean. apply not_elem_of_nil.
Defined.

Lemma best_so_far_never_increases_witness :
  (∀ a b c : Z, fltb a b = true → fltb b c = true → fltb a c = true)
  ∧ ∃ l0,
      R1ES.prologue (r1es (Some 7) None) None = Some l0
      ∧ not_above (best_so_far_y (R1ES.core (R1ES.l_self l0)))
          (best_so_far_y (R1ES.core (r1es (Some 7) None))).
Proof.
  assert (Htrans : ∀ a b c : Z,
            fltb a b = true → fltb b c = true → fltb a c = true).
  { cbn. intros a b c Hab%Z.ltb_lt Hbc%Z.ltb_lt. apply Z.ltb_lt. lia. }
  split; [exact Htrans|].
  assert (Hpro : is_Some (R1ES.prologue (r1es (Some 7) None) None))
    by (vm_compute; eexists; reflexivity).
  destruct Hpro as [l0 Hpro]. exists l0. split; [exact Hpro|].
  destruct (best_so_far_never_increases frozen_clock Htrans) as (Hbest & _).
  exact (Hbest (r1es (Some 7) None) None l0 Hpro).
Defined.

Lemma memory_shaped : shaped memory arrays 2 2.
Proof.
  split_and!.
  - intros r Hr. cbn in Hr.
    repeat (apply elem_of_cons in Hr as [->|Hr]);
      [..|by apply elem_of_nil in Hr].
    + exists [[1; 2]; [3; 4]]%Z. split; [vm_compute; reflexivity|].
      split; [cbn; lia|].
      intros [|[|i]] row Hi Hrow; cbn in Hrow; simplify_eq; cbn; lia.
    + exists [[1; 1]; [1; 1]]%Z. split; [vm_compute; reflexivity|].
      split; [cbn; lia|].
      intros [|[|i]] row Hi Hrow; cbn in Hrow; simplify_eq; cbn; lia.
    + exists [[0; 0]; [0; 0]]%Z. split; [vm_compute; reflexivity|].
      split; [cbn; lia|].
      intros [|[|i]] row Hi Hrow; cbn in Hrow; simplify_eq; cbn; lia.
    + exists [[0; 0]; [0; 0]]%Z. split; [vm_compute; reflexivity|].
      split; [cbn; lia|].
      intros [|[|i]] row Hi Hrow; cbn in Hrow; simplify_eq; cbn; lia.
  - exists [0; 0]%Z. split; [vm_compute; reflexivity|]. cbn. lia.
  - exists [5; 25]%Z. vm_compute. reflexivity.
Qed.

(** Line 132 on arrays whose shapes do not agree: a mean of three
    entries for the problem of dimension two raises, and a mean of one
    entry is stretched over the two coordinates. *)
Lemma misshapen_mean_raises :
  R1ES.iterate frozen_clock (r1es (Some 2) None)
    [[0; 0]; [0; 0]; [0; 0]; [0; 0]]%Z [3; 3; 3]%Z [0; 0]%Z [18; 18; 18; 18]%Z
  = None.
Proof. vm_compute. reflexivity. Qed.

Lemma mean_of_one_entry_is_stretched :
  (R1ES.iterate frozen_clock (r1es (Some 2) None)
     [[0; 0]; [0; 0]; [0; 0]; [0; 0]]%Z [3]%Z [0; 0]%Z [18; 18; 18; 18]%Z
   ≫= λ r, Some (r.1.2, r.2))
  = Some ([[-1; 3]; [1; 5]; [0; 0]; [0; 0]]%Z, [10; 26; 18; 18]%Z).
Proof. vm_compute. reflexivity. Qed.

Lemma budget_exhausted_mid_generation_witness :
  (∃ self' x' y',
     R1ES.iterate frozen_clock (r1es (Some 2) None)
       [[0; 0]; [0; 0]; [0; 0]; [0; 0]]%Z [3; 3]%Z [0; 0]%Z [18; 18; 18; 18]%Z
     = Some (self', x', y')
     ∧ n_function_evaluations (R1ES.core self') = 0 + 2)
  ∧ (∃ h' self',
       FEP.iterate frozen_clock (fep (Some 1) None) arrays memory
       = Some (h', self')
       ∧ n_function_evaluations (FEP.base self') = 0 + 1).
Proof.
  destruct (budget_exhausted_mid_generation (F := Z) (G := nat) frozen_clock)
    as [Hr1es Hfep].
  split.
  - destruct (Hr1es (r1es (Some 2) None)
                [[0; 0]; [0; 0]; [0; 0]; [0; 0]]%Z [3; 3]%Z [0; 0]%Z
                [18; 18; 18; 18]%Z 2)
      as (self' & x' & y' & Hit & Hn & _).
    + exact counter_source_normal.
    + split_and!; [reflexivity..|].
      intros i row Hrow%list_elem_of_lookup_2.
      repeat (apply elem_of_cons in Hrow as [->|Hrow]; [reflexivity|]).
      by apply elem_of_nil in Hrow.
    + vm_compute. lia.
    + vm_compute. lia.
    + vm_compute. lia.
    + intros i Hi. destruct i as [|[|i]]; [vm_compute; reflexivity..|lia].
    + vm_compute. reflexivity.
    + exists self', x', y'. split; [exact Hit|exact Hn].
  - destruct (Hfep (fep (Some 1) None) arrays memory 1)
      as (h' & self' & Hit & Hn & _).
    + vm_compute. lia.
    + exact memory_shaped.
    + intros i Hi. destruct i as [|i]; [vm_compute; reflexivity|lia].
    + vm_compute. reflexivity.
    + exists h', self'. split; [exact Hit|exact Hn].
Defined.

(** The claim C4 as it stands fails when a maximal runtime is set: two
    runs of one optimizer on one fitness function end after five and after
    three evaluations, depending on the pace of the clock. *)
Lemma runs_differ_with_the_clock :
  returned_evaluations
    (R1ES.optimize steady_clock 2 (r1es None (Some 4)) None) = Some 5
  ∧ returned_evaluations
      (R1ES.optimize fast_clock 2 (r1es None (Some 4)) None) = Some 3.
Proof. split; vm_compute; reflexivity. Qed.

Lemma runs_without_time_limit_agree_witness :
  max_runtime (R1ES.core (r1es (Some 7) None)) = None
  ∧ R1ES.optimize steady_clock 3 (r1es (Some 7) None) None
    = R1ES.optimize fast_clock 3 (r1es (Some 7) None) None.
Proof.
  assert (Hr : max_runtime (R1ES.core (r1es (Some 7) None)) = None)
    by (vm_compute; reflexivity).
  split; [exact Hr|].
  exact (runs_without_time_limit_agree steady_clock fast_clock 3
           (r1es (Some 7) None) None Hr).
Defined.

Lemma restart_keeps_the_counters_witness :
  ∃ l l',
    R1ES.prologue (restless (Some 7) None) None = Some l
    ∧ R1ES.restart_reinitialize l = Some l'
    ∧ (ES.restart_reinitialize (R1ES.es (R1ES.l_self l))).1 = true
    ∧ ES.n_restart (R1ES.es (R1ES.l_self l'))
      = ES.n_restart (R1ES.es (R1ES.l_self l)) + 1
    ∧ ES._n_generations (R1ES.es (R1ES.l_self l'))
      = ES._n_generations (R1ES.es (R1ES.l_self l))
    ∧ n_function_evaluations (R1ES.core (R1ES.l_self l'))
      = n_function_evaluations (R1ES.core (R1ES.l_self l)) + 1.
Proof.
  assert (Hrun : is_Some
            (l ← R1ES.prologue (restless (Some 7) None) None;
             l' ← R1ES.restart_reinitialize l;
             if (ES.restart_reinitialize (R1ES.es (R1ES.l_self l))).1
             then Some l' else None))
    by (vm_compute; eexists; reflexivity).
  destruct Hrun as [l'' Hrun].
  apply bind_Some in Hrun as (l & Hpro & Hrun).
  apply bind_Some in Hrun as (l' & Hr & Hrun).
  destruct (ES.restart_reinitialize (R1ES.es (R1ES.l_self l))).1 eqn:Hfired;
    [|discriminate].
  exists l, l'. split; [exact Hpro|]. split; [exact Hr|].
  split; [exact Hfired|].
  pose proof (restart_keeps_the_counters l l' Hr) as Hfacts.
  cbn zeta in Hfacts. rewrite Hfired in Hfacts.
  destruct Hfacts as (Hn & Hg & Hre & _). done.
Defined.

Lemma step_size_follows_the_rank_rate_witness :
  let self := (R1ES.initialize (r1es (Some 7) None) false).1.1.1.1.1 in
  R1ES._rr self = Some [1; 2; 3; 4]
  ∧ ∃ self' mean' p' s' y',
      R1ES._update_distribution self
        [[1; 2]; [3; 4]; [0; 1]; [2; 2]]%Z [3; 3]%Z [0; 0]%Z 0%Z
        [5; 25; 1; 8]%Z [18; 18; 18; 18]%Z
      = Some (self', mean', p', s', y')
      ∧ ES.sigma (R1ES.es self')
        = fmul (ES.sigma (R1ES.es self)) (fexp (fdiv s' (R1ES.d_sigma self))).
Proof.
  intros self.
  assert (Hrr : R1ES._rr self
                = Some (S <$> seq 0 (ES.n_parents (R1ES.es self) * 2)))
    by (vm_compute; reflexivity).
  split; [vm_compute; reflexivity|].
  assert (Hu : is_Some
            (R1ES._update_distribution self
               [[1; 2]; [3; 4]; [0; 1]; [2; 2]]%Z [3; 3]%Z [0; 0]%Z 0%Z
               [5; 25; 1; 8]%Z [18; 18; 18; 18]%Z))
    by (vm_compute; eexists; reflexivity).
  destruct Hu as [[[[[self' mean'] p'] s'] y'] Hu].
  exists self', mean', p', s', y'. split; [exact Hu|].
  destruct (step_size_follows_the_rank_rate self _ _ _ _ _ _ _ _ _ _ _ Hrr Hu)
    as (_ & Hsigma & _).
  exact Hsigma.
Defined.

Lemma offspring_are_rank_one_samples_witness :
  ∃ l0 l self' x' y',
    R1ES.prologue (R1ES.__init__ (strategy (Some 7) None) ∅) None = Some l0
    ∧ turns frozen_clock 1 l0 = Some l
    ∧ R1ES.iterate frozen_clock (R1ES.l_self l) (R1ES.l_x l) (R1ES.l_mean l)
        (R1ES.l_p l) (R1ES.l_y l) = Some (self', x', y')
    ∧ R1ES.l_mean l = [3; 5]%Z
    ∧ n_function_evaluations (R1ES.core self')
      = n_function_evaluations (R1ES.core (R1ES.l_self l)) + 2
    ∧ (x' !! 0 = Some [7; 3]%Z ∧ y' !! 0 = Some 58%Z)
    ∧ (x' !! 1 = Some [-1; 5]%Z ∧ y' !! 1 = Some 26%Z)
    ∧ evaluations (trace (R1ES.core self'))
      = evaluations (trace (R1ES.core (R1ES.l_self l))) ++ take 2 x'.
Proof.
  assert (Hrun : is_Some
            (l0 ← R1ES.prologue (R1ES.__init__ (strategy (Some 7) None) ∅) None;
             turns frozen_clock 1 l0))
    by (vm_compute; eexists; reflexivity).
  destruct Hrun as [l Hrun].
  assert (Hfacts :
            (l0 ← R1ES.prologue (R1ES.__init__ (strategy (Some 7) None) ∅) None;
             l ← turns frozen_clock 1 l0;
             let self := R1ES.l_self l in
             let o := R1ES.core self in
             Some (R1ES.l_mean l, R1ES.l_p l, ES.sigma (R1ES.es self),
                   R1ES.c_cov self, ndim_problem o, rng_optimization o,
                   fitness_function o, ES.n_individuals (R1ES.es self),
                   n_function_evaluations o, max_function_evaluations o,
                   max_runtime o))
            = Some ([3; 5]%Z, [0; 0]%Z, 2%Z, 0%Z, 2, 12, sphere, 4, 5,
                    Some 7, None))
    by (vm_compute; reflexivity).
  apply bind_Some in Hrun as (l0 & Hpro & Hturns).
  rewrite Hpro in Hfacts. cbn [mbind option_bind] in Hfacts.
  rewrite Hturns in Hfacts. cbn [mbind option_bind] in Hfacts.
  destruct (offspring_are_rank_one_samples frozen_clock
              (strategy (Some 7) None) ∅ None 1 l0 l Z_numeric_shapes
              (r1es_runnable (Some 7) None) Hpro Hturns)
    as (self' & x' & y' & j & Hit & Hj & Hfalse & Htrue & Hn & Hrows & Hlog).
  cbn zeta in Hfacts.
  injection Hfacts as Hmean Hp Hsigma Hc_cov Hd Hg Hf Hind Hcount Hmax Htime.
  unfold exhausted in Hfalse, Htrue.
  rewrite Hind in Hj, Htrue. rewrite Hcount, Hmax, Htime in Hfalse, Htrue.
  assert (j = 2) as ->.
  { destruct (decide (j < 2)) as [Hlow|Hhigh].
    - specialize (Htrue ltac:(lia)).
      destruct j as [|[|j]]; [discriminate..|lia].
    - destruct (decide (2 < j)) as [Hmore|?]; [|lia].
      specialize (Hfalse 2 Hmore). discriminate. }
  exists l0, l, self', x', y'.
  split; [exact Hpro|]. split; [exact Hturns|]. split; [exact Hit|].
  split; [exact Hmean|]. split; [exact Hn|].
  pose proof (Hrows 0 ltac:(lia)) as Hrow0.
  pose proof (Hrows 1 ltac:(lia)) as Hrow1.
  cbn zeta in Hrow0, Hrow1.
  rewrite Hmean, Hp, Hsigma, Hc_cov, Hd, Hg, Hf in Hrow0, Hrow1.
  split; [exact Hrow0|]. split; [exact Hrow1|exact Hlog].
Defined.

Lemma early_return_keeps_the_parents_witness :
  separate arrays
  ∧ ∃ h1 self1,
      FEP.iterate frozen_clock (fep (Some 1) None) arrays memory
      = Some (h1, FEP.with_base (λ o, (_check_terminations frozen_clock o).2) self1)
      ∧ FEP.mats h1 !! FEP.x arrays = FEP.mats memory !! FEP.x arrays
      ∧ FEP.vecs h1 !! FEP.y arrays = FEP.vecs memory !! FEP.y arrays.
Proof.
  assert (Hsep : separate arrays) by (unfold separate; cbn; lia).
  split; [exact Hsep|].
  destruct (early_return_keeps_the_parents frozen_clock (fep (Some 1) None)
              arrays memory 1) as (h1 & self1 & _ & Hit & Hx & _ & Hy).
  - exact Hsep.
  - vm_compute. lia.
  - exact memory_shaped.
  - intros i Hi. destruct i as [|i]; [vm_compute; reflexivity|lia].
  - vm_compute. reflexivity.
  - exists h1, self1. split; [exact Hit|]. split; [exact Hx|exact Hy].
Defined.

(** That the arrays of the parents are not also those of the offspring
    is needed for the parents to be kept: with [x] passed as
    [offspring_x] too, a call that returns after one offspring has
    overwritten the first row of [x]. *)
Lemma aliased_parents_are_overwritten :
  FEP.mats memory !! FEP.x aliased = Some [[1; 2]; [3; 4]]%Z
  ∧ (FEP.iterate frozen_clock (fep (Some 1) None) aliased memory
     ≫= λ r, FEP.mats r.1 !! FEP.x aliased) = Some [[-1; 1]; [3; 4]]%Z.
Proof. split; vm_compute; reflexivity. Qed.

Lemma optimize_returns_witness :
  ∃ l0 l,
    R1ES.prologue (r1es (Some 7) None) None = Some l0
    ∧ R1ES.generations steady_clock 8 l0 = Returns l
    ∧ R1ES.optimize steady_clock 8 (r1es (Some 7) None) None
      = Returns (R1ES.epilogue l).
Proof.
  apply (optimize_returns steady_clock (r1es (Some 7) None) None 7).
  - exact Z_numeric_shapes.
  - exact Z_numeric_permutes.
  - unfold steady_clock. intros i j Hij. exact Hij.
  - apply r1es_runnable.
  - vm_compute. reflexivity.
Defined.

Lemma returned_counter_counts_the_evaluations_witness :
  ∃ l0 l,
    R1ES.prologue (r1es (Some 7) None) None = Some l0
    ∧ R1ES.generations steady_clock 3 l0 = Returns l
    ∧ ES.r_n_function_evaluations (R1ES.collected (R1ES.epilogue l))
      = length (evaluations (trace (R1ES.core (R1ES.l_self l)))).
Proof.
  assert (Hrun : is_Some
            (l0 ← R1ES.prologue (r1es (Some 7) None) None;
             match R1ES.generations steady_clock 3 l0 with
             | Returns l => Some l
             | Raises | OutOfFuel => None
             end))
    by (vm_compute; eexists; reflexivity).
  destruct Hrun as [l Hrun].
  apply bind_Some in Hrun as (l0 & Hpro & Hrun).
  destruct (R1ES.generations steady_clock 3 l0) as [l'| |] eqn:Hgen;
    [|discriminate..].
  injection Hrun as ->.
  exists l0, l. split; [exact Hpro|]. split; [exact Hgen|].
  assert (Hfresh : n_function_evaluations (R1ES.core (r1es (Some 7) None))
                   = length (evaluations (trace (R1ES.core (r1es (Some 7) None)))))
    by (vm_compute; reflexivity).
  exact (proj2 (returned_counter_counts_the_evaluations steady_clock 3 _ None
                  l0 l Hpro Hgen Hfresh)).
Defined.

Lemma memory_populated : populated memory arrays 2 2.
Proof.
  split.
  - intros r Hr. cbn in Hr.
    repeat (apply elem_of_cons in Hr as [->|Hr]);
      [..|by apply elem_of_nil in Hr].
    + exists [[1; 2]; [3; 4]]%Z. split; [vm_compute; reflexivity|].
      split; [done|].
      intros [|[|i]] row Hrow; cbn in Hrow; by simplify_eq.
    + exists [[1; 1]; [1; 1]]%Z. split; [vm_compute; reflexivity|].
      split; [done|].
      intros [|[|i]] row Hrow; cbn in Hrow; by simplify_eq.
    + exists [[0; 0]; [0; 0]]%Z. split; [vm_compute; reflexivity|].
      split; [done|].
      intros [|[|i]] row Hrow; cbn in Hrow; by simplify_eq.
    + exists [[0; 0]; [0; 0]]%Z. split; [vm_compute; reflexivity|].
      split; [done|].
      intros [|[|i]] row Hrow; cbn in Hrow; by simplify_eq.
  - intros r Hr. cbn in Hr.
    repeat (apply elem_of_cons in Hr as [->|Hr]);
      [..|by apply elem_of_nil in Hr].
    + exists [5; 25]%Z. split; [vm_compute; reflexivity|done].
    + exists [0; 0]%Z. split; [vm_compute; reflexivity|done].
Qed.

Lemma arrays_distinct : distinct arrays.
Proof. unfold distinct. cbn. split_and!; done. Qed.

Lemma rank_differences_bounded_witness :
  ∃ rr,
    R1ES.rank_differences (R1ES.initialize (r1es (Some 7) None) false).1.1.1.1.1
      (np_argsort (take 2 [5; 3; 8; 1]%Z ++ take 2 [2; 7; 4; 6]%Z)) = Some rr
    ∧ length rr = 2
    ∧ ∀ d, d ∈ rr → (-2 ≤ d ≤ 2)%Z.
Proof.
  apply (rank_differences_bounded
           (R1ES.initialize (r1es (Some 7) None) false).1.1.1.1.1
           [5; 3; 8; 1]%Z [2; 7; 4; 6]%Z).
  - exact Z_numeric_permutes.
  - vm_compute. reflexivity.
  - vm_compute. lia.
  - vm_compute. lia.
Defined.

Lemma mean_and_direction_follow_the_best_witness :
  ∃ l0 self' mean' p' s' y',
    R1ES.prologue (r1es (Some 7) None) None = Some l0
    ∧ R1ES._update_distribution (R1ES.l_self l0) (R1ES.l_x l0) (R1ES.l_mean l0)
        (R1ES.l_p l0) (R1ES.l_s l0) (R1ES.l_y l0) (R1ES.l_y l0)
      = Some (self', mean', p', s', y')
    ∧ y' = np_sort (R1ES.l_y l0).
Proof.
  assert (Hrun : is_Some
            (l0 ← R1ES.prologue (r1es (Some 7) None) None;
             R1ES._update_distribution (R1ES.l_self l0) (R1ES.l_x l0)
               (R1ES.l_mean l0) (R1ES.l_p l0) (R1ES.l_s l0) (R1ES.l_y l0)
               (R1ES.l_y l0)))
    by (vm_compute; eexists; reflexivity).
  destruct Hrun as [[[[[self' mean'] p'] s'] y'] Hrun].
  apply bind_Some in Hrun as (l0 & Hpro & Hupd).
  exists l0, self', mean', p', s', y'. split; [exact Hpro|]. split; [exact Hupd|].
  assert (Hinit : initialized (R1ES.l_self l0)).
  { apply (run_initialized frozen_clock (strategy (Some 7) None) ∅ None 0 l0 l0);
      [exact Hpro|reflexivity]. }
  destruct (mean_and_direction_follow_the_best _ _ _ _ _ _ _ _ _ _ _ _
              Hinit Hupd) as (rows & _ & _ & _ & _ & Hy).
  exact Hy.
Defined.

Lemma interrupted_generation_is_not_counted_witness :
  ∃ l0 l n,
    R1ES.prologue (r1es (Some 7) None) None = Some l0
    ∧ R1ES.generations steady_clock 3 l0 = Returns l
    ∧ ES.r__n_generations (R1ES.collected (R1ES.epilogue l))
      = ES._n_generations (R1ES.es (r1es (Some 7) None)) + n.
Proof.
  assert (Hrun : is_Some
            (l0 ← R1ES.prologue (r1es (Some 7) None) None;
             match R1ES.generations steady_clock 3 l0 with
             | Returns l => Some l
             | Raises | OutOfFuel => None
             end))
    by (vm_compute; eexists; reflexivity).
  destruct Hrun as [l Hrun].
  apply bind_Some in Hrun as (l0 & Hpro & Hrun).
  destruct (R1ES.generations steady_clock 3 l0) as [l'| |] eqn:Hgen;
    [|discriminate..].
  injection Hrun as ->.
  destruct (interrupted_generation_is_not_counted steady_clock 3 _ None l0 l
              Hpro Hgen) as (n & l1 & _ & _ & _ & _ & Hcount & _).
  exists l0, l, n. split; [exact Hpro|]. split; [exact Hgen|exact Hcount].
Defined.

Lemma history_covers_the_evaluations_witness :
  ∃ l0 l,
    R1ES.prologue (r1es (Some 7) None) None = Some l0
    ∧ R1ES.generations steady_clock 3 l0 = Returns l
    ∧ n_function_evaluations (R1ES.core (R1ES.l_self l))
      ≤ n_function_evaluations (R1ES.core (r1es (Some 7) None))
        + length (R1ES.l_fitness l).
Proof.
  assert (Hrun : is_Some
            (l0 ← R1ES.prologue (r1es (Some 7) None) None;
             match R1ES.generations steady_clock 3 l0 with
             | Returns l => Some l
             | Raises | OutOfFuel => None
             end))
    by (vm_compute; eexists; reflexivity).
  destruct Hrun as [l Hrun].
  apply bind_Some in Hrun as (l0 & Hpro & Hrun).
  destruct (R1ES.generations steady_clock 3 l0) as [l'| |] eqn:Hgen;
    [|discriminate..].
  injection Hrun as ->.
  exists l0, l. split; [exact Hpro|]. split; [exact Hgen|].
  assert (Hsaving : ES.saving_fitness (R1ES.es (r1es (Some 7) None)) = true)
    by (vm_compute; reflexivity).
  destruct (history_covers_the_evaluations steady_clock 3 _ None l0 l Hpro Hgen)
    as [Hhistory _].
  rewrite Hsaving in Hhistory. exact Hhistory.
Defined.

Lemma damping_doubles_with_every_restart_witness :
  ∃ l0 l k,
    R1ES.prologue (restless (Some 7) None) None = Some l0
    ∧ R1ES.generations steady_clock 3 l0 = Returns l
    ∧ ES.r_n_restart (R1ES.collected (R1ES.epilogue l)) = 0 + k
    ∧ R1ES.d_sigma (R1ES.l_self l)
      = Nat.iter k (λ d, fmul d (fconst 2.0)) (fconst 1.0).
Proof.
  assert (Hrun : is_Some
            (l0 ← R1ES.prologue (restless (Some 7) None) None;
             match R1ES.generations steady_clock 3 l0 with
             | Returns l => Some l
             | Raises | OutOfFuel => None
             end))
    by (vm_compute; eexists; reflexivity).
  destruct Hrun as [l Hrun].
  apply bind_Some in Hrun as (l0 & Hpro & Hrun).
  destruct (R1ES.generations steady_clock 3 l0) as [l'| |] eqn:Hgen;
    [|discriminate..].
  injection Hrun as ->.
  destruct (damping_doubles_with_every_restart steady_clock 3
              (strategy_with 3 (Some 7) None) ∅ None l0 l Hpro Hgen)
    as (k & Hn & Hd).
  exists l0, l, k. split; [exact Hpro|]. split; [exact Hgen|].
  split; [exact Hn|exact Hd].
Defined.

Lemma selection_keeps_individuals_whole_witness :
  ∃ h' self',
    FEP.iterate frozen_clock (fep (Some 10) None) arrays memory = Some (h', self')
    ∧ n_function_evaluations (FEP.base self') = 2
    ∧ populated h' arrays 2 2
    ∧ attached sphere (child h' arrays) 2.
Proof.
  destruct (selection_keeps_individuals_whole frozen_clock (fep (Some 10) None)
              arrays memory)
    as (h' & self' & order & Hit & Hn & Hpop & Hchild & _).
  - exact arrays_distinct.
  - exact memory_populated.
  - exact Z_numeric_lawful.
  - exact counter_source_lawful.
  - intros i Hi. destruct i as [|[|i]]; [vm_compute; reflexivity..|].
    exfalso. cbn in Hi. lia.
  - exists h', self'. split; [exact Hit|]. split; [exact Hn|].
    split; [exact Hpop|exact Hchild].
Defined.

Lemma offspring_is_a_cauchy_mutation_witness :
  ∃ h1 self1,
    FEP.offspring frozen_clock arrays 0 (memory, fep (Some 10) None)
    = Some (Next (h1, self1))
    ∧ rng_optimization (FEP.base self1) = Nat.iter 2 after_mutation 0.
Proof.
  assert (Hrun : is_Some
            (r ← FEP.offspring frozen_clock arrays 0 (memory, fep (Some 10) None);
             match r with Next st => Some st | Return _ => None end))
    by (vm_compute; eexists; reflexivity).
  destruct Hrun as [[h1 self1] Hrun].
  apply bind_Some in Hrun as (r & Hbody & Hr).
  destruct r as [st|st]; [|discriminate]. injection Hr as ->.
  exists h1, self1. split; [exact Hbody|].
  destruct (offspring_is_a_cauchy_mutation frozen_clock arrays 0 memory
              (fep (Some 10) None) h1 self1 2 arrays_distinct memory_populated
              Hbody) as (_ & Hg & _).
  exact Hg.
Defined.

End Instances.
